(** * CrystalSuMAPOTrainer: the utility scripts, embedded and verified

    The development follows the repository file by file:

    - [Py]       the fragment of the Python runtime the scripts rely on:
                 exceptions, binary64 floats, a few [str] methods;
    - [Sampler]  [DPO_dataset_generation_utils/Sampler_api.py];
    - [Delect]   [DPO_dataset_generation_utils/DELECT.py];
    - [Merge]    [DPO_dataset_generation_utils/from safetensors.py];
    - [Trainer]  [Trainer/utils.py];
    - [Examples] concrete inputs for the statements.

    Python [int] is [Z]; Python [float] is IEEE-754 binary64, taken from the
    standard library's [SpecFloat] with [prec = 53] and [emax = 1024]; a
    [str] is the [string] of its UTF-8 bytes and a path is a POSIX path; a
    [dict] is a [gmap]; code that may raise returns an [outcome]; code with
    effects threads its state explicitly.  The definitions come first, the
    statements about them follow. *)

From Stdlib Require Import ZArith Ascii String Floats.SpecFloat Reals Lra.
From stdpp Require Import gmap strings list fin_maps pretty.

#[local] Open Scope Z_scope.

(* ===================================================================== *)
(** * The Python runtime fragment *)
(* ===================================================================== *)

Module Py.

(** The exceptions the scripts can meet.  All of them derive from Python's
    [Exception], so an [except Exception] clause catches each of them. *)
Inductive exn :=
| KeyError (key : string)
| IndexError
| TypeError
| ValueError (msg : string)
| ZeroDivisionError
| OverflowError
| RuntimeError (msg : string)
| OSError (msg : string).

Inductive outcome (A : Type) :=
| Ret (a : A)
| Raise (e : exn).
Arguments Ret {A} a.
Arguments Raise {A} e.

#[global] Instance outcome_ret : MRet outcome := fun _ a => Ret a.
#[global] Instance outcome_bind : MBind outcome := fun _ _ f m =>
  match m with
  | Ret a => f a
  | Raise e => Raise e
  end.

(** A computation over a state [S] that may raise.  The state reached when
    an exception is raised is kept: effects performed before the exception
    are not rolled back. *)
Definition prog (S A : Type) : Type := S -> S * outcome A.

#[global] Instance prog_ret {S} : MRet (prog S) := fun _ a s => (s, Ret a).
#[global] Instance prog_bind {S} : MBind (prog S) := fun _ _ f m s =>
  match m s with
  | (s', Ret a) => f a s'
  | (s', Raise e) => (s', Raise e)
  end.

Definition lift {S A} (o : outcome A) : prog S A := fun s => (s, o).
Definition modify {S} (f : S -> S) : prog S unit := fun s => (f s, Ret tt).
Definition reads {S A} (f : S -> A) : prog S A := fun s => (s, Ret (f s)).

(** [try: body except Exception as e: handler e] *)
Definition try_except {S A} (body : prog S A) (handler : exn -> prog S A)
  : prog S A := fun s =>
  match body s with
  | (s', Ret a) => (s', Ret a)
  | (s', Raise e) => handler e s'
  end.

(** [for x in xs: body x] *)
Fixpoint for_each {S A} (xs : list A) (body : A -> prog S unit)
  : prog S unit :=
  match xs with
  | [] => mret tt
  | x :: rest => _ ← body x; for_each rest body
  end.

(** ** binary64 *)

Definition prec : Z := 53.
Definition emax : Z := 1024.

(** [float(n)] for an [int] operand of mixed arithmetic: round to nearest
    even, [OverflowError] outside the range. *)
Definition of_int (n : Z) : outcome spec_float :=
  match binary_normalize prec emax n 0 false with
  | S754_infinity _ => Raise OverflowError
  | x => Ret x
  end.

(** [a / b] on two [int]s: the quotient correctly rounded. *)
Definition int_truediv (a b : Z) : outcome spec_float :=
  match a, b with
  | _, 0 => Raise ZeroDivisionError
  | 0, _ => Ret (S754_zero (b <? 0))
  | _, _ =>
      match SFdiv prec emax
              (S754_finite (a <? 0) (Z.to_pos (Z.abs a)) 0)
              (S754_finite (b <? 0) (Z.to_pos (Z.abs b)) 0) with
      | S754_infinity _ => Raise OverflowError
      | x => Ret x
      end
  end.

(** [n * x] with [n] an [int] and [x] a [float]. *)
Definition int_mul_float (n : Z) (x : spec_float) : outcome spec_float :=
  f ← of_int n; mret (SFmul prec emax f x).

(** [x / n] with [x] a [float] and [n] an [int]. *)
Definition float_div_int (x : spec_float) (n : Z) : outcome spec_float :=
  if n =? 0 then Raise ZeroDivisionError
  else f ← of_int n; mret (SFdiv prec emax x f).

(** [math.sqrt] *)
Definition sqrt (x : spec_float) : outcome spec_float :=
  match x with
  | S754_finite true _ _ | S754_infinity true =>
      Raise (ValueError "math domain error")
  | _ => Ret (SFsqrt prec emax x)
  end.

(** [int(x)]: truncation towards zero. *)
Definition trunc (x : spec_float) : outcome Z :=
  match x with
  | S754_zero _ => Ret 0
  | S754_infinity _ => Raise OverflowError
  | S754_nan => Raise (ValueError "cannot convert float NaN to integer")
  | S754_finite s m e => Ret (cond_Zopp s (Z.shiftl (Z.pos m) e))
  end.

(** [math.floor(x)] *)
Definition floor (x : spec_float) : outcome Z :=
  match x with
  | S754_zero _ => Ret 0
  | S754_infinity _ => Raise OverflowError
  | S754_nan => Raise (ValueError "cannot convert float NaN to integer")
  | S754_finite s m e => Ret (Z.shiftl (cond_Zopp s (Z.pos m)) e)
  end.

(** [x < y] on floats *)
Definition flt (x y : spec_float) : bool := SFltb x y.

(** [int(round(n / 2.0))] for an [int] [n]: halves go to the even
    neighbour. *)
Definition round_half (n : Z) : Z :=
  let q := n / 2 in
  if n mod 2 =? 0 then q else if Z.even q then q else q + 1.

(** ** [str] methods *)

(** [s.replace("|||", "")] *)
Fixpoint remove_bars (s : string) : string :=
  match s with
  | String "|"%char (String "|"%char (String "|"%char rest)) =>
      remove_bars rest
  | String c rest => String c (remove_bars rest)
  | EmptyString => EmptyString
  end.

(** A [str] is held as the [string] of its UTF-8 bytes.  The whitespace
    characters, as [str.isspace] has them, are U+0009..U+000D and
    U+001C..U+0020 (one byte), U+0085 and U+00A0 (two bytes, [C2 85] and
    [C2 A0]), and U+1680, U+2000..U+200A, U+2028, U+2029, U+202F, U+205F and
    U+3000 (three bytes). *)
Definition is_space (c : ascii) : bool :=
  let n := nat_of_ascii c in
  ((9 <=? n) && (n <=? 13) || (28 <=? n) && (n <=? 32))%nat.

Definition is_space2 (c1 c2 : ascii) : bool :=
  let n1 := nat_of_ascii c1 in
  let n2 := nat_of_ascii c2 in
  ((n1 =? 194) && ((n2 =? 133) || (n2 =? 160)))%nat.

Definition is_space3 (c1 c2 c3 : ascii) : bool :=
  let n1 := nat_of_ascii c1 in
  let n2 := nat_of_ascii c2 in
  let n3 := nat_of_ascii c3 in
  ((n1 =? 225) && (n2 =? 154) && (n3 =? 128)
   || (n1 =? 226) && (n2 =? 128)
      && ((128 <=? n3) && (n3 <=? 138) || (n3 =? 168) || (n3 =? 169)
          || (n3 =? 175))
   || (n1 =? 226) && (n2 =? 129) && (n3 =? 159)
   || (n1 =? 227) && (n2 =? 128) && (n3 =? 128))%nat.

(** [s.lstrip()] *)
Fixpoint lstrip (s : string) : string :=
  match s with
  | String c1 rest1 =>
      if is_space c1 then lstrip rest1
      else
        match rest1 with
        | String c2 rest2 =>
            if is_space2 c1 c2 then lstrip rest2
            else
              match rest2 with
              | String c3 rest3 =>
                  if is_space3 c1 c2 c3 then lstrip rest3 else s
              | EmptyString => s
              end
        | EmptyString => s
        end
  | EmptyString => EmptyString
  end.

(** [s.rstrip()] on the reversed string: the bytes of a character come
    last byte first. *)
Fixpoint lstrip_reversed (s : string) : string :=
  match s with
  | String c1 rest1 =>
      if is_space c1 then lstrip_reversed rest1
      else
        match rest1 with
        | String c2 rest2 =>
            if is_space2 c2 c1 then lstrip_reversed rest2
            else
              match rest2 with
              | String c3 rest3 =>
                  if is_space3 c3 c2 c1 then lstrip_reversed rest3 else s
              | EmptyString => s
              end
        | EmptyString => s
        end
  | EmptyString => EmptyString
  end.

(** [s.strip()] *)
Definition strip (s : string) : string :=
  String.rev (lstrip_reversed (String.rev (lstrip s))).

(** [s.split("|||")] *)
Fixpoint split_bars (s : string) : list string :=
  match s with
  | String "|"%char (String "|"%char (String "|"%char rest)) =>
      EmptyString :: split_bars rest
  | String c rest =>
      match split_bars rest with
      | part :: parts => String c part :: parts
      | [] => [String c EmptyString]
      end
  | EmptyString => [EmptyString]
  end.

(** [s.split(sep)] for a separator of one character *)
Fixpoint split_char (sep : ascii) (s : string) : list string :=
  match s with
  | String c rest =>
      if Ascii.eqb c sep then EmptyString :: split_char sep rest
      else match split_char sep rest with
           | part :: parts => String c part :: parts
           | [] => [String c EmptyString]
           end
  | EmptyString => [EmptyString]
  end.

(** ** [pathlib], for POSIX paths *)

(** [Path(d) / name] *)
Definition path_join (d name : string) : string := d +:+ "/" +:+ name.

(** Length of the longest prefix of [s] that ends just before its last
    occurrence of [c]. *)
Fixpoint rindex (c : ascii) (s : string) : option nat :=
  match s with
  | EmptyString => None
  | String d rest =>
      match rindex c rest with
      | Some i => Some (S i)
      | None => if Ascii.eqb c d then Some O else None
      end
  end.

(** The components of a path: empty components and ["."] are dropped. *)
Definition components (p : string) : list string :=
  filter (fun part => part <> EmptyString /\ part <> ".")
    (split_char "/" p).

(** [Path(p).name]: the last component, if any. *)
Definition name_of (p : string) : string :=
  default EmptyString (last (components p)).

(** [Path(p).stem]: the name without its last suffix. *)
Definition stem (p : string) : string :=
  let name := name_of p in
  match rindex "."%char name with
  | Some i =>
      if ((0 <? i) && (i <? String.length name - 1))%nat
      then String.substring 0 i name else name
  | None => name
  end.

(** [c in s] for a character [c] *)
Fixpoint has_char (c : ascii) (s : string) : bool :=
  match s with
  | String d rest => Ascii.eqb d c || has_char c rest
  | EmptyString => false
  end.

(** ** Sequences *)

(** [range(start, stop, step)] *)
Definition range (start stop step : Z) : outcome (list Z) :=
  if step =? 0 then Raise (ValueError "range() arg 3 must not be zero")
  else
    let len := if 0 <? step then (stop - start + step - 1) / step
               else (start - stop - step - 1) / (- step) in
    Ret ((fun k => start + k * step) <$> seqZ 0 len).

(** [l[i]] on a sequence, with Python's negative indices. *)
Definition item {A} (l : list A) (i : Z) : outcome A :=
  let j := if i <? 0 then i + Z.of_nat (length l) else i in
  if j <? 0 then Raise IndexError
  else match l !! Z.to_nat j with
       | Some x => Ret x
       | None => Raise IndexError
       end.

(** [l[i] = v] *)
Definition setitem {A} (l : list A) (i : Z) (v : A) : outcome (list A) :=
  let j := if i <? 0 then i + Z.of_nat (length l) else i in
  if (j <? 0) || (Z.of_nat (length l) <=? j) then Raise IndexError
  else Ret (<[Z.to_nat j := v]> l).

(** [l[start:stop]]: negative bounds count from the end, and both are
    clamped to the sequence. *)
Definition slice {A} (l : list A) (start stop : Z) : list A :=
  let n := Z.of_nat (length l) in
  let clamp i := Z.max 0 (Z.min n (if i <? 0 then i + n else i)) in
  take (Z.to_nat (clamp stop - clamp start)) (drop (Z.to_nat (clamp start)) l).

(** [ys = []; for x in xs: ys.append(body x)] *)
Fixpoint collect {A B} (xs : list A) (body : A -> outcome B)
  : outcome (list B) :=
  match xs with
  | [] => Ret []
  | x :: rest => y ← body x; ys ← collect rest body; Ret (y :: ys)
  end.

End Py.
Import Py.

(* ===================================================================== *)
(** * DPO_dataset_generation_utils/Sampler_api.py *)
(* ===================================================================== *)

Module Sampler.

(** [calculate_adjusted_resolution(width, height, max_area, max_side=2048)] *)
Definition calculate_adjusted_resolution
  (width height max_area max_side : Z) : outcome (Z * Z) :=
  '(width, height) ←
    (if (width >? max_side) || (height >? max_side) then
       scale ← int_truediv max_side (Z.max width height);
       w ← int_mul_float width scale ≫= trunc;
       h ← int_mul_float height scale ≫= trunc;
       mret (w, h)
     else mret (width, height));
  let area := width * height in
  '(width, height) ←
    (if area >? max_area then
       scale ← int_truediv max_area area ≫= sqrt;
       w ← int_mul_float width scale ≫= trunc;
       h ← int_mul_float height scale ≫= trunc;
       mret (w, h)
     else mret (width, height));
  mret (width / 8 * 8, height / 8 * 8).

Definition default_max_side : Z := 2048.

(** One record of the manifest.  [generated] is absent until the driver
    sets it; [image_info.get("generated", False)] reads an absent flag as
    false. *)
Record image_info := {
  tag : string;
  width : Z;
  height : Z;
  generated : option bool
}.

Definition mark_generated (i : image_info) : image_info :=
  {| tag := tag i; width := width i; height := height i;
     generated := Some true |}.

(** artist name -> image name -> record *)
Abbreviation manifest := (gmap string (gmap string image_info)).

(** The command line. *)
Record args := {
  model_name : string;
  json_path : string;
  output_dir : string;
  batch_size : Z;
  host : string;
  port : Z;
  max : Z
}.

(** The JSON body of a txt2img request. *)
Record image_data := {
  prompt : string;
  negative_prompt : string;
  seed : Z;
  sampler_name : string;
  scheduler : string;
  req_batch_size : Z;
  steps : Z;
  cfg_scale : spec_float;
  req_width : Z;
  req_height : Z;
  send_images : bool;
  save_images : bool;
  sd_model_checkpoint : string;
  tiled_vae_args : list (string + Z)
}.

(** What the driver does to the outside world. *)
Inductive event :=
| Mkdir (path : string)
| Post (api_url : string) (body : image_data)
| PrintApiError (e : exn)
| SaveWebp (output_path : string) (base64_image : string)
| DumpJson (path : string) (content : manifest)
| PrintItemError (image_name artist_name : string) (e : exn).

(** A manifest entry: artist and image name. *)
Definition entry : Type := string * string.

(** The state the driver runs in: the manifest object in memory, the JSON
    files on disk, and the log of its effects.  [current] is the manifest
    entry the driver is working on, if any; every logged event carries it,
    so that an effect can be attributed to an entry. *)
Record state := {
  data : manifest;
  disk : gmap string manifest;
  current : option entry;
  log : list (option entry * event)
}.

(** The answers of the environment, per manifest entry: whether a directory
    can be made, the seed drawn, the reply of the generation endpoint
    ([Raise] when [requests.post] or [response.json()] raises, otherwise the
    ['images'] list of the reply), and whether the [i]-th image decodes and
    saves. *)
Record env := {
  mkdir : string -> outcome unit;
  randint : option entry -> Z;
  post : option entry -> string -> image_data -> outcome (list string);
  store : option entry -> nat -> string -> string -> outcome unit
}.

Definition emit (ev : event) : prog state unit :=
  modify (fun s =>
    {| data := data s; disk := disk s; current := current s;
       log := log s ++ [(current s, ev)] |}).

(** An event outside of any entry. *)
Definition emit_outside (ev : event) : prog state unit :=
  modify (fun s =>
    {| data := data s; disk := disk s; current := current s;
       log := log s ++ [(None, ev)] |}).

Definition set_current (c : option entry) : prog state unit :=
  modify (fun s =>
    {| data := data s; disk := disk s; current := c; log := log s |}).

(** [fetch_image_from_api(api_url, image_data)] *)
Definition fetch_image_from_api (E : env) (api_url : string)
  (image_data : image_data) : prog state (list string) :=
  try_except
    (_ ← emit (Post api_url image_data);
     cur ← reads current;
     lift (post E cur api_url image_data))
    (fun e => _ ← emit (PrintApiError e); mret []).

Definition negative_prompt_text : string :=
  "lowres,(bad),extra digits,2girls,bad hands,error,text,fewer,extra,missing,worst quality,jpeg artifacts,(low, old, early,mid)".

(** [image_info["generated"] = True], seen through [data]. *)
Definition set_generated (artist_name image_name : string) (s : state)
  : state :=
  {| data := alter (alter mark_generated image_name) artist_name (data s);
     disk := disk s; current := current s; log := log s |}.

(** [with open(args.json_path, 'w') as f: json.dump(data, f, ...)].  The
    write is taken to succeed and to leave the whole manifest in the
    file. *)
Definition dump_manifest (a : args) : prog state unit :=
  d ← reads data;
  _ ← modify (fun s =>
        {| data := data s; disk := <[json_path a := d]> (disk s);
           current := current s; log := log s |});
  emit (DumpJson (json_path a) d).

(** One iteration of the loop over [enumerate(images_base64)]: decode,
    open and save the [i]-th image. *)
Definition save_output (E : env) (artist_directory base_name : string)
  (item : nat * string) : prog state unit :=
  let '(i, base64_image) := item in
  let output_path :=
    path_join artist_directory
      (base_name +:+ "_DPO" +:+ pretty (S i) +:+ ".webp") in
  cur ← reads current;
  _ ← lift (store E cur i base64_image output_path);
  emit (SaveWebp output_path base64_image).

Definition save_outputs (E : env) (artist_directory base_name : string)
  (images_base64 : list string) : prog state unit :=
  for_each (imap (fun i b => (i, b)) images_base64)
    (save_output E artist_directory base_name).

(** The [try] block of [process_artist_images] for one entry. *)
Definition try_entry (E : env) (a : args)
  (artist_directory api_url artist_name image_name : string)
  (image_info : image_info) : prog state unit :=
  '(w, h) ← lift (calculate_adjusted_resolution
                    (width image_info) (height image_info)
                    (max a * max a) default_max_side);
  cur ← reads current;
  let image_data :=
    {| prompt := strip (remove_bars (tag image_info));
       negative_prompt := negative_prompt_text;
       seed := randint E cur;
       sampler_name := "DPM++ 2M";
       scheduler := "Karras";
       req_batch_size := batch_size a;
       steps := 28;
       cfg_scale := S754_finite false 4503599627370496 (-50);
       req_width := w;
       req_height := h;
       send_images := true;
       save_images := false;
       sd_model_checkpoint := model_name a;
       tiled_vae_args :=
         [inl "true"; inr 1024; inr 128; inl "false"; inl "true";
          inl "true"; inl "true"] |} in
  images_base64 ← fetch_image_from_api E api_url image_data;
  let base_name := stem image_name in
  _ ← save_outputs E artist_directory base_name images_base64;
  _ ← modify (set_generated artist_name image_name);
  dump_manifest a.

(** One iteration of the loop of [process_artist_images]. *)
Definition process_entry (E : env) (a : args)
  (artist_directory api_url artist_name : string)
  (item : string * image_info) : prog state unit :=
  let '(image_name, image_info) := item in
  if bool_decide (generated image_info = Some true) then mret tt
  else
    _ ← set_current (Some (artist_name, image_name));
    _ ← try_except
          (try_entry E a artist_directory api_url artist_name image_name
             image_info)
          (fun e => emit (PrintItemError image_name artist_name e));
    set_current None.

(** [process_artist_images(artist_name, images_info, output_dir, api_url,
    args, data)]; [data] is the manifest of the state. *)
Definition process_artist_images (E : env) (artist_name : string)
  (images_info : gmap string image_info) (output_dir api_url : string)
  (a : args) : prog state unit :=
  let artist_directory := path_join output_dir artist_name in
  _ ← emit_outside (Mkdir artist_directory);
  _ ← lift (mkdir E artist_directory);
  for_each (map_to_list images_info)
    (process_entry E a artist_directory api_url artist_name).

(** [with open(args.json_path) as file: data = json.load(file)] *)
Definition load_manifest (a : args) : prog state manifest := fun s =>
  match disk s !! json_path a with
  | Some d =>
      ({| data := d; disk := disk s; current := current s; log := log s |},
       Ret d)
  | None => (s, Raise (OSError "No such file or directory"))
  end.

(** [generate_images_from_json(args)] *)
Definition generate_images_from_json (E : env) (a : args)
  : prog state unit :=
  let api_url :=
    "http://" +:+ host a +:+ ":" +:+ pretty (port a) +:+ "/sdapi/v1/txt2img" in
  let output_dir := output_dir a in
  _ ← emit_outside (Mkdir output_dir);
  _ ← lift (mkdir E output_dir);
  d ← load_manifest a;
  for_each (map_to_list d) (fun '(artist_name, images_info) =>
    process_artist_images E artist_name images_info output_dir api_url a).

(** The state [s] after the events [evs] were logged for the current
    entry. *)
Definition with_log (s : state) (evs : list event) : state :=
  {| data := data s; disk := disk s; current := current s;
     log := log s ++ ((fun ev => (current s, ev)) <$> evs) |}.

(** The state [s] after [ev] was logged outside of any entry. *)
Definition outside (s : state) (ev : event) : state :=
  {| data := data s; disk := disk s; current := current s;
     log := log s ++ [(None, ev)] |}.

(** The state after the entry was completed behind the events [evs]: the
    flag is set and the manifest is rewritten. *)
Definition completed (a : args) (artist_name image_name : string)
  (s : state) (evs : list event) : state :=
  let d := alter (alter mark_generated image_name) artist_name (data s) in
  {| data := d; disk := <[json_path a := d]> (disk s);
     current := current s;
     log := log s ++ ((fun ev => (current s, ev))
                        <$> (evs ++ [DumpJson (json_path a) d])) |}.

(** The record of an entry in a manifest, and whether it is marked. *)
Definition record_of (d : manifest) (k : entry) : option image_info :=
  d !! k.1 ≫= (.!! k.2).

Definition marked (d : manifest) (k : entry) : Prop :=
  exists i, record_of d k = Some i /\ generated i = Some true.

(** ** Describing what a run did *)

(** The events [evs] as logged for the entry [k]. *)
Definition tagged (k : entry) (evs : list event)
  : list (option entry * event) :=
  (fun ev => (Some k, ev)) <$> evs.

(** A save of an output file. *)
Definition is_save (ev : event) : Prop :=
  exists path b, ev = SaveWebp path b.

(** The two ways an entry that is not marked ends: completed, with the
    flag set and the manifest rewritten last, or failed, with the error
    printed last and nothing else changed. *)
Definition ends_completed (a : args) (artist n : string) (s s1 : state)
  (evs : list event) : Prop :=
  data s1 = alter (alter mark_generated n) artist (data s)
  /\ disk s1 = <[json_path a := data s1]> (disk s)
  /\ last evs = Some (DumpJson (json_path a) (data s1)).

Definition ends_failed (a : args) (artist n : string) (s s1 : state)
  (evs : list event) : Prop :=
  data s1 = data s /\ disk s1 = disk s
  /\ (exists e, last evs = Some (PrintItemError n artist e))
  /\ forall e', PrintApiError e' ∉ evs.

(** An entry that is not marked in [images_info]. *)
Definition pending_in (images_info : gmap string image_info) (artist : string)
  (k : entry) : Prop :=
  exists i, k.1 = artist /\ images_info !! k.2 = Some i
            /\ generated i <> Some true.

(** The events of an artist are those of its entries that are not marked;
    the records of the other entries are untouched. *)
Definition artist_inv (artist : string)
  (images_info : gmap string image_info) (s0 s : state) : Prop :=
  (forall k ev, (Some k, ev) ∈ log s ->
     (Some k, ev) ∈ log s0 \/ pending_in images_info artist k)
  /\ (forall k, ~ pending_in images_info artist k ->
       record_of (data s) k = record_of (data s0) k).

(** An entry that is not marked has been handled when its events end
    with the rewrite of the manifest or with the printed error. *)
Definition handled (a : args) (artist : string) (item : string * image_info)
  (s : state) : Prop :=
  generated item.2 <> Some true ->
  exists ev, (Some (artist, item.1), ev) ∈ log s
    /\ ((exists d, ev = DumpJson (json_path a) d)
        \/ exists e, ev = PrintItemError item.1 artist e).

(** Once the request of entry [k] has failed, [k] is marked in memory and
    in the manifest file, for the rest of the run. *)
Definition keeps (a : args) (d : manifest) (k : entry) (s : state) : Prop :=
  (forall k', is_Some (record_of d k') -> is_Some (record_of (data s) k'))
  /\ ((exists e, (Some k, PrintApiError e) ∈ log s) ->
      marked (data s) k
      /\ exists m, disk s !! json_path a = Some m /\ marked m k).

(** A run logs events only for the entries its manifest does not mark. *)
Definition only_pending (m : manifest) (s : state) : Prop :=
  forall k ev, (Some k, ev) ∈ log s ->
    exists i, record_of m k = Some i /\ generated i <> Some true.

(** A run of the script: a fresh process over the files on disk. *)
Definition boot (files : gmap string manifest) : state :=
  {| data := ∅; disk := files; current := None; log := [] |}.

Definition run (E : env) (a : args) (files : gmap string manifest)
  : state * outcome unit :=
  generate_images_from_json E a (boot files).

(** ** Describing what a run leaves *)

(** The manifest [m] is the manifest [d] with the flag of some more
    entries set: nothing else differs. *)
Definition more_marked (d m : manifest) : Prop :=
  forall k, record_of m k = record_of d k
            \/ record_of m k = mark_generated <$> record_of d k.

(** Between two entries the manifest file holds the manifest in memory,
    which is the manifest [d] the run loaded with more entries marked, and
    the other files are as they were. *)
Definition in_sync (a : args) (files : gmap string manifest) (d : manifest)
  (s : state) : Prop :=
  disk s !! json_path a = Some (data s)
  /\ more_marked d (data s)
  /\ forall p, p <> json_path a -> disk s !! p = files !! p.

(** The entry [k] is settled: marked, or its error has been printed. *)
Definition settled (k : entry) (s : state) : Prop :=
  is_Some (record_of (data s) k) ->
  marked (data s) k \/ exists e, (Some k, PrintItemError k.2 k.1 e) ∈ log s.

(** The event logged when [images_base64[i]] has been saved. *)
Definition save_event (artist_directory base_name : string) (i : nat)
  (base64_image : string) : event :=
  SaveWebp (path_join artist_directory
              (base_name +:+ "_DPO" +:+ pretty (S i) +:+ ".webp"))
    base64_image.

End Sampler.

(* ===================================================================== *)
(** * DPO_dataset_generation_utils/DELECT.py *)
(* ===================================================================== *)

Module Delect.

Inductive event :=
| Unlink (file_path : string)
| PrintDeleted (file_path : string)
| PrintDeleteError (file_path : string) (e : exn).

(** [os.walk] yields [(dirpath, dirnames, filenames)]. *)
Definition walk_entry : Type := string * list string * list string.

(** The body of the inner loop: the file [filename] of [dirpath] is
    deleted when it is a [process.mark]; the outcome is printed.  The state
    is what has been done and printed; [unlink] is the answer of the file
    system to a deletion. *)
Definition visit_file (unlink : string -> outcome unit)
  (dirpath filename : string) : prog (list event) unit :=
  if String.eqb filename "process.mark" then
    let file_path := path_join dirpath filename in
    try_except
      (_ ← modify (fun l => l ++ [Unlink file_path]);
       _ ← lift (unlink file_path);
       modify (fun l => l ++ [PrintDeleted file_path]))
      (fun e => modify (fun l => l ++ [PrintDeleteError file_path e]))
  else mret tt.

(** [delete_process_mark_files(root_path)], over the listing [os.walk]
    yields for [root_path]. *)
Definition delete_process_mark_files (unlink : string -> outcome unit)
  (walk : list walk_entry) : prog (list event) unit :=
  for_each walk (fun '(dirpath, dirnames, filenames) =>
    for_each filenames (visit_file unlink dirpath)).

(** The file at [path] has been dealt with: its deletion was printed, or
    the error was. *)
Definition cleaned (unlink : string -> outcome unit) (path : string) (l : list event) : Prop :=
  match unlink path with
  | Ret _ => PrintDeleted path ∈ l
  | Raise e => PrintDeleteError path e ∈ l
  end.

End Delect.

(* ===================================================================== *)
(** * DPO_dataset_generation_utils/from safetensors.py *)
(* ===================================================================== *)

Module Merge.

Definition shard1_name : string :=
  "diffusion_pytorch_model-00001-of-00002.safetensors".
Definition shard2_name : string :=
  "diffusion_pytorch_model-00002-of-00002.safetensors".
Definition downloads : string := "G:/Crystal/Downloads/".
Definition shard1_path : string := downloads +:+ shard1_name.
Definition shard2_path : string := downloads +:+ shard2_name.

(** The index JSON: an object of objects, of which the script reads the
    one under ['weight_map'], from tensor name to shard file name. *)
Abbreviation config := (gmap string (gmap string string)).

(** [d[k]] on a [dict] *)
Definition getitem {V} (d : gmap string V) (k : string) : outcome V :=
  match d !! k with
  | Some v => Ret v
  | None => Raise (KeyError k)
  end.

Section Tensors.
Context {tensor : Type}.

(** The files the script reads and writes, and what it has printed. *)
Record files := {
  json_files : gmap string config;
  st_files : gmap string (gmap string tensor);
  stdout : list string
}.

(** [json.load(open(path))] *)
Definition load_json (path : string) : prog files config := fun fs =>
  (fs, match json_files fs !! path with
       | Some c => Ret c
       | None => Raise (OSError "No such file or directory")
       end).

(** [safetensors.torch.load_file(path)] *)
Definition load_file (path : string) : prog files (gmap string tensor) :=
  fun fs =>
  (fs, match st_files fs !! path with
       | Some w => Ret w
       | None => Raise (OSError "No such file or directory")
       end).

(** [safetensors.torch.save_file(weights, path)] *)
Definition save_file (weights : gmap string tensor) (path : string)
  : prog files unit :=
  modify (fun fs =>
    {| json_files := json_files fs;
       st_files := <[path := weights]> (st_files fs);
       stdout := stdout fs |}).

Definition print (line : string) : prog files unit :=
  modify (fun fs =>
    {| json_files := json_files fs; st_files := st_files fs;
       stdout := stdout fs ++ [line] |}).

(** The loop [for key, file_name in weight_map.items()]. *)
Fixpoint merge_items (items : list (string * string))
  (file1_weights file2_weights merged_weights : gmap string tensor)
  : outcome (gmap string tensor) :=
  match items with
  | [] => Ret merged_weights
  | (key, file_name) :: rest =>
      t ← (if String.eqb file_name shard1_name
           then getitem file1_weights key
           else getitem file2_weights key);
      merge_items rest file1_weights file2_weights (<[key := t]> merged_weights)
  end.

(** The shard the loop reads for an index entry that names [file_name]. *)
Definition consulted (file1_weights file2_weights : gmap string tensor)
  (file_name : string) : gmap string tensor :=
  if String.eqb file_name shard1_name then file1_weights else file2_weights.

(** [merge_safetensors(config_path, output_path)] *)
Definition merge_safetensors (config_path output_path : string)
  : prog files unit :=
  config ← load_json config_path;
  weight_map ← lift (getitem config "weight_map");
  file1_weights ← load_file shard1_path;
  file2_weights ← load_file shard2_path;
  merged_weights ←
    lift (merge_items (map_to_list weight_map) file1_weights file2_weights ∅);
  _ ← save_file merged_weights output_path;
  print ("Merged model saved to " +:+ output_path).

(** The tensor called [key] in the shard file the index calls [file_name]:
    the shards lie next to the index, in the download directory. *)
Definition named_shard_tensor (fs : files) (file_name key : string)
  : option tensor :=
  st_files fs !! (downloads +:+ file_name) ≫= (.!! key).

End Tensors.
Arguments files : clear implicits.

End Merge.

(* ===================================================================== *)
(** * Trainer/utils.py *)
(* ===================================================================== *)

Module Trainer.

(** ** Loading the text encoder class *)

Record pretrained_config := { architectures : option (list string) }.

Inductive text_encoder_class :=
| CLIPTextModel
| CLIPTextModelWithProjection.

(** [import_model_class_from_model_name_or_path]; [from_pretrained] is
    [PretrainedConfig.from_pretrained]. *)
Definition import_model_class_from_model_name_or_path
  (from_pretrained : string -> string -> string -> outcome pretrained_config)
  (pretrained_model_name_or_path revision subfolder : string)
  : outcome text_encoder_class :=
  text_encoder_config ←
    from_pretrained pretrained_model_name_or_path subfolder revision;
  archs ← match architectures text_encoder_config with
          | Some l => Ret l
          | None => Raise TypeError
          end;
  model_class ← match archs with
                | c :: _ => Ret c
                | [] => Raise IndexError
                end;
  if String.eqb model_class "CLIPTextModel" then Ret CLIPTextModel
  else if String.eqb model_class "CLIPTextModelWithProjection"
  then Ret CLIPTextModelWithProjection
  else Raise (ValueError (model_class +:+ " is not supported.")).

(** ** Adaptive sizes *)

(** [calculate_adaptive_size(height, width, target_area, divisible)] *)
Definition calculate_adaptive_size (height width target_area divisible : Z)
  : outcome (Z * Z) :=
  let img_area := height * width in
  '(height, width) ←
    (if img_area >? target_area then
       scale_factor ← int_truediv target_area img_area ≫= sqrt;
       ws ← int_mul_float width scale_factor;
       w ← float_div_int ws divisible ≫= floor;
       hs ← int_mul_float height scale_factor;
       h ← float_div_int hs divisible ≫= floor;
       mret (h * divisible, w * divisible)
     else mret (height, width));
  if divisible =? 0 then Raise ZeroDivisionError
  else mret (height - height mod divisible, width - width mod divisible).

(** ** Tensors *)

(** The element type of torch tensors with the operations [compute_loss]
    and [Normalize] apply to it.  [of_float] and [of_int] turn a Python
    scalar into an element, as torch does for a scalar operand. *)
Class Scalar (F : Type) := {
  fzero : F;
  of_float : spec_float -> F;
  of_int : Z -> F;
  fsub : F -> F -> F;
  fmul : F -> F -> F;
  fdiv : F -> F -> F;
  fexp : F -> F;
  flogsigmoid : F -> F;
  fmean : list F -> F
}.

(** The flags of the command line the module reads. *)
Record args := {
  resolution : Z;
  divisible : Z;
  label_noise_prob : option spec_float;
  random_crop : bool;
  no_hflip : bool;
  snr_value : spec_float;
  beta_mapo : spec_float
}.

Record scheduler_config := { num_train_timesteps : Z }.

(** What the random number generators answer while one pair is processed:
    [random.random()] for the label noise, the two [torch.randint] of
    [RandomCrop.get_params], [random.random()] for the flip. *)
Record draws := {
  noise_draw : spec_float;
  crop_i : Z;
  crop_j : Z;
  flip_draw : spec_float
}.

Definition half : spec_float := S754_finite false 4503599627370496 (-53).

(** A [C x H x W] tensor: a list of planes, each a list of rows. *)
Abbreviation plane F := (list (list F)).
Abbreviation tensor F := (list (list (list F))).

Section Tensors.
Context {F : Type} `{!Scalar F}.

(** A decoded RGB image: its size and the tensor [ToTensor()] gives. *)
Record image := {
  height : Z;
  width : Z;
  to_tensor : tensor F
}.

(** The bilinear interpolation of a tensor to [h x w], for positive [h]
    and [w], and the resampling of an image to another [(width, height)]. *)
Variable Resize : Z -> Z -> tensor F -> tensor F.
Variable resample : image -> Z * Z -> image.

(** [transforms.Resize((h, w), BILINEAR)(t)]: the interpolation refuses a
    size with a side that is not positive. *)
Definition resize (h w : Z) (t : tensor F) : outcome (tensor F) :=
  if (h <=? 0) || (w <=? 0)
  then Raise (RuntimeError
                "Input and output sizes should be greater than 0")
  else Ret (Resize h w t).

(** [image.resize(size)] of PIL with a [(width, height)] size: an image
    that already has the size is returned as a copy. *)
Definition image_resize (im : image) (size : Z * Z) : image :=
  if decide (size = (width im, height im)) then im else resample im size.

(** [(H, W)] of a [C x H x W] tensor. *)
Definition shape_hw (t : tensor F) : Z * Z :=
  match t with
  | [] => (0, 0)
  | p :: _ => (Z.of_nat (length p),
               match p with [] => 0 | r :: _ => Z.of_nat (length r) end)
  end.

(** [process_image(image, target_h, target_w)] *)
Definition process_image (image : image) (target_h target_w : Z)
  : outcome (tensor F) :=
  let img_tensor := to_tensor image in
  if (height image >? target_h) || (width image >? target_w)
  then resize target_h target_w img_tensor
  else Ret img_tensor.

(** [torch.cat((a, b), dim=0)] *)
Definition cat (a b : tensor F) : outcome (tensor F) :=
  if bool_decide (shape_hw a = shape_hw b) then Ret (a ++ b)
  else Raise (RuntimeError "Sizes must match except in dimension 0").

(** [torchvision.transforms.functional.crop] on one plane, for an offset
    and a size that are not negative: the window, filled with zeros where it
    leaves the plane. *)
Definition crop_plane (top left height width : Z) (p : plane F) : plane F :=
  let h := Z.to_nat height in
  let w := Z.to_nat width in
  (fun row : list F =>
     take w (drop (Z.to_nat left) row ++ replicate w fzero))
    <$> take h (drop (Z.to_nat top) p ++ replicate h []).

Definition crop (t : tensor F) (top left height width : Z) : tensor F :=
  crop_plane top left height width <$> t.

(** [RandomHorizontalFlip(p=1.0)] *)
Definition train_flip (t : tensor F) : tensor F :=
  (fun p : plane F => reverse <$> p) <$> t.

(** [Normalize([0.5], [0.5])] *)
Definition normalize (t : tensor F) : tensor F :=
  (fun p : plane F => (fun row : list F =>
     (fun x => fdiv (fsub x (of_float half)) (of_float half)) <$> row) <$> p)
  <$> t.

(** [RandomCrop.get_params(img, (th, tw))] *)
Definition get_params (r : draws) (img : tensor F) (th tw : Z)
  : outcome (Z * Z * Z * Z) :=
  let '(h, w) := shape_hw img in
  if (h <? th) || (w <? tw)
  then Raise (ValueError "Required crop size is larger than input image size")
  else if (w =? tw) && (h =? th) then Ret (0, 0, h, w)
  else Ret (crop_i r, crop_j r, th, tw).

(** The label after the optional noise flip. *)
Definition noisy_label (a : args) (r : draws) (label_0 : Z) : Z :=
  match label_noise_prob a with
  | Some p => if flt (noise_draw r) p then 1 - label_0 else label_0
  | None => label_0
  end.

(** The pair in the order the loss reads it: [im_tup[::-1]] when the
    label is 0. *)
Definition order_pair (a : args) (r : draws) (im_tup : tensor F * tensor F)
  (label_0 : Z) : tensor F * tensor F :=
  if noisy_label a r label_0 =? 0 then (im_tup.2, im_tup.1) else im_tup.

(** One iteration of the loop over the pairs in [preprocess_train]: the
    pixel values of the pair and its crop offset. *)
Definition augment_pair (a : args) (r : draws) (im_tup : tensor F * tensor F)
  (label_0 : Z) (target : Z * Z) : outcome (tensor F * (Z * Z)) :=
  let '(target_h, target_w) := target in
  let im_tup := order_pair a r im_tup label_0 in
  combined_im ← cat im_tup.1 im_tup.2;
  '(y1, x1) ←
    (if negb (random_crop a) then
       let '(H, W) := shape_hw combined_im in
       Ret (Z.max 0 (round_half (H - target_h)),
            Z.max 0 (round_half (W - target_w)))
     else
       '(y1, x1, _, _) ← get_params r combined_im target_h target_w;
       Ret (y1, x1));
  let combined_im := crop combined_im y1 x1 target_h target_w in
  let combined_im :=
    if negb (no_hflip a) && flt (flip_draw r) half
    then train_flip combined_im else combined_im in
  Ret (normalize combined_im, (y1, x1)).

(** [preprocess_train] for one example: both images are brought to the
    adaptive size of [jpg_0], then augmented as a pair. *)
Definition preprocess_example (a : args) (r : draws) (jpg_0 jpg_1 : image)
  (label_0 : Z) : outcome (tensor F * (Z * Z)) :=
  let target_area := resolution a * resolution a in
  let original_size := (height jpg_0, width jpg_0) in
  '(target_h, target_w) ←
    calculate_adaptive_size (height jpg_0) (width jpg_0) target_area
      (divisible a);
  let jpg_1 := image_resize jpg_1 (original_size.2, original_size.1) in
  pixel_values_0 ← process_image jpg_0 target_h target_w;
  pixel_values_1 ← process_image jpg_1 target_h target_w;
  augment_pair a r (pixel_values_0, pixel_values_1) label_0
    (target_h, target_w).

(** The augmentation of one image, in the words of the specification: the
    crop at offset [(y1, x1)] to [target_h x target_w], the horizontal flip
    when [flip] is set, the normalisation. *)
Definition augment_one (y1 x1 target_h target_w : Z) (flip : bool)
  (t : tensor F) : tensor F :=
  let cropped := crop t y1 x1 target_h target_w in
  normalize (if flip then train_flip cropped else cropped).

(** ** The preference loss *)

(** [F.mse_loss(input, target, reduction="none")] on [batch x features]
    tensors of one shape. *)
Definition mse_loss_none (input target : list (list F))
  : outcome (list (list F)) :=
  if bool_decide (length <$> input = length <$> target)
  then Ret (zip_with (zip_with (fun x y => let d := fsub x y in fmul d d))
              input target)
  else Raise (RuntimeError "The size of a must match the size of b").

(** [t.chunk(2)] along the batch dimension. *)
Definition chunk2 {A} (t : list A) : list (list A) :=
  let n := length t in
  let c := ((n + 1) / 2)%nat in
  if (n =? 0)%nat then [[]; []]
  else if (c <? n)%nat then [take c t; drop c t]
  else [t].

(** An elementwise operation on two 1-D tensors, with broadcasting. *)
Definition broadcast2 (f : F -> F -> F) (x y : list F) : outcome (list F) :=
  if (length x =? length y)%nat then Ret (zip_with f x y)
  else match x, y with
       | _, [b] => Ret ((fun a => f a b) <$> x)
       | [a], _ => Ret (f a <$> y)
       | _, _ =>
           Raise (RuntimeError "The size of a must match the size of b")
       end.

(** [(snr * x) / (torch.exp(snr * x) - 1)] *)
Definition snr_term (a : args) (x : F) : F :=
  let sx := fmul (of_float (snr_value a)) x in
  fdiv sx (fsub (fexp sx) (of_int 1)).

(** [compute_loss(args, noise_scheduler, model_pred, target)] *)
Definition compute_loss (a : args) (noise_scheduler : scheduler_config)
  (model_pred target : list (list F))
  : outcome (F * list F * list F * list F) :=
  model_losses ← mse_loss_none model_pred target;
  let model_losses := fmean <$> model_losses in
  '(model_losses_w, model_losses_l) ←
    match chunk2 model_losses with
    | [w; l] => Ret (w, l)
    | _ => Raise (ValueError "not enough values to unpack")
    end;
  log_odds ← broadcast2 fsub (snr_term a <$> model_losses_w)
                             (snr_term a <$> model_losses_l);
  let ratio :=
    (fun x => flogsigmoid
                (fmul x (of_int (num_train_timesteps noise_scheduler))))
    <$> log_odds in
  let ratio_losses := fmul (of_float (beta_mapo a)) <$> ratio in
  let loss := fsub (fmean model_losses_w) (fmean ratio_losses) in
  Ret (loss, model_losses_w, model_losses_l, ratio_losses).

(** The scalar loss of one preprocessed pair.  The training step, which is
    not part of this module, turns the pixel values of the pair into
    [model_pred] and [target]. *)
Definition pair_loss (a : args) (noise_scheduler : scheduler_config)
  (training_step : tensor F -> list (list F) * list (list F))
  (pixel_values : outcome (tensor F * (Z * Z))) : outcome F :=
  '(pv, _) ← pixel_values;
  '(loss, _, _, _) ← compute_loss a noise_scheduler
                       (training_step pv).1 (training_step pv).2;
  Ret loss.

(** ** The loss as the specification words it

    The per-example regression loss is the mean squared error of one
    example; the batch is split into its winning (first) and losing
    (second) half; the margin of a pair is the difference of the
    snr-transformed winning and losing losses; the ratio loss of a pair is
    [beta_mapo] times the log-sigmoid of the margin scaled by the number of
    training timesteps; the objective is the mean winning loss minus the
    mean ratio loss. *)
Definition spec_example_mse (pred target : list F) : F :=
  fmean (zip_with (fun x y => fmul (fsub x y) (fsub x y)) pred target).

Definition spec_margin (a : args) (loss_w loss_l : F) : F :=
  fsub (snr_term a loss_w) (snr_term a loss_l).

Definition spec_ratio_loss (a : args) (sched : scheduler_config)
  (loss_w loss_l : F) : F :=
  fmul (of_float (beta_mapo a))
    (flogsigmoid (fmul (spec_margin a loss_w loss_l)
                       (of_int (num_train_timesteps sched)))).

Definition spec_loss (a : args) (sched : scheduler_config)
  (model_pred target : list (list F)) : F * list F * list F * list F :=
  let k := (length model_pred / 2)%nat in
  let winning :=
    zip_with spec_example_mse (take k model_pred) (take k target) in
  let losing :=
    zip_with spec_example_mse (drop k model_pred) (drop k target) in
  let ratio := zip_with (spec_ratio_loss a sched) winning losing in
  (fsub (fmean winning) (fmean ratio), winning, losing, ratio).

(** Every plane of [t] has [h] rows of [w] elements. *)
Definition has_size (h w : Z) (t : tensor F) : Prop :=
  Forall (fun p : plane F =>
            Z.of_nat (length p) = h
            /\ Forall (fun row : list F => Z.of_nat (length row) = w) p) t.

End Tensors.

(** ** Long token sequences *)

(** The attributes of a tokenizer the module reads. *)
Record tokenizer := {
  model_max_length : Z;
  eos_token_id : Z;
  pad_token_id : Z
}.

(** [t.squeeze(0)] on a 1-D tensor: a tensor of one element becomes a 0-dim
    tensor, which cannot be indexed; the others are unchanged. *)
Inductive squeezed :=
| ZeroDim (x : Z)
| OneDim (l : list Z).

Definition squeeze0 (t : list Z) : squeezed :=
  match t with
  | [x] => ZeroDim x
  | _ => OneDim t
  end.

(** [torch.stack] of 1-D tensors *)
Definition stack (ts : list (list Z)) : outcome (list (list Z)) :=
  match ts with
  | [] => Raise (RuntimeError "stack expects a non-empty TensorList")
  | t :: rest =>
      if forallb (fun u => (length u =? length t)%nat) rest then Ret ts
      else Raise (RuntimeError "stack expects each tensor to be equal size")
  end.

(** The body of the loop of [process_input_ids]: the chunk that starts at
    position [i]. *)
Definition ids_chunk (tok : tokenizer) (input_ids : squeezed) (i : Z)
  : outcome (list Z) :=
  match input_ids with
  | ZeroDim _ => Raise IndexError
  | OneDim input_ids =>
      bos ← item input_ids 0;
      let body := slice input_ids i (i + model_max_length tok - 2) in
      last ← item input_ids (-1);
      let ids_chunk := [bos] ++ body ++ [last] in
      before_last ← item ids_chunk (-2);
      ids_chunk ←
        (if negb ((before_last =? eos_token_id tok)
                  || (before_last =? pad_token_id tok))
         then setitem ids_chunk (-1) (eos_token_id tok)
         else Ret ids_chunk);
      second ← item ids_chunk 1;
      if second =? pad_token_id tok
      then setitem ids_chunk 1 (eos_token_id tok)
      else Ret ids_chunk
  end.

(** What [process_input_ids] returns: the row it was given, or the stacked
    chunks. *)
Inductive token_ids :=
| Row (ids : list Z)
| Chunks (ids : list (list Z)).

(** [process_input_ids(input_ids, tokenizer, max_length)], for the 1-D row
    of token ids [tokenize_captions] passes. *)
Definition process_input_ids (input_ids : list Z) (tok : tokenizer)
  (max_length : Z) : outcome token_ids :=
  if max_length >? model_max_length tok then
    let input_ids := squeeze0 input_ids in
    starts ← range 1 (max_length - model_max_length tok + 2)
                (model_max_length tok - 2);
    iids_list ← collect starts (ids_chunk tok input_ids);
    stacked ← stack iids_list;
    Ret (Chunks stacked)
  else Ret (Row input_ids).

(** A token that ends a sequence. *)
Definition eos_or_pad (tok : tokenizer) (x : Z) : bool :=
  (x =? eos_token_id tok) || (x =? pad_token_id tok).

(** The chunk made of a first token, a slice and a last token, in closed
    form. *)
Definition chunk_of (tok : tokenizer) (bos : Z) (body : list Z) (lst : Z)
  : list Z :=
  match body with
  | [] => [bos; lst]
  | x :: rest =>
      bos :: (if x =? pad_token_id tok then eos_token_id tok else x) :: rest
      ++ [if eos_or_pad tok (default x (last rest)) then lst
          else eos_token_id tok]
  end.

(** The number of chunks for rows of [max_length] tokens. *)
Definition chunk_count (tok : tokenizer) (max_length : Z) : Z :=
  (max_length - 2) / (model_max_length tok - 2).

(** ** Captions *)

(** What the two calls of [random.shuffle] do to the lists they are
    given. *)
Record shuffles := {
  shuffle_first : list string -> list string;
  shuffle_second : list string -> list string
}.

(** The body of the first loop of [tokenize_captions]: the caption that is
    tokenized for [caption]. *)
Definition shuffle_caption (sh : shuffles) (caption : string) : string :=
  let parts := split_bars caption in
  match parts with
  | [part0; part1] =>
      let first_words := split_char ","%char (strip part0) in
      let second_words := split_char ","%char (strip part1) in
      let first_words := shuffle_first sh first_words in
      let second_words := shuffle_second sh second_words in
      String.concat "," (first_words ++ second_words)
  | _ => caption
  end.

(** ** Hidden states of long sequences *)

(** The elements of [l] whose index is a multiple of [n]. *)
Definition every {A} (n : nat) (l : list A) : list A :=
  mjoin (imap (fun i x => if (i mod n =? 0)%nat then [x] else []) l).

(** [t[::step]] on a tensor *)
Definition stride {A} (t : list A) (step : Z) : outcome (list A) :=
  if step =? 0 then Raise (ValueError "slice step cannot be zero")
  else if step <? 0 then Raise (ValueError "step must be greater than zero")
  else Ret (every (Z.to_nat step) t).

(** The block "Process long sequences" of [encode_prompt], on the hidden
    states of one example: dimension 0 of the batch is carried along by
    every [hidden_states[:, ...]]. *)
Definition long_sequence_states {A} (hidden_states : list A)
  (max_length max_position_embeddings : Z) : outcome (list A) :=
  first ← item hidden_states 0;
  starts ← range 1 max_length max_position_embeddings;
  let chunks :=
    (fun j => slice hidden_states j (j + max_position_embeddings - 2))
      <$> starts in
  lst ← item hidden_states (-1);
  Ret ([first] ++ mjoin chunks ++ [lst]).

(** [pooled_prompt_embeds[::n_chunks]] with [n_chunks = max_length // 75] *)
Definition pooled_per_example {A} (pooled_prompt_embeds : list A)
  (max_length : Z) : outcome (list A) :=
  let n_chunks := max_length / 75 in
  stride pooled_prompt_embeds n_chunks.

End Trainer.

(* ===================================================================== *)
(** * Concrete inputs *)
(* ===================================================================== *)

Module Examples.
Import Trainer.

(** The command line of the generation driver, with its defaults. *)
Definition sampler_args : Sampler.args :=
  {| Sampler.model_name := "model.safetensors";
     Sampler.json_path := "dataset.json";
     Sampler.output_dir := "temp";
     Sampler.batch_size := 3;
     Sampler.host := "localhost";
     Sampler.port := 7860;
     Sampler.max := 1536 |}.

(** A manifest of one artist with an entry to generate and one that is
    marked. *)
Definition todo_info : Sampler.image_info :=
  {| Sampler.tag := "1girl ||| solo"; Sampler.width := 1024;
     Sampler.height := 768; Sampler.generated := None |}.

Definition done_info : Sampler.image_info :=
  {| Sampler.tag := "1boy"; Sampler.width := 512; Sampler.height := 512;
     Sampler.generated := Some true |}.

Definition artist_images : gmap string Sampler.image_info :=
  {[ "010.png" := todo_info; "011.png" := done_info ]}.

Definition manifest1 : Sampler.manifest := {[ "artist" := artist_images ]}.

Definition files1 : gmap string Sampler.manifest :=
  {[ "dataset.json" := manifest1 ]}.

(** The endpoint is down: every request raises. *)
Definition env_down : Sampler.env :=
  {| Sampler.mkdir := fun _ => Ret tt;
     Sampler.randint := fun _ => 42;
     Sampler.post := fun _ _ _ => Raise (OSError "Connection refused");
     Sampler.store := fun _ _ _ _ => Ret tt |}.

(** The endpoint answers with one image that does not decode. *)
Definition env_bad_image : Sampler.env :=
  {| Sampler.mkdir := fun _ => Ret tt;
     Sampler.randint := fun _ => 42;
     Sampler.post := fun _ _ _ => Ret ["bm90IGFuIGltYWdl"];
     Sampler.store := fun _ _ _ _ =>
       Raise (ValueError "cannot identify image file") |}.

Definition api_url : string := "http://localhost:7860/sdapi/v1/txt2img".

(** A one-channel image of 100 x 100 pixels. *)
Definition img100 : image :=
  {| height := 100; width := 100;
     to_tensor := [replicate 100 (replicate 100 0)] |}.

(** A one-channel image of 5 x 5 pixels. *)
Definition img5 : image :=
  {| height := 5; width := 5;
     to_tensor := [replicate 5 (replicate 5 0)] |}.

(** A one-channel image of 96 x 64 pixels. *)
Definition img96 : image :=
  {| height := 96; width := 64;
     to_tensor := [replicate 96 (replicate 64 0)] |}.

(** [--resolution 1024 --divisible 8], centre crop, no flip, no noise. *)
Definition args1024 : args :=
  {| resolution := 1024; divisible := 8; label_noise_prob := None;
     random_crop := false; no_hflip := true;
     snr_value := S754_finite false 5 0;
     beta_mapo := S754_finite false 1 (-1) |}.

(** A [Resize] that keeps the number of planes and gives each the size
    asked for. *)
Definition blank_resize (h w : Z) (t : tensor Z) : tensor Z :=
  (fun _ : plane Z => replicate (Z.to_nat h) (replicate (Z.to_nat w) 0)) <$> t.

(** Three shard files and an index that names the third for the tensor
    ["w"], the second for ["b"]. *)
Definition shard3_name : string :=
  "diffusion_pytorch_model-00003-of-00003.safetensors".

Definition three_shards : Merge.files Z :=
  {| Merge.json_files :=
       {[ "index.json" :=
            {[ "weight_map" :=
                 {[ "w" := shard3_name; "b" := Merge.shard2_name ]} ]} ]};
     Merge.st_files :=
       {[ Merge.shard1_path := ∅;
          Merge.shard2_path := {[ "w" := 2; "b" := 5 ]};
          Merge.downloads +:+ shard3_name := {[ "w" := 3 ]} ]};
     Merge.stdout := [] |}.

(** The same, with the tensor ["w"] missing from the third shard. *)
Definition third_shard_empty : Merge.files Z :=
  {| Merge.json_files := Merge.json_files three_shards;
     Merge.st_files :=
       <[ Merge.downloads +:+ shard3_name := ∅ ]> (Merge.st_files three_shards);
     Merge.stdout := [] |}.

(** Two shards and an index over them. *)
Definition two_shards : Merge.files Z :=
  {| Merge.json_files :=
       {[ "index.json" :=
            {[ "weight_map" :=
                 {[ "w" := Merge.shard1_name; "b" := Merge.shard2_name ]} ]} ]};
     Merge.st_files :=
       {[ Merge.shard1_path := {[ "w" := 1 ]};
          Merge.shard2_path := {[ "w" := 2; "b" := 5 ]} ]};
     Merge.stdout := [] |}.

(** The same with the tensor ["b"] missing from the second shard. *)
Definition second_shard_short : Merge.files Z :=
  {| Merge.json_files := Merge.json_files two_shards;
     Merge.st_files :=
       {[ Merge.shard1_path := {[ "w" := 1 ]};
          Merge.shard2_path := {[ "w" := 2 ]} ]};
     Merge.stdout := [] |}.

(** Real numbers as tensor elements: exact arithmetic, the mean of a
    list, and [log (1 / (1 + exp (- x)))] for the log-sigmoid. *)
Definition real_of_float (x : spec_float) : R :=
  match x with
  | S754_finite s m e => (IZR (cond_Zopp s (Z.pos m)) * powerRZ 2 e)%R
  | _ => 0%R
  end.

Definition real_scalar : Scalar R :=
  {| fzero := 0%R;
     of_float := real_of_float;
     of_int := IZR;
     fsub := Rminus;
     fmul := Rmult;
     fdiv := Rdiv;
     fexp := exp;
     flogsigmoid := fun x => (- ln (1 + exp (- x)))%R;
     fmean := fun l => (fold_right Rplus 0 l / INR (length l))%R |}.

(** A batch of two examples of two features, and its targets. *)
Definition pred2 : list (list R) := [[1; 2]; [3; 5]]%R.
Definition target2 : list (list R) := [[0; 2]; [1; 1]]%R.

(** Two one-channel tensors of 2 x 2 pixels. *)
Definition tile_a : tensor R := [[[1; 2]; [3; 4]]]%R.
Definition tile_b : tensor R := [[[5; 6]; [7; 8]]]%R.

(** No random draw matters under [args1024]. *)
Definition draws0 : draws :=
  {| noise_draw := S754_zero false; crop_i := 0; crop_j := 0;
     flip_draw := S754_zero false |}.

(** A training step on a pair of one-channel images: the two images,
    flattened, are the predictions of a batch of two; the targets are 0. *)
Definition flat_step (pv : tensor R) : list (list R) * list (list R) :=
  ((fun p : plane R => mjoin p) <$> pv,
   (fun p : plane R => (fun _ => 0%R) <$> mjoin p) <$> pv).

Definition scheduler1000 : scheduler_config :=
  {| num_train_timesteps := 1000 |}.

(** Two one-channel images of 8 x 8 and of 16 x 16 pixels, an
    interpolation and a resampling that give the size asked for, and a
    training step whose prediction for each image of the pair is its number
    of pixel rows, against a target of 0. *)
Definition grey8 : image :=
  {| height := 8; width := 8;
     to_tensor := [replicate 8 (replicate 8 0%R)] |}.

Definition grey16 : image :=
  {| height := 16; width := 16;
     to_tensor := [replicate 16 (replicate 16 0%R)] |}.

(** A second image of 8 x 8 pixels, all of value 1. *)
Definition white8 : image :=
  {| height := 8; width := 8;
     to_tensor := [replicate 8 (replicate 8 1%R)] |}.

Definition grey_resize (h w : Z) (t : tensor R) : tensor R :=
  (fun _ : plane R => replicate (Z.to_nat h) (replicate (Z.to_nat w) 0%R))
  <$> t.

Definition grey_resample (im : image) (size : Z * Z) : image :=
  {| height := size.2; width := size.1;
     to_tensor := grey_resize size.2 size.1 (to_tensor im) |}.

Definition rows_step (pv : tensor R) : list (list R) * list (list R) :=
  ((fun p : plane R => [INR (length p)]) <$> pv,
   (fun _ : plane R => [0%R]) <$> pv).

(** The endpoint answers with two images, which decode and save. *)
Definition env_ok : Sampler.env :=
  {| Sampler.mkdir := fun _ => Ret tt;
     Sampler.randint := fun _ => 42;
     Sampler.post := fun _ _ _ => Ret ["aW1hZ2UgMQ=="; "aW1hZ2UgMg=="];
     Sampler.store := fun _ _ _ _ => Ret tt |}.

(** A listing of two directories. *)
Definition walk2 : list Delect.walk_entry :=
  [("a", ["b"], ["process.mark"; "x.png"]); ("a/b", [], ["y.png"])].

(** A batch of three examples of two features, and one of a single
    example. *)
Definition pred3 : list (list R) := [[1; 2]; [3; 5]; [0; 1]]%R.
Definition target3 : list (list R) := [[0; 2]; [1; 1]; [0; 0]]%R.
Definition pred1 : list (list R) := [[1; 2]]%R.
Definition target1 : list (list R) := [[0; 2]]%R.

(** A tokenizer with sequences of five tokens, and two rows of 13 tokens
    that differ at positions 10 and 11 only. *)
Definition small_tokenizer : tokenizer :=
  {| model_max_length := 5; eos_token_id := 9; pad_token_id := 0 |}.
Definition row13 : list Z := [1; 11; 12; 13; 14; 15; 16; 9; 0; 0; 0; 0; 0].
Definition row13' : list Z := [1; 11; 12; 13; 14; 15; 16; 9; 0; 0; 7; 7; 0].

(** Shuffling by reversal. *)
Definition reversing : shuffles :=
  {| shuffle_first := reverse; shuffle_second := reverse |}.

(** The hidden states of three chunks of five positions, and the pooled
    outputs of two examples of three chunks. *)
Definition states15 : list (list Z) :=
  [[0; 1; 2; 3; 4]; [5; 6; 7; 8; 9]; [10; 11; 12; 13; 14]].
Definition pooled6 : list (list Z) := [[1; 2; 3]; [4; 5; 6]].

End Examples.

(* ===================================================================== *)
(** * Statements *)
(* ===================================================================== *)

(** ** Stepping through [outcome] and [prog] *)

Lemma outcome_bind_ret {A B} (f : A -> outcome B) (a : A) :
  Ret a ≫= f = f a.
Proof. reflexivity. Qed.

Lemma outcome_bind_inv {A B} (f : A -> outcome B) (m : outcome A) (b : B) :
  m ≫= f = Ret b -> exists a, m = Ret a /\ f a = Ret b.
Proof. destruct m as [a|e]; [eauto | discriminate]. Qed.

Ltac inv_bind H :=
  let a := fresh "v" in
  let Ha := fresh "Hv" in
  apply outcome_bind_inv in H as (a & Ha & H).

(** ** The definitions at work *)

Example resolution_landscape :
  Sampler.calculate_adjusted_resolution 4000 3000 (1536 * 1536) 2048
  = Ret (1768, 1328).
Proof. vm_compute. reflexivity. Qed.

Example resolution_small_image :
  Sampler.calculate_adjusted_resolution 832 1216 (1536 * 1536) 2048
  = Ret (832, 1216).
Proof. vm_compute. reflexivity. Qed.

Example resolution_negative_area :
  Sampler.calculate_adjusted_resolution 1 1 (-1) 2048
  = Raise (ValueError "math domain error").
Proof. vm_compute. reflexivity. Qed.

Example adaptive_size_over_budget :
  Trainer.calculate_adaptive_size 2000 3000 (1024 * 1024) 8
  = Ret (832, 1248).
Proof. vm_compute. reflexivity. Qed.

Example adaptive_size_zero_divisible :
  Trainer.calculate_adaptive_size 2000 3000 (1024 * 1024) 0
  = Raise ZeroDivisionError.
Proof. vm_compute. reflexivity. Qed.

Example chunk2_odd : Trainer.chunk2 [1; 2; 3; 4; 5] = [[1; 2; 3]; [4; 5]].
Proof. reflexivity. Qed.

Example stem_of_image_name : stem "artist/010.tar.png" = "010.tar".
Proof. reflexivity. Qed.

Example prompt_of_tag :
  strip (remove_bars "  1girl ||| solo, smile  ") = "1girl  solo, smile".
Proof. reflexivity. Qed.

Example round_half_to_even :
  round_half <$> [1; 3; 5; -1; -3; 4] = [0; 2; 2; 0; -2; 2].
Proof. reflexivity. Qed.

Example endpoint_down_marks_entry :
  Sampler.generated
    <$> Sampler.record_of
          (Sampler.data
             (Sampler.run Examples.env_down Examples.sampler_args
                Examples.files1).1)
          ("artist", "010.png")
  = Some (Some true).
Proof. vm_compute. reflexivity. Qed.

Example bad_image_leaves_entry :
  Sampler.generated
    <$> Sampler.record_of
          (Sampler.data
             (Sampler.run Examples.env_bad_image Examples.sampler_args
                Examples.files1).1)
          ("artist", "010.png")
  = Some None
  /\ last (Sampler.log
             (Sampler.run Examples.env_bad_image Examples.sampler_args
                Examples.files1).1)
     = Some (Some ("artist", "010.png"),
             Sampler.PrintItemError "010.png" "artist"
               (ValueError "cannot identify image file")).
Proof. split; vm_compute; reflexivity. Qed.

Example cleanup_goes_on :
  (Delect.delete_process_mark_files
     (fun path => if String.eqb path "a/process.mark"
                  then Raise (OSError "Permission denied") else Ret tt)
     [("a", [], ["process.mark"; "x.png"]); ("b", [], ["process.mark"])]
     []).1
  = [Delect.Unlink "a/process.mark";
     Delect.PrintDeleteError "a/process.mark" (OSError "Permission denied");
     Delect.Unlink "b/process.mark";
     Delect.PrintDeleted "b/process.mark"].
Proof. reflexivity. Qed.

(** ** binary64 rounding

    The operations of [SpecFloat] round to nearest; what the bounds on
    [calculate_adjusted_resolution] need is one-sided: in the normal range
    the rounded value of a positive number is at most [1 + 2^-52] times
    the number.  The value of a positive finite float of mantissa [m] and
    exponent [e] is written [IZR (Z.pos m) * powerRZ 2 e]. *)

Section Binary64.

(** [digits2_pos p] is the number of bits of [p]. *)
Lemma digits2_pos_bounds (p : positive) :
  2 ^ (Z.pos (digits2_pos p) - 1) <= Z.pos p < 2 ^ Z.pos (digits2_pos p).
Proof.
  induction p as [p IH|p IH|]; simpl digits2_pos.
  - rewrite Pos2Z.inj_succ. change (Z.pos p~1) with (2 * Z.pos p + 1).
    replace (Z.succ (Z.pos (digits2_pos p)) - 1)
      with (Z.succ (Z.pos (digits2_pos p) - 1)) by lia.
    rewrite !Z.pow_succ_r by lia.
    revert IH. generalize (2 ^ (Z.pos (digits2_pos p) - 1)).
    generalize (2 ^ Z.pos (digits2_pos p)). lia.
  - rewrite Pos2Z.inj_succ. change (Z.pos p~0) with (2 * Z.pos p).
    replace (Z.succ (Z.pos (digits2_pos p)) - 1)
      with (Z.succ (Z.pos (digits2_pos p) - 1)) by lia.
    rewrite !Z.pow_succ_r by lia.
    revert IH. generalize (2 ^ (Z.pos (digits2_pos p) - 1)).
    generalize (2 ^ Z.pos (digits2_pos p)). lia.
  - simpl. lia.
Qed.

Lemma Zdigits2_bounds (m : Z) :
  0 < m -> 0 < Zdigits2 m /\ 2 ^ (Zdigits2 m - 1) <= m < 2 ^ Zdigits2 m.
Proof.
  destruct m as [|p|p]; try lia. intros _. simpl.
  split; [lia | apply digits2_pos_bounds].
Qed.

(** The number of bits is determined by the two powers of 2 around. *)
Lemma Zdigits2_unique (m k : Z) :
  2 ^ (k - 1) <= m < 2 ^ k -> 0 < m -> Zdigits2 m = k.
Proof.
  intros Hk Hm. destruct (Zdigits2_bounds m Hm) as (Hd & Hlo & Hhi).
  assert (0 < k).
  { destruct (Z.lt_trichotomy k 0) as [Hneg | [-> | Hpos]]; [| |lia].
    - rewrite (Z.pow_neg_r 2 k) in Hk by lia. lia.
    - simpl in Hk. lia. }
  destruct (Z.lt_trichotomy (Zdigits2 m) k) as [Hlt | [Heq | Hgt]]; [|lia|].
  - pose proof (Z.pow_le_mono_r 2 (Zdigits2 m) (k - 1) ltac:(lia) ltac:(lia)).
    lia.
  - pose proof (Z.pow_le_mono_r 2 k (Zdigits2 m - 1) ltac:(lia) ltac:(lia)).
    lia.
Qed.

(** Bounds on the number of bits from bounds on the number. *)
Lemma Zdigits2_le (m k : Z) : 0 < m -> m < 2 ^ k -> Zdigits2 m <= k.
Proof.
  intros Hm Hk. destruct (Zdigits2_bounds m Hm) as (Hd & Hlo & Hhi).
  destruct (Z_le_gt_dec (Zdigits2 m) k) as [|Hgt]; [lia|].
  assert (0 <= k).
  { destruct (Z_le_gt_dec 0 k); [lia|]. rewrite Z.pow_neg_r in Hk; lia. }
  pose proof (Z.pow_le_mono_r 2 k (Zdigits2 m - 1) ltac:(lia) ltac:(lia)).
  lia.
Qed.

Lemma Zdigits2_ge (m k : Z) : 0 <= k -> 2 ^ k <= m -> k + 1 <= Zdigits2 m.
Proof.
  intros Hk Hm.
  assert (0 < m) as Hpos by (pose proof (Z.pow_pos_nonneg 2 k); lia).
  destruct (Zdigits2_bounds m Hpos) as (Hd & Hlo & Hhi).
  destruct (Z_le_gt_dec (k + 1) (Zdigits2 m)) as [|Hgt]; [lia|].
  pose proof (Z.pow_le_mono_r 2 (Zdigits2 m) k ltac:(lia) ltac:(lia)). lia.
Qed.

(** One step of [shr] halves the mantissa; [p] steps divide it by [2^p]. *)
Lemma shr_1_m (mrs : shr_record) :
  0 <= shr_m mrs -> shr_m (shr_1 mrs) = shr_m mrs / 2.
Proof.
  destruct mrs as [m r s]. intros Hm. cbn [shr_m] in Hm.
  destruct m as [|[p|p|]|p]; [reflexivity| | |reflexivity|lia];
    cbn [shr_1 shr_m].
  - change (Z.pos p~1) with (2 * Z.pos p + 1).
    apply (Z.div_unique _ _ _ 1); lia.
  - change (Z.pos p~0) with (2 * Z.pos p).
    apply (Z.div_unique _ _ _ 0); lia.
Qed.

Lemma iter_shr_1_m (n : positive) (mrs : shr_record) :
  0 <= shr_m mrs ->
  shr_m (SpecFloat.iter_pos shr_1 n mrs) = shr_m mrs / 2 ^ Z.pos n.
Proof.
  revert mrs. induction n as [n IH|n IH|]; intros mrs Hm.
  - change (SpecFloat.iter_pos shr_1 n~1 mrs)
      with (SpecFloat.iter_pos shr_1 n
              (SpecFloat.iter_pos shr_1 n (shr_1 mrs))).
    assert (0 <= shr_m (shr_1 mrs)) as H1
      by (rewrite shr_1_m by done; apply Z.div_pos; lia).
    assert (0 <= shr_m (SpecFloat.iter_pos shr_1 n (shr_1 mrs))) as H2
      by (rewrite IH by done; apply Z.div_pos;
          [lia|apply Z.pow_pos_nonneg; lia]).
    rewrite IH, IH, shr_1_m by done.
    rewrite !Z.div_div by (try apply Z.pow_pos_nonneg; lia).
    f_equal. change (Z.pos n~1) with (2 * Z.pos n + 1).
    replace (2 * Z.pos n + 1) with (1 + Z.pos n + Z.pos n) by lia.
    rewrite !Z.pow_add_r by lia. lia.
  - change (SpecFloat.iter_pos shr_1 n~0 mrs)
      with (SpecFloat.iter_pos shr_1 n (SpecFloat.iter_pos shr_1 n mrs)).
    assert (0 <= shr_m (SpecFloat.iter_pos shr_1 n mrs)) as H2
      by (rewrite IH by done; apply Z.div_pos;
          [lia|apply Z.pow_pos_nonneg; lia]).
    rewrite IH, IH by done.
    rewrite !Z.div_div by (try apply Z.pow_pos_nonneg; lia).
    f_equal. change (Z.pos n~0) with (2 * Z.pos n).
    replace (2 * Z.pos n) with (Z.pos n + Z.pos n) by lia.
    rewrite !Z.pow_add_r by lia. lia.
  - change (SpecFloat.iter_pos shr_1 1 mrs) with (shr_1 mrs).
    rewrite shr_1_m by done. reflexivity.
Qed.

Lemma shr_record_of_loc_m (m : Z) (l : location) :
  shr_m (shr_record_of_loc m l) = m.
Proof. by destruct l as [|[]]. Qed.

(** [shr_fexp] divides the mantissa by a power of 2 and adds the shift to
    the exponent. *)
Lemma shr_fexp_spec (m e : Z) (l : location) :
  0 <= m ->
  let n := Z.max (fexp prec emax (Zdigits2 m + e) - e) 0 in
  shr_m (shr_fexp prec emax m e l).1 = m / 2 ^ n
  /\ (shr_fexp prec emax m e l).2 = e + n.
Proof.
  intros Hm n. unfold shr_fexp, shr. subst n.
  destruct (fexp prec emax (Zdigits2 m + e) - e) as [|p|p] eqn:E;
    simpl fst; simpl snd.
  - rewrite shr_record_of_loc_m. simpl. rewrite Z.div_1_r. lia.
  - rewrite iter_shr_1_m by (by rewrite shr_record_of_loc_m).
    rewrite shr_record_of_loc_m. rewrite Z.max_l by lia. done.
  - rewrite shr_record_of_loc_m. rewrite Z.max_r by lia. simpl.
    rewrite Z.div_1_r. lia.
Qed.

(** Rounding to nearest adds at most one unit to the truncated mantissa. *)
Lemma round_nearest_even_bounds (m : Z) (l : location) :
  m <= round_nearest_even m l <= m + 1.
Proof.
  destruct l as [|[]]; simpl; try lia. destruct (Z.even m); lia.
Qed.

(** The exponent of a number of magnitude [k] in the normal range. *)
Lemma fexp_normal (k : Z) : -1074 <= k - 53 -> fexp prec emax k = k - 53.
Proof. unfold fexp, emin, prec, emax. lia. Qed.

(** Rounding a mantissa of at least 53 bits in the normal range: the
    result is a normal number (or an overflow), one unit in the last place
    above the truncated mantissa at most. *)
Lemma binary_round_aux_normal (m e : Z) (l : location) :
  2 ^ 52 <= m -> -1074 <= Zdigits2 m + e - 53 ->
  let n := Zdigits2 m - 53 in
  exists (m' : positive) (k : Z),
    binary_round_aux prec emax false m e l
    = (if e + n + k <=? 971 then S754_finite false m' (e + n + k)
       else S754_infinity false)
    /\ 2 ^ 52 <= Z.pos m' < 2 ^ 53
    /\ 0 <= n /\ 0 <= k <= 1
    /\ 2 ^ 52 <= m / 2 ^ n
    /\ Z.pos m' * 2 ^ k <= m / 2 ^ n + 1.
Proof.
  intros Hm Hnormal n.
  assert (0 < m) as Hpos by lia.
  destruct (Zdigits2_bounds m Hpos) as (Hd & Hlo & Hhi).
  assert (53 <= Zdigits2 m) as Hd53 by (apply (Zdigits2_ge m 52); lia).
  assert (0 <= n) as Hn by (subst n; lia).
  set (m1 := m / 2 ^ n).
  assert (2 ^ 52 <= m1 < 2 ^ 53) as Hm1.
  { subst m1. pose proof (Z.pow_pos_nonneg 2 n ltac:(lia) Hn) as Hp.
    assert (2 ^ (Zdigits2 m - 1) = 2 ^ 52 * 2 ^ n) as E1
      by (rewrite <- Z.pow_add_r by lia; f_equal; lia).
    assert (2 ^ Zdigits2 m = 2 ^ 53 * 2 ^ n) as E2
      by (rewrite <- Z.pow_add_r by lia; f_equal; lia).
    split.
    - apply Z.div_le_lower_bound; lia.
    - apply Z.div_lt_upper_bound; lia. }
  unfold binary_round_aux.
  destruct (shr_fexp_spec m e l ltac:(lia)) as [Hs1 He1].
  rewrite fexp_normal in Hs1, He1 by lia.
  replace (Z.max (Zdigits2 m + e - 53 - e) 0) with n in Hs1, He1 by lia.
  destruct (shr_fexp prec emax m e l) as [mrs' e'].
  simpl in Hs1, He1. subst e'. fold m1 in Hs1. rewrite Hs1.
  set (mr := round_nearest_even m1 (loc_of_shr_record mrs')).
  pose proof (round_nearest_even_bounds m1 (loc_of_shr_record mrs')) as Hmr.
  fold mr in Hmr.
  destruct (shr_fexp_spec mr (e + n) loc_Exact ltac:(lia)) as [Hs2 He2].
  destruct (shr_fexp prec emax mr (e + n) loc_Exact) as [mrs'' e''].
  simpl in Hs2, He2.
  destruct (Z_lt_le_dec mr (2 ^ 53)) as [Hlt|Hge].
  - assert (Zdigits2 mr = 53) as Hdr by (apply Zdigits2_unique; simpl; lia).
    rewrite Hdr, fexp_normal in Hs2, He2 by lia.
    replace (Z.max (53 + (e + n) - 53 - (e + n)) 0) with 0 in Hs2, He2 by lia.
    rewrite Z.div_1_r in Hs2. rewrite Hs2, He2.
    destruct mr as [|pr|pr] eqn:Er; try lia.
    exists pr, 0. rewrite Z.add_0_r. split; [reflexivity|].
    rewrite Z.mul_1_r. fold m1. lia.
  - assert (mr = 2 ^ 53) as Emr by lia.
    assert (Zdigits2 mr = 54) as Hdr by (rewrite Emr; reflexivity).
    rewrite Hdr, fexp_normal in Hs2, He2 by lia.
    replace (Z.max (54 + (e + n) - 53 - (e + n)) 0) with 1 in Hs2, He2 by lia.
    rewrite Emr in Hs2.
    change (2 ^ 53 / 2 ^ 1) with (Z.pos 4503599627370496) in Hs2.
    rewrite Hs2, He2.
    exists 4503599627370496%positive, 1. split; [reflexivity|].
    change (Z.pos 4503599627370496 * 2 ^ 1) with (2 ^ 53). fold m1. lia.
Qed.


(** ** Values *)

Lemma IZR_pow2 (n : Z) : 0 <= n -> IZR (2 ^ n) = powerRZ 2 n.
Proof.
  intros Hn. destruct n as [|p|p]; [reflexivity| |lia].
  change (2 ^ Z.pos p) with (Z.pow_pos 2 p).
  apply Zpower_pos_powerRZ.
Qed.

Lemma powerRZ_2_pos (e : Z) : (0 < powerRZ 2 e)%R.
Proof. apply powerRZ_lt. lra. Qed.

Lemma powerRZ_2_add (a b : Z) :
  powerRZ 2 (a + b) = (powerRZ 2 a * powerRZ 2 b)%R.
Proof. apply powerRZ_add. lra. Qed.

(** The rounded value is at most [1 + 2^-52] times the value rounded. *)
Lemma binary_round_aux_value (m e : Z) (l : location) :
  2 ^ 52 <= m -> -1074 <= Zdigits2 m + e - 53 -> Zdigits2 m + e <= 1023 ->
  exists (m' : positive) (e' : Z),
    binary_round_aux prec emax false m e l = S754_finite false m' e'
    /\ 2 ^ 52 <= Z.pos m' < 2 ^ 53
    /\ Zdigits2 m + e - 53 <= e' <= Zdigits2 m + e - 52
    /\ (IZR (Z.pos m') * powerRZ 2 e'
        <= IZR m * powerRZ 2 e * (1 + / 4503599627370496))%R.
Proof.
  intros Hm Hnormal Hmax.
  destruct (binary_round_aux_normal m e l Hm Hnormal)
    as (m' & k & Hrun & Hcanon & Hn & Hk & Hm1 & Hle).
  set (n := Zdigits2 m - 53) in *. set (m1 := m / 2 ^ n) in *.
  exists m', (e + n + k).
  assert ((e + n + k <=? 971) = true) as Hfit by (apply Z.leb_le; lia).
  rewrite Hfit in Hrun. split; [exact Hrun|]. split; [exact Hcanon|].
  split; [lia|].
  assert (m1 * 2 ^ n <= m) as Hfloor.
  { subst m1. rewrite Z.mul_comm. apply Z.mul_div_le.
    apply Z.pow_pos_nonneg; lia. }
  rewrite !powerRZ_2_add, <- (IZR_pow2 n), <- (IZR_pow2 k) by lia.
  pose proof (powerRZ_2_pos e) as He.
  apply IZR_le in Hle, Hfloor, Hm1. rewrite mult_IZR in Hle, Hfloor.
  rewrite plus_IZR in Hle.
  change (IZR (2 ^ 52)) with 4503599627370496%R in Hm1.
  assert (0 < IZR (2 ^ n))%R as Hpn
    by (apply IZR_lt, Z.pow_pos_nonneg; lia).
  set (M' := IZR (Z.pos m')) in *. set (K := IZR (2 ^ k)) in *.
  set (N := IZR (2 ^ n)) in *. set (M1 := IZR m1) in *.
  set (M := IZR m) in *. set (E := powerRZ 2 e) in *.
  assert (M' * K <= M1 * (1 + / 4503599627370496))%R as H1 by lra.
  assert (M1 * N * (1 + / 4503599627370496)
          <= M * (1 + / 4503599627370496))%R as H2.
  { apply Rmult_le_compat_r; lra. }
  assert (M' * K * N <= M * (1 + / 4503599627370496))%R as H3.
  { apply Rle_trans with (M1 * (1 + / 4503599627370496) * N)%R; [|lra].
    apply Rmult_le_compat_r; lra. }
  replace (M' * (E * N * K))%R with (M' * K * N * E)%R by ring.
  replace (M * E * (1 + / 4503599627370496))%R
    with (M * (1 + / 4503599627370496) * E)%R by ring.
  apply Rmult_le_compat_r; lra.
Qed.


Lemma powerRZ_2_cancel (a b : Z) :
  a + b = 0 -> (powerRZ 2 a * powerRZ 2 b)%R = 1%R.
Proof. intros H. rewrite <- powerRZ_2_add, H. reflexivity. Qed.

(** [shl_align] multiplies the mantissa by a power of 2. *)
Lemma iter_xO (k p : positive) :
  Z.pos (Pos.iter xO p k) = Z.pos p * 2 ^ Z.pos k.
Proof.
  induction k as [|k IH] using Pos.peano_ind.
  - simpl. lia.
  - rewrite Pos.iter_succ, (Pos2Z.inj_xO (Pos.iter xO p k)), IH.
    rewrite Pos2Z.inj_succ, Z.pow_succ_r by lia. lia.
Qed.

(** [float(n)] for a positive [n] below [2^1023]. *)
Lemma of_int_value (n : Z) :
  0 < n -> n < 2 ^ 1023 ->
  exists (m' : positive) (e' : Z),
    of_int n = Ret (S754_finite false m' e')
    /\ 2 ^ 52 <= Z.pos m' < 2 ^ 53
    /\ Zdigits2 n - 53 <= e' <= Zdigits2 n - 52
    /\ (IZR (Z.pos m') * powerRZ 2 e'
        <= IZR n * (1 + / 4503599627370496))%R.
Proof.
  intros Hn Hmax. destruct n as [|p|p]; try lia.
  destruct (Zdigits2_bounds (Z.pos p) Hn) as (Hd & Hlo & Hhi).
  assert (Zdigits2 (Z.pos p) <= 1023) as Hd' by (apply Zdigits2_le; lia).
  unfold of_int, binary_normalize, binary_round.
  change (Zdigits2 (Z.pos p)) with (Z.pos (digits2_pos p)) in *.
  set (d := Z.pos (digits2_pos p)) in *.
  rewrite fexp_normal by lia. unfold shl_align.
  assert (exists m e,
            (match d + 0 - 53 - 0 with
             | Z.neg k => (Pos.iter xO p k, d + 0 - 53)
             | _ => (p, 0)
             end) = (m, e)
            /\ 2 ^ 52 <= Z.pos m /\ Zdigits2 (Z.pos m) + e = d
            /\ (IZR (Z.pos m) * powerRZ 2 e)%R = IZR (Z.pos p))
    as (m & e & -> & Hm & Hde & Hv).
  { destruct (d + 0 - 53 - 0) as [|k|k] eqn:Ek.
    - exists p, 0. split; [reflexivity|].
      replace (d - 1) with 52 in Hlo by lia.
      split; [lia|]. split; [simpl; lia|]. simpl. lra.
    - exists p, 0. split; [reflexivity|].
      assert (2 ^ 52 <= 2 ^ (d - 1)) by (apply Z.pow_le_mono_r; lia).
      split; [lia|]. split; [simpl; lia|]. simpl. lra.
    - exists (Pos.iter xO p k), (d + 0 - 53). split; [reflexivity|].
      rewrite iter_xO.
      assert (2 ^ 52 = 2 ^ (d - 1) * 2 ^ Z.pos k) as E1
        by (rewrite <- Z.pow_add_r by lia; f_equal; lia).
      assert (2 ^ 53 = 2 ^ d * 2 ^ Z.pos k) as E2
        by (rewrite <- Z.pow_add_r by lia; f_equal; lia).
      pose proof (Z.pow_pos_nonneg 2 (Z.pos k) ltac:(lia) ltac:(lia)) as Hk.
      assert (2 ^ 52 <= Z.pos p * 2 ^ Z.pos k < 2 ^ 53) as Hb by nia.
      split; [lia|]. split.
      + rewrite (Zdigits2_unique _ 53); [lia| |lia].
        change (53 - 1) with 52. exact Hb.
      + rewrite mult_IZR, IZR_pow2 by lia. rewrite Rmult_assoc.
        rewrite powerRZ_2_cancel by lia. lra. }
  destruct (binary_round_aux_value (Z.pos m) e loc_Exact)
    as (m' & e' & Hrun & Hc & He & Hval); [lia..|].
  rewrite Hrun. exists m', e'. split; [reflexivity|]. split; [exact Hc|].
  split; [lia|]. rewrite <- Hv. exact Hval.
Qed.

(** [a / b] for positive [int]s with a quotient in the normal range and
    below [2^52]. *)
Lemma int_truediv_value (a b : Z) :
  0 < a -> 0 < b ->
  -1021 <= Zdigits2 a - Zdigits2 b <= 52 ->
  exists (m' : positive) (e' : Z),
    int_truediv a b = Ret (S754_finite false m' e')
    /\ 2 ^ 52 <= Z.pos m' < 2 ^ 53
    /\ Zdigits2 a - Zdigits2 b - 53 <= e' <= Zdigits2 a - Zdigits2 b - 51
    /\ (IZR (Z.pos m') * powerRZ 2 e' * IZR b
        <= IZR a * (1 + / 4503599627370496))%R.
Proof.
  intros Ha Hb Hd.
  destruct (Zdigits2_bounds a Ha) as (Hda & Hloa & Hhia).
  destruct (Zdigits2_bounds b Hb) as (Hdb & Hlob & Hhib).
  destruct a as [|pa|pa]; try lia. destruct b as [|pb|pb]; try lia.
  unfold int_truediv.
  change (Z.to_pos (Z.abs (Z.pos pa))) with pa.
  change (Z.to_pos (Z.abs (Z.pos pb))) with pb.
  change (Z.pos pa <? 0) with false. change (Z.pos pb <? 0) with false.
  unfold SFdiv, SFdiv_core_binary. cbv zeta.
  set (d1 := Zdigits2 (Z.pos pa)) in *. set (d2 := Zdigits2 (Z.pos pb)) in *.
  replace (d1 + 0 - (d2 + 0)) with (d1 - d2) by lia.
  rewrite fexp_normal by lia.
  replace (Z.min (d1 - d2 - 53) (0 - 0)) with (d1 - d2 - 53) by lia.
  set (s := 0 - 0 - (d1 - d2 - 53)).
  assert (0 < s) as Hs by (subst s; lia).
  assert (match s with
          | 0 => Z.pos pa
          | Z.pos _ => Z.shiftl (Z.pos pa) s
          | Z.neg _ => 0
          end = Z.pos pa * 2 ^ s) as ->.
  { destruct s eqn:Es; try lia. rewrite Z.shiftl_mul_pow2 by lia. done. }
  assert (Z.div_eucl (Z.pos pa * 2 ^ s) (Z.pos pb)
          = ((Z.pos pa * 2 ^ s) / Z.pos pb, (Z.pos pa * 2 ^ s) mod Z.pos pb))
    as -> by (unfold Z.div, Z.modulo; by destruct (Z.div_eucl _ _)).
  set (q := Z.pos pa * 2 ^ s / Z.pos pb).
  pose proof (Z.pow_pos_nonneg 2 s ltac:(lia) ltac:(lia)) as Hps.
  assert (2 ^ (d1 - 1) * 2 ^ s = 2 ^ 52 * 2 ^ d2) as E1
    by (rewrite <- !Z.pow_add_r by lia; f_equal; lia).
  assert (2 ^ d2 = 2 * 2 ^ (d2 - 1)) as E2
    by (rewrite <- Z.pow_succ_r by lia; f_equal; lia).
  assert (2 ^ d1 = 2 * 2 ^ (d1 - 1)) as E3
    by (rewrite <- Z.pow_succ_r by lia; f_equal; lia).
  pose proof (Z.pow_pos_nonneg 2 (d1 - 1) ltac:(lia) ltac:(lia)) as Hp1.
  pose proof (Z.pow_pos_nonneg 2 (d2 - 1) ltac:(lia) ltac:(lia)) as Hp2.
  assert (2 ^ 52 <= q < 2 ^ 54) as Hq.
  { subst q. split.
    - apply Z.div_le_lower_bound; [lia|]. nia.
    - apply Z.div_lt_upper_bound; [lia|]. nia. }
  assert (53 <= Zdigits2 q <= 54) as Hdq.
  { split; [apply (Zdigits2_ge q 52); lia | apply Zdigits2_le; lia]. }
  assert (q * Z.pos pb <= Z.pos pa * 2 ^ s) as Hfloor.
  { subst q. rewrite Z.mul_comm. apply Z.mul_div_le. lia. }
  destruct (binary_round_aux_value q (d1 - d2 - 53)
              (new_location (Z.pos pb) ((Z.pos pa * 2 ^ s) mod Z.pos pb)))
    as (m' & e' & Hrun & Hc & He & Hval); [lia..|].
  cbn [xorb]. rewrite Hrun. exists m', e'. split; [reflexivity|].
  split; [exact Hc|]. split; [lia|].
  apply IZR_le in Hfloor. rewrite !mult_IZR, IZR_pow2 in Hfloor by lia.
  pose proof (powerRZ_2_cancel s (d1 - d2 - 53) ltac:(lia)) as Hcancel.
  pose proof (powerRZ_2_pos (d1 - d2 - 53)) as Hpe.
  assert (0 < IZR (Z.pos pb))%R as Hbr by (apply IZR_lt; lia).
  set (V' := (IZR (Z.pos m') * powerRZ 2 e')%R) in *.
  set (Q := IZR q) in *. set (E := powerRZ 2 (d1 - d2 - 53)) in *.
  set (B := IZR (Z.pos pb)) in *. set (A := IZR (Z.pos pa)) in *.
  set (S := powerRZ 2 s) in *.
  assert (Q * E * B <= A)%R as H1.
  { replace A with (A * S * E)%R by (rewrite Rmult_assoc, Hcancel; ring).
    replace (Q * E * B)%R with (Q * B * E)%R by ring.
    apply Rmult_le_compat_r; lra. }
  apply Rle_trans with (Q * E * (1 + / 4503599627370496) * B)%R.
  - apply Rmult_le_compat_r; lra.
  - replace (Q * E * (1 + / 4503599627370496) * B)%R
      with (Q * E * B * (1 + / 4503599627370496))%R by ring.
    apply Rmult_le_compat_r; lra.
Qed.

(** The product of two positive normal numbers, in the normal range. *)
Lemma SFmul_value (mx my : positive) (ex ey : Z) :
  2 ^ 52 <= Z.pos mx < 2 ^ 53 -> 2 ^ 52 <= Z.pos my < 2 ^ 53 ->
  -1126 <= ex + ey <= 917 ->
  exists (m' : positive) (e' : Z),
    SFmul prec emax (S754_finite false mx ex) (S754_finite false my ey)
    = S754_finite false m' e'
    /\ 2 ^ 52 <= Z.pos m' < 2 ^ 53
    /\ ex + ey + 52 <= e' <= ex + ey + 54
    /\ (IZR (Z.pos m') * powerRZ 2 e'
        <= IZR (Z.pos mx) * powerRZ 2 ex * (IZR (Z.pos my) * powerRZ 2 ey)
           * (1 + / 4503599627370496))%R.
Proof.
  intros Hx Hy He. unfold SFmul. cbn [xorb].
  rewrite Pos2Z.inj_mul.
  assert (2 ^ 104 <= Z.pos mx * Z.pos my < 2 ^ 106) as Hm.
  { change (2 ^ 104) with (2 ^ 52 * 2 ^ 52).
    change (2 ^ 106) with (2 ^ 53 * 2 ^ 53). nia. }
  assert (105 <= Zdigits2 (Z.pos mx * Z.pos my) <= 106) as Hd.
  { split; [apply (Zdigits2_ge _ 104); lia | apply Zdigits2_le; lia]. }
  assert (2 ^ 52 <= 2 ^ 104) by (apply Z.pow_le_mono_r; lia).
  destruct (binary_round_aux_value (Z.pos mx * Z.pos my) (ex + ey) loc_Exact)
    as (m' & e' & Hrun & Hc & He' & Hval); [lia..|].
  rewrite Hrun. exists m', e'. split; [reflexivity|]. split; [exact Hc|].
  split; [lia|]. rewrite mult_IZR, powerRZ_2_add in Hval.
  eapply Rle_trans; [exact Hval|]. apply Req_le. ring.
Qed.

(** [math.sqrt] of a positive normal number. *)
Lemma sqrt_value (mx : positive) (ex : Z) :
  2 ^ 52 <= Z.pos mx < 2 ^ 53 -> -2000 <= ex <= 900 ->
  exists (m' : positive) (e' : Z),
    sqrt (S754_finite false mx ex) = Ret (S754_finite false m' e')
    /\ 2 ^ 52 <= Z.pos m' < 2 ^ 53
    /\ ex / 2 - 26 <= e' <= ex / 2 - 25
    /\ ((IZR (Z.pos m') * powerRZ 2 e') * (IZR (Z.pos m') * powerRZ 2 e')
        <= IZR (Z.pos mx) * powerRZ 2 ex
           * ((1 + / 4503599627370496) * (1 + / 4503599627370496)))%R.
Proof.
  intros Hx He. unfold sqrt, SFsqrt, SFsqrt_core_binary. cbv zeta.
  assert (Zdigits2 (Z.pos mx) = 53) as ->
    by (apply Zdigits2_unique; simpl; lia).
  rewrite !Z.div2_div.
  set (h := ex / 2).
  assert (ex = 2 * h + ex mod 2) as Hex by (apply Z.div_mod; lia).
  pose proof (Z.mod_pos_bound ex 2 ltac:(lia)) as Hrho.
  assert ((53 + ex + 1) / 2 = 27 + h) as ->.
  { subst h. replace (53 + ex + 1) with (ex + 27 * 2) by lia.
    rewrite Z.div_add by lia. lia. }
  rewrite fexp_normal by lia.
  replace (Z.min (27 + h - 53) h) with (h - 26) by lia.
  set (s := ex - 2 * (h - 26)).
  assert (52 <= s <= 53) as Hs by (subst s; lia).
  assert (match s with
          | 0 => Z.pos mx
          | Z.pos _ => Z.shiftl (Z.pos mx) s
          | Z.neg _ => 0
          end = Z.pos mx * 2 ^ s) as ->.
  { destruct s eqn:Es; try lia. rewrite Z.shiftl_mul_pow2 by lia. done. }
  assert (2 ^ 52 <= 2 ^ s <= 2 ^ 53) as Hps
    by (split; apply Z.pow_le_mono_r; lia).
  pose proof (Z.sqrtrem_spec (Z.pos mx * 2 ^ s) ltac:(lia)) as Hsq.
  destruct (Z.sqrtrem (Z.pos mx * 2 ^ s)) as [q r].
  destruct Hsq as [Hsq Hr].
  assert (2 ^ 52 <= q < 2 ^ 53) as Hq.
  { change (2 ^ 52) with 4503599627370496 in *.
    change (2 ^ 53) with 9007199254740992 in *. nia. }
  assert (Zdigits2 q = 53) as Hdq by (apply Zdigits2_unique; simpl; lia).
  destruct (binary_round_aux_value q (h - 26)
              (if r =? 0 then loc_Exact
               else loc_Inexact (if r <=? q then Lt else Gt)))
    as (m' & e' & Hrun & Hc & He' & Hval); [lia..|].
  rewrite Hrun. exists m', e'. split; [reflexivity|]. split; [exact Hc|].
  split; [lia|].
  assert (q * q <= Z.pos mx * 2 ^ s) as Hfloor by lia.
  apply IZR_le in Hfloor. rewrite !mult_IZR, IZR_pow2 in Hfloor by lia.
  assert (powerRZ 2 ex
          = powerRZ 2 s * (powerRZ 2 (h - 26) * powerRZ 2 (h - 26)))%R as Epow.
  { rewrite <- !powerRZ_2_add. f_equal. lia. }
  pose proof (powerRZ_2_pos (h - 26)) as Hpe.
  assert (0 < IZR q)%R as Hqr by (apply IZR_lt; lia).
  assert (0 < IZR (Z.pos m'))%R as Hmr by (apply IZR_lt; lia).
  pose proof (powerRZ_2_pos e') as Hpe'.
  set (V' := (IZR (Z.pos m') * powerRZ 2 e')%R) in *.
  set (Q := IZR q) in *. set (E := powerRZ 2 (h - 26)) in *.
  set (X := IZR (Z.pos mx)) in *. set (S := powerRZ 2 s) in *.
  set (u := (1 + / 4503599627370496)%R) in *.
  assert (0 < V')%R as HV by (apply Rmult_lt_0_compat; lra).
  assert (0 < Q * E)%R as HQE by (apply Rmult_lt_0_compat; lra).
  assert (1 < u)%R as Hu by (subst u; lra).
  assert (V' * V' <= Q * E * u * (Q * E * u))%R as H1
    by (apply Rmult_le_compat; lra).
  rewrite Epow.
  apply Rle_trans with (Q * E * u * (Q * E * u))%R; [exact H1|].
  replace (Q * E * u * (Q * E * u))%R with (Q * Q * (E * E * (u * u)))%R
    by ring.
  replace (X * (S * (E * E)) * (u * u))%R with (X * S * (E * E * (u * u)))%R
    by ring.
  apply Rmult_le_compat_r; [|lra].
  apply Rlt_le. repeat apply Rmult_lt_0_compat; lra.
Qed.

(** [int(x)] of a positive number is its integer part. *)
Lemma trunc_value (m : positive) (e : Z) :
  exists z : Z,
    trunc (S754_finite false m e) = Ret z
    /\ 0 <= z /\ (IZR z <= IZR (Z.pos m) * powerRZ 2 e)%R.
Proof.
  unfold trunc. cbn [cond_Zopp]. eexists. split; [reflexivity|].
  destruct (Z_le_gt_dec 0 e) as [He|He].
  - rewrite Z.shiftl_mul_pow2 by lia. split.
    + apply Z.mul_nonneg_nonneg; [lia|]. apply Z.pow_nonneg. lia.
    + rewrite mult_IZR, IZR_pow2 by lia. lra.
  - rewrite Z.shiftl_div_pow2 by lia.
    pose proof (Z.pow_pos_nonneg 2 (- e) ltac:(lia) ltac:(lia)) as Hp.
    split; [apply Z.div_pos; lia|].
    assert (Z.pos m / 2 ^ (- e) * 2 ^ (- e) <= Z.pos m) as Hfloor
      by (rewrite Z.mul_comm; apply Z.mul_div_le; lia).
    apply IZR_le in Hfloor. rewrite mult_IZR, IZR_pow2 in Hfloor by lia.
    pose proof (powerRZ_2_cancel (- e) e ltac:(lia)) as Hcancel.
    pose proof (powerRZ_2_pos e) as Hpe.
    set (Zr := IZR (Z.pos m / 2 ^ (- e))) in *.
    replace Zr with (Zr * powerRZ 2 (- e) * powerRZ 2 e)%R
      by (rewrite Rmult_assoc, Hcancel; ring).
    apply Rmult_le_compat_r; lra.
Qed.


(** [int(n * x)] for a positive [int] and a positive normal [float]. *)
Lemma scaled_side_value (n : Z) (ms : positive) (es : Z) :
  0 < n -> n < 2 ^ 1023 -> 2 ^ 52 <= Z.pos ms < 2 ^ 53 ->
  -1073 <= Zdigits2 n + es <= 969 ->
  exists z : Z,
    int_mul_float n (S754_finite false ms es) ≫= trunc = Ret z
    /\ 0 <= z
    /\ (IZR z <= IZR n * (IZR (Z.pos ms) * powerRZ 2 es)
                 * ((1 + / 4503599627370496) * (1 + / 4503599627370496)))%R.
Proof.
  intros Hn Hmax Hs He. unfold int_mul_float.
  destruct (of_int_value n Hn Hmax) as (mf & ef & -> & Hf & Hef & Hvf).
  rewrite outcome_bind_ret.
  destruct (SFmul_value mf ms ef es Hf Hs ltac:(lia))
    as (mp & ep & Hmul & Hp & Hep & Hvp).
  change (mret ?x) with (Ret x). rewrite Hmul, outcome_bind_ret.
  destruct (trunc_value mp ep) as (z & -> & Hz & Hvz).
  exists z. split; [reflexivity|]. split; [exact Hz|].
  assert (0 < IZR (Z.pos ms) * powerRZ 2 es)%R as Hpos.
  { apply Rmult_lt_0_compat; [apply IZR_lt; lia | apply powerRZ_2_pos]. }
  set (Vs := (IZR (Z.pos ms) * powerRZ 2 es)%R) in *.
  set (Vf := (IZR (Z.pos mf) * powerRZ 2 ef)%R) in *.
  set (Vp := (IZR (Z.pos mp) * powerRZ 2 ep)%R) in *.
  set (u := (1 + / 4503599627370496)%R) in *.
  assert (1 < u)%R as Hu by (subst u; lra).
  apply Rle_trans with Vp; [exact Hvz|].
  apply Rle_trans with (Vf * Vs * u)%R; [exact Hvp|].
  replace (IZR n * Vs * (u * u))%R with (IZR n * u * Vs * u)%R by ring.
  apply Rmult_le_compat_r; [lra|]. apply Rmult_le_compat_r; lra.
Qed.


(** The first scaling: a side times [max_side / max(width, height)] gives
    at most [max_side]. *)
Lemma scale_to_max_side (side longest max_side : Z) (ms : positive)
  (es : Z) :
  0 < side <= longest -> longest < 2 ^ 1000 ->
  0 < max_side <= 2 ^ 24 -> max_side < longest ->
  2 ^ 52 <= Z.pos ms < 2 ^ 53 ->
  Zdigits2 max_side - Zdigits2 longest - 53 <= es
  <= Zdigits2 max_side - Zdigits2 longest - 51 ->
  (IZR (Z.pos ms) * powerRZ 2 es * IZR longest
   <= IZR max_side * (1 + / 4503599627370496))%R ->
  exists z : Z,
    int_mul_float side (S754_finite false ms es) ≫= trunc = Ret z
    /\ 0 <= z <= max_side.
Proof.
  intros Hside Hlong Hmax Hlt Hs Hes Hvs.
  assert (2 ^ 1000 < 2 ^ 1023) as Hpow by (apply Z.pow_lt_mono_r; lia).
  destruct (Zdigits2_bounds side ltac:(lia)) as (Hd1 & _ & Hhi1).
  destruct (Zdigits2_bounds longest ltac:(lia)) as (Hd2 & _ & Hhi2).
  destruct (Zdigits2_bounds max_side ltac:(lia)) as (Hd3 & _ & _).
  assert (Zdigits2 side <= Zdigits2 longest) by (apply Zdigits2_le; lia).
  assert (Zdigits2 longest <= 1000) by (apply Zdigits2_le; lia).
  assert (Zdigits2 max_side <= 25).
  { apply Zdigits2_le; [lia|]. change (2 ^ 24) with 16777216 in Hmax.
    change (2 ^ 25) with 33554432. lia. }
  destruct (scaled_side_value side ms es) as (z & Hrun & Hz & Hvz);
    [lia..|].
  exists z. split; [exact Hrun|]. split; [exact Hz|].
  apply Z.lt_succ_r, lt_IZR. rewrite succ_IZR.
  assert (0 < IZR longest)%R as Hl by (apply IZR_lt; lia).
  assert (IZR side <= IZR longest)%R as Hsl by (apply IZR_le; lia).
  assert (0 < IZR side)%R as Hsr by (apply IZR_lt; lia).
  assert (0 < IZR max_side <= 16777216)%R as Hmr
    by (split; [apply IZR_lt | apply IZR_le]; lia).
  assert (0 < IZR (Z.pos ms) * powerRZ 2 es)%R as Hpos.
  { apply Rmult_lt_0_compat; [apply IZR_lt; lia | apply powerRZ_2_pos]. }
  set (Vs := (IZR (Z.pos ms) * powerRZ 2 es)%R) in *.
  set (u := (1 + / 4503599627370496)%R) in *.
  assert (1 < u)%R as Hu by (subst u; lra).
  set (L := IZR longest) in *. set (S := IZR max_side) in *.
  set (W := IZR side) in *.
  assert (IZR z * L <= L * (S * (u * u * u)))%R as Hprod.
  { apply Rle_trans with (W * Vs * (u * u) * L)%R;
      [apply Rmult_le_compat_r; lra|].
    replace (W * Vs * (u * u) * L)%R with (W * (Vs * L * (u * u)))%R by ring.
    apply Rle_trans with (W * (S * u * (u * u)))%R.
    - apply Rmult_le_compat_l; [lra|].
      apply Rmult_le_compat_r; [|lra]. apply Rlt_le, Rmult_lt_0_compat; lra.
    - replace (W * (S * u * (u * u)))%R with (W * (S * (u * u * u)))%R by ring.
      apply Rmult_le_compat_r; [|lra].
      apply Rlt_le. repeat apply Rmult_lt_0_compat; lra. }
  assert (IZR z <= S * (u * u * u))%R as Hzs.
  { apply (Rmult_le_reg_r L); [lra|]. lra. }
  subst u. lra.
Qed.

(** The second scaling: the two sides times [sqrt(max_area / area)] give
    an area of at most [max_area], and stay within [max_side]. *)
Lemma scale_to_max_area (w1 h1 max_area max_side : Z) :
  0 < w1 <= max_side -> 0 < h1 <= max_side -> max_side <= 2 ^ 24 ->
  0 <= max_area < w1 * h1 ->
  exists (scale : spec_float) (w2 h2 : Z),
    int_truediv max_area (w1 * h1) ≫= sqrt = Ret scale
    /\ int_mul_float w1 scale ≫= trunc = Ret w2
    /\ int_mul_float h1 scale ≫= trunc = Ret h2
    /\ 0 <= w2 <= max_side /\ 0 <= h2 <= max_side
    /\ w2 * h2 <= max_area.
Proof.
  intros Hw Hh Hmax Harea. change (2 ^ 24) with 16777216 in Hmax.
  set (A := w1 * h1) in *.
  assert (0 < A <= 281474976710656) as HA by (subst A; nia).
  assert (2 ^ 24 < 2 ^ 1023) as Hpow by (apply Z.pow_lt_mono_r; lia).
  change (2 ^ 24) with 16777216 in Hpow.
  destruct (Zdigits2_bounds w1 ltac:(lia)) as (Hdw & _ & _).
  destruct (Zdigits2_bounds h1 ltac:(lia)) as (Hdh & _ & _).
  assert (Zdigits2 w1 <= 25)
    by (apply Zdigits2_le; [lia|]; change (2 ^ 25) with 33554432; lia).
  assert (Zdigits2 h1 <= 25)
    by (apply Zdigits2_le; [lia|]; change (2 ^ 25) with 33554432; lia).
  destruct (Z.eq_dec max_area 0) as [->|Hnz].
  - (* [max_area = 0]: the scale is [0.0] *)
    exists (S754_zero false), 0, 0.
    assert (int_truediv 0 A = Ret (S754_zero false)) as ->.
    { unfold int_truediv. destruct A eqn:EA; try lia. reflexivity. }
    split; [reflexivity|].
    destruct (of_int_value w1 ltac:(lia) ltac:(lia)) as (mw & ew & Hfw & _).
    destruct (of_int_value h1 ltac:(lia) ltac:(lia)) as (mh & eh & Hfh & _).
    unfold int_mul_float. rewrite Hfw, Hfh.
    split; [reflexivity|]. split; [reflexivity|]. lia.
  - destruct (Zdigits2_bounds A ltac:(lia)) as (HdA & _ & HhiA).
    destruct (Zdigits2_bounds max_area ltac:(lia)) as (HdM & _ & _).
    assert (Zdigits2 A <= 49).
    { apply Zdigits2_le; [lia|]. change (2 ^ 49) with 562949953421312. lia. }
    assert (Zdigits2 max_area <= Zdigits2 A) by (apply Zdigits2_le; lia).
    destruct (int_truediv_value max_area A)
      as (mq & eq & Hq & Hcq & Heq & Hvq); [lia..|].
    destruct (sqrt_value mq eq Hcq ltac:(lia))
      as (ms & es & Hs & Hcs & Hes & Hvs).
    assert (-75 <= eq / 2 <= -25) as Hhalf.
    { split.
      - apply Z.div_le_lower_bound; lia.
      - apply Z.div_le_upper_bound; lia. }
    destruct (scaled_side_value w1 ms es) as (w2 & Hw2 & Hw2pos & Hvw);
      [lia..|].
    destruct (scaled_side_value h1 ms es) as (h2 & Hh2 & Hh2pos & Hvh);
      [lia..|].
    exists (S754_finite false ms es), w2, h2.
    rewrite Hq, outcome_bind_ret. split; [exact Hs|].
    split; [exact Hw2|]. split; [exact Hh2|].
    (* the bounds, over the reals *)
    assert (0 < IZR (Z.pos ms) * powerRZ 2 es)%R as Hpos.
    { apply Rmult_lt_0_compat; [apply IZR_lt; lia | apply powerRZ_2_pos]. }
    assert (0 < IZR (Z.pos mq) * powerRZ 2 eq)%R as Hposq.
    { apply Rmult_lt_0_compat; [apply IZR_lt; lia | apply powerRZ_2_pos]. }
    set (Vs := (IZR (Z.pos ms) * powerRZ 2 es)%R) in *.
    set (Vq := (IZR (Z.pos mq) * powerRZ 2 eq)%R) in *.
    set (u := (1 + / 4503599627370496)%R) in *.
    assert (1 < u)%R as Hu by (subst u; lra).
    assert (0 < IZR w1 <= 16777216)%R as Hwr
      by (split; [apply IZR_lt | apply IZR_le]; lia).
    assert (0 < IZR h1 <= 16777216)%R as Hhr
      by (split; [apply IZR_lt | apply IZR_le]; lia).
    assert (0 < IZR A <= 281474976710656)%R as HAr
      by (split; [apply IZR_lt | apply IZR_le]; lia).
    assert (IZR A = IZR w1 * IZR h1)%R as EA by (subst A; apply mult_IZR).
    assert (0 < IZR max_area <= IZR A - 1)%R as HMr.
    { split; [apply IZR_lt; lia|]. rewrite <- minus_IZR. apply IZR_le. lia. }
    assert (0 <= IZR w2)%R as Hw2r by (apply IZR_le; lia).
    assert (0 <= IZR h2)%R as Hh2r by (apply IZR_le; lia).
    set (W := IZR w1) in *. set (HR := IZR h1) in *. set (AR := IZR A) in *.
    set (M := IZR max_area) in *.
    (* [Vs * Vs * A <= M * u^3] *)
    assert (Vs * Vs * AR <= M * (u * u * u))%R as Hss.
    { apply Rle_trans with (Vq * (u * u) * AR)%R;
        [apply Rmult_le_compat_r; lra|].
      replace (Vq * (u * u) * AR)%R with (Vq * AR * (u * u))%R by ring.
      replace (M * (u * u * u))%R with (M * u * (u * u))%R by ring.
      apply Rmult_le_compat_r; [|lra].
      apply Rlt_le, Rmult_lt_0_compat; lra. }
    assert (Vs < 1)%R as Hs1.
    { destruct (Rlt_le_dec Vs 1) as [|Hge]; [done|]. exfalso.
      assert (1 * 1 <= Vs * Vs)%R by (apply Rmult_le_compat; lra).
      assert (AR <= Vs * Vs * AR)%R
        by (rewrite <- (Rmult_1_l AR) at 1; apply Rmult_le_compat_r; lra).
      assert (M * (u * u * u) <= (AR - 1) * (u * u * u))%R.
      { apply Rmult_le_compat_r; [|lra].
        apply Rlt_le. repeat apply Rmult_lt_0_compat; lra. }
      subst u. lra. }
    assert (IZR w2 <= W * (u * u))%R as Hw2s.
    { apply Rle_trans with (W * Vs * (u * u))%R; [exact Hvw|].
      apply Rmult_le_compat_r;
        [apply Rlt_le, Rmult_lt_0_compat; lra|].
      rewrite <- (Rmult_1_r W) at 2. apply Rmult_le_compat_l; lra. }
    assert (IZR h2 <= HR * (u * u))%R as Hh2s.
    { apply Rle_trans with (HR * Vs * (u * u))%R; [exact Hvh|].
      apply Rmult_le_compat_r;
        [apply Rlt_le, Rmult_lt_0_compat; lra|].
      rewrite <- (Rmult_1_r HR) at 2. apply Rmult_le_compat_l; lra. }
    assert (IZR max_side <= 16777216)%R as HSr by (apply IZR_le; lia).
    assert (W <= IZR max_side)%R as HWS by (apply IZR_le; lia).
    assert (HR <= IZR max_side)%R as HHS by (apply IZR_le; lia).
    split; [split; [exact Hw2pos|]|split; [split; [exact Hh2pos|]|]].
    + apply Z.lt_succ_r, lt_IZR. rewrite succ_IZR.
      assert (W * (u * u) <= IZR max_side * (u * u))%R
        by (apply Rmult_le_compat_r;
            [apply Rlt_le, Rmult_lt_0_compat; lra | lra]).
      subst u. lra.
    + apply Z.lt_succ_r, lt_IZR. rewrite succ_IZR.
      assert (HR * (u * u) <= IZR max_side * (u * u))%R
        by (apply Rmult_le_compat_r;
            [apply Rlt_le, Rmult_lt_0_compat; lra | lra]).
      subst u. lra.
    + apply Z.lt_succ_r, lt_IZR. rewrite succ_IZR, mult_IZR. fold M.
      assert (IZR w2 * IZR h2
              <= W * Vs * (u * u) * (HR * Vs * (u * u)))%R as Hp
        by (apply Rmult_le_compat; lra).
      assert (W * Vs * (u * u) * (HR * Vs * (u * u))
              = Vs * Vs * AR * (u * u * u * u))%R as Ep
        by (rewrite EA; ring).
      assert (Vs * Vs * AR * (u * u * u * u)
              <= M * (u * u * u) * (u * u * u * u))%R as Hp2.
      { apply Rmult_le_compat_r; [|exact Hss].
        apply Rlt_le. repeat apply Rmult_lt_0_compat; lra. }
      assert (M <= 281474976710656)%R by lra.
      subst u. lra.
Qed.

End Binary64.

(** ** [calculate_adjusted_resolution] *)

Section Resolution.
Import Sampler.

(** X1.  Whatever the arguments, a size [calculate_adjusted_resolution]
    returns is made of multiples of 8. *)
Lemma calculate_adjusted_resolution_multiple_of_8
  (width height max_area max_side w h : Z) :
  calculate_adjusted_resolution width height max_area max_side = Ret (w, h) ->
  (8 | w) /\ (8 | h).
Proof.
  unfold calculate_adjusted_resolution. intros H.
  inv_bind H. destruct v as [w1 h1]. simpl in H.
  inv_bind H. destruct v as [w2 h2]. simpl in H.
  injection H as <- <-.
  split; apply Z.divide_factor_r.
Qed.

(** X2.  A size within [max_side] and [max_area] is not scaled: it is only
    rounded down to multiples of 8, and the result keeps both bounds. *)
Lemma calculate_adjusted_resolution_no_scaling
  (width height max_area max_side : Z) :
  0 < width -> 0 < height ->
  width <= max_side -> height <= max_side -> width * height <= max_area ->
  let w := width / 8 * 8 in
  let h := height / 8 * 8 in
  calculate_adjusted_resolution width height max_area max_side = Ret (w, h)
  /\ w <= max_side /\ h <= max_side /\ w * h <= max_area.
Proof.
  intros Hw Hh Hws Hhs Harea w h. unfold calculate_adjusted_resolution.
  assert ((width >? max_side) || (height >? max_side) = false) as ->
    by (apply orb_false_iff; lia).
  rewrite outcome_bind_ret.
  assert ((width * height >? max_area) = false) as -> by lia.
  split; [reflexivity|].
  assert (0 <= w <= width).
  { pose proof (Z.mul_div_le width 8 ltac:(lia)).
    pose proof (Z.div_pos width 8 ltac:(lia) ltac:(lia)). subst w. lia. }
  assert (0 <= h <= height).
  { pose proof (Z.mul_div_le height 8 ltac:(lia)).
    pose proof (Z.div_pos height 8 ltac:(lia) ltac:(lia)). subst h. lia. }
  repeat split; nia.
Qed.

(** C1, amended.  For a positive width and height below [2^1000], an
    area bound that is not negative and a side bound of at most [2^24]
    (the program calls with [max_side = 2048] and
    [max_area = args.max * args.max]), [calculate_adjusted_resolution]
    returns a size made of multiples of 8, with both sides within
    [max_side] and an area within [max_area]. *)
Theorem calculate_adjusted_resolution_within_bounds
  (width height max_area max_side : Z) :
  0 < width -> width < 2 ^ 1000 -> 0 < height -> height < 2 ^ 1000 ->
  0 <= max_area -> 0 < max_side <= 2 ^ 24 ->
  exists w h : Z,
    calculate_adjusted_resolution width height max_area max_side = Ret (w, h)
    /\ (8 | w) /\ (8 | h)
    /\ 0 <= w <= max_side /\ 0 <= h <= max_side
    /\ w * h <= max_area.
Proof.
  intros Hw Hwmax Hh Hhmax Harea Hside.
  unfold calculate_adjusted_resolution.
  (* the first scaling *)
  assert (exists w1 h1 : Z,
            (if (width >? max_side) || (height >? max_side)
             then scale ← int_truediv max_side (Z.max width height);
                  w ← int_mul_float width scale ≫= trunc;
                  h ← int_mul_float height scale ≫= trunc;
                  mret (w, h)
             else mret (width, height)) = Ret (w1, h1)
            /\ 0 <= w1 <= max_side /\ 0 <= h1 <= max_side)
    as (w1 & h1 & -> & Hw1 & Hh1).
  { destruct ((width >? max_side) || (height >? max_side)) eqn:Hbig.
    - apply orb_true_iff in Hbig.
      set (longest := Z.max width height).
      assert (max_side < longest) as Hlt by (subst longest; lia).
      assert (longest < 2 ^ 1000) as Hlong by (subst longest; lia).
      destruct (Zdigits2_bounds longest ltac:(lia)) as (Hd2 & _ & Hhi2).
      destruct (Zdigits2_bounds max_side ltac:(lia)) as (Hd3 & _ & _).
      assert (Zdigits2 longest <= 1000) by (apply Zdigits2_le; lia).
      assert (Zdigits2 max_side <= Zdigits2 longest)
        by (apply Zdigits2_le; lia).
      destruct (int_truediv_value max_side longest)
        as (ms & es & -> & Hcs & Hes & Hvs); [lia..|].
      rewrite outcome_bind_ret.
      destruct (scale_to_max_side width longest max_side ms es)
        as (w1 & -> & Hw1); [subst longest; lia|try done..].
      destruct (scale_to_max_side height longest max_side ms es)
        as (h1 & -> & Hh1); [subst longest; lia|try done..].
      exists w1, h1. split; [reflexivity|]. done.
    - apply orb_false_iff in Hbig. exists width, height.
      split; [reflexivity|]. lia. }
  rewrite outcome_bind_ret. cbv zeta.
  (* the second scaling *)
  assert (exists w2 h2 : Z,
            (if w1 * h1 >? max_area
             then scale ← int_truediv max_area (w1 * h1) ≫= sqrt;
                  w ← int_mul_float w1 scale ≫= trunc;
                  h ← int_mul_float h1 scale ≫= trunc;
                  mret (w, h)
             else mret (w1, h1)) = Ret (w2, h2)
            /\ 0 <= w2 <= max_side /\ 0 <= h2 <= max_side
            /\ w2 * h2 <= max_area)
    as (w2 & h2 & -> & Hw2 & Hh2 & Hprod).
  { destruct (w1 * h1 >? max_area) eqn:Hover.
    - assert (max_area < w1 * h1) as Hlt by lia.
      destruct (scale_to_max_area w1 h1 max_area max_side)
        as (scale & w2 & h2 & -> & Hrw & Hrh & Hw2 & Hh2 & Hprod);
        [nia|nia|lia|lia|].
      rewrite outcome_bind_ret, Hrw, outcome_bind_ret, Hrh.
      exists w2, h2. split; [reflexivity|]. done.
    - exists w1, h1. split; [reflexivity|]. lia. }
  rewrite outcome_bind_ret.
  exists (w2 / 8 * 8), (h2 / 8 * 8). split; [reflexivity|].
  split; [apply Z.divide_factor_r|]. split; [apply Z.divide_factor_r|].
  assert (0 <= w2 / 8 * 8 <= w2).
  { pose proof (Z.mul_div_le w2 8 ltac:(lia)).
    pose proof (Z.div_pos w2 8 ltac:(lia) ltac:(lia)). lia. }
  assert (0 <= h2 / 8 * 8 <= h2).
  { pose proof (Z.mul_div_le h2 8 ltac:(lia)).
    pose proof (Z.div_pos h2 8 ltac:(lia) ltac:(lia)). lia. }
  split; [lia|]. split; [lia|]. nia.
Qed.

(** The amended statement at a 4000 x 3000 image, as the driver calls the
    function under [--max 1024]. *)
Lemma calculate_adjusted_resolution_within_bounds_witness :
  0 < 4000 /\ 4000 < 2 ^ 1000 /\ 0 < 3000 /\ 3000 < 2 ^ 1000
  /\ 0 <= 1024 * 1024 /\ 0 < default_max_side <= 2 ^ 24
  /\ exists w h : Z,
       calculate_adjusted_resolution 4000 3000 (1024 * 1024) default_max_side
       = Ret (w, h)
       /\ (8 | w) /\ (8 | h)
       /\ 0 <= w <= default_max_side /\ 0 <= h <= default_max_side
       /\ w * h <= 1024 * 1024.
Proof.
  assert (0 < 4000) as H1 by reflexivity.
  assert (4000 < 2 ^ 1000) as H2 by reflexivity.
  assert (0 < 3000) as H3 by reflexivity.
  assert (3000 < 2 ^ 1000) as H4 by reflexivity.
  assert (0 <= 1024 * 1024) as H5 by discriminate.
  assert (0 < default_max_side <= 2 ^ 24) as H6
    by (split; [reflexivity | discriminate]).
  split; [exact H1|]. split; [exact H2|]. split; [exact H3|].
  split; [exact H4|]. split; [exact H5|]. split; [exact H6|].
  exact (calculate_adjusted_resolution_within_bounds 4000 3000 (1024 * 1024)
           default_max_side H1 H2 H3 H4 H5 H6).
Defined.

(** C1 as stated fails for a width that no [float] holds: the manifest
    entry of width [2^1024] and height 1, under [--max 1024] and the
    default [max_side], makes [width * scale] raise [OverflowError], and
    no size is returned. *)
Lemma calculate_adjusted_resolution_overflow :
  0 < 2 ^ 1024 /\ 0 < 1
  /\ calculate_adjusted_resolution (2 ^ 1024) 1 (1024 * 1024) default_max_side
     = Raise OverflowError.
Proof.
  split; [reflexivity|]. split; [reflexivity|]. vm_compute. reflexivity.
Qed.

(** Beyond the side bound of the amended statement the area bound can
    fail as well.  For the square image of side 3 * 2^25, the area bound
    2^52 - 1 and [max_side = 2^27], the quotient [max_area / area] is just
    below 4/9, its square root rounds to the double nearest to 2/3, and
    the product with the side rounds up to 2^26 exactly: the function
    returns (2^26, 2^26), of area 2^52, above the bound. *)
Remark calculate_adjusted_resolution_area_overshoot :
  calculate_adjusted_resolution 100663296 100663296 4503599627370495 134217728
    = Ret (67108864, 67108864)
  /\ 67108864 * 67108864 > 4503599627370495.
Proof. split; [vm_compute; reflexivity | lia]. Qed.

End Resolution.

(** ** [calculate_adaptive_size] and [process_image] *)

Section Adaptive.
Import Trainer.
Context {F : Type}.
Variable Resize : Z -> Z -> tensor F -> tensor F.

(** Within the area budget the float branch is skipped and the target is
    the size rounded down to multiples of [divisible]. *)
Lemma calculate_adaptive_size_within_budget
  (height width target_area divisible : Z) :
  height * width <= target_area -> divisible <> 0 ->
  calculate_adaptive_size height width target_area divisible
  = Ret (height - height mod divisible, width - width mod divisible).
Proof.
  intros Harea Hd. unfold calculate_adaptive_size.
  assert ((height * width >? target_area) = false) as -> by lia.
  simpl. assert ((divisible =? 0) = false) as -> by lia. reflexivity.
Qed.

(** C5, amended.  For an image of positive height and width within the
    area budget and a positive [divisible], the target size is the image
    size rounded down to multiples of [divisible].  The image passes
    through unresized when its height and width are both multiples of
    [divisible]; when one of them is not and both are at least
    [divisible], it is resized to the target; when one of them is below
    [divisible], the target has a side of 0 and the resize raises. *)
Theorem within_budget_resized_iff_not_divisible (img : image) (a : args) :
  0 < divisible a ->
  0 < height img -> 0 < width img ->
  height img * width img <= resolution a * resolution a ->
  let th := height img - height img mod divisible a in
  let tw := width img - width img mod divisible a in
  calculate_adaptive_size (height img) (width img)
    (resolution a * resolution a) (divisible a) = Ret (th, tw)
  /\ ((divisible a | height img) -> (divisible a | width img) ->
      (th, tw) = (height img, width img)
      /\ process_image Resize img th tw = Ret (to_tensor img))
  /\ (~ ((divisible a | height img) /\ (divisible a | width img)) ->
      divisible a <= height img -> divisible a <= width img ->
      0 < th /\ 0 < tw
      /\ process_image Resize img th tw = Ret (Resize th tw (to_tensor img)))
  /\ (height img < divisible a \/ width img < divisible a ->
      (th = 0 \/ tw = 0)
      /\ exists msg : string,
           process_image Resize img th tw = Raise (RuntimeError msg)).
Proof.
  intros Hd Hh0 Hw0 Harea th tw.
  pose proof (Z.mod_pos_bound (height img) (divisible a) Hd) as Hmh.
  pose proof (Z.mod_pos_bound (width img) (divisible a) Hd) as Hmw.
  split; [|split; [|split]].
  - apply calculate_adaptive_size_within_budget; lia.
  - intros Hh Hw. subst th tw.
    apply Z.mod_divide in Hh, Hw; try lia.
    rewrite Hh, Hw, !Z.sub_0_r. split; [reflexivity|].
    unfold process_image.
    assert ((height img >? height img) = false) as -> by lia.
    assert ((width img >? width img) = false) as -> by lia.
    reflexivity.
  - intros Hnot Hhd Hwd.
    assert (0 < th) as Hth.
    { subst th. pose proof (Z.mod_le (height img) (divisible a)).
      destruct (decide (height img mod divisible a = height img)) as [E|E];
        [|lia].
      apply Z.mod_small_iff in E; lia. }
    assert (0 < tw) as Htw.
    { subst tw. pose proof (Z.mod_le (width img) (divisible a)).
      destruct (decide (width img mod divisible a = width img)) as [E|E];
        [|lia].
      apply Z.mod_small_iff in E; lia. }
    split; [exact Hth|]. split; [exact Htw|].
    unfold process_image, resize.
    assert ((height img >? th) || (width img >? tw) = true) as ->.
    { apply orb_true_iff. subst th tw.
      destruct (decide (height img mod divisible a = 0)) as [Hh|Hh];
        [|left; lia].
      destruct (decide (width img mod divisible a = 0)) as [Hw|Hw];
        [|right; lia].
      exfalso. apply Hnot. split; apply Z.mod_divide; lia. }
    assert ((th <=? 0) || (tw <=? 0) = false) as ->; [|reflexivity].
    apply orb_false_iff. split; lia.
  - intros Hsmall.
    assert (th = 0 \/ tw = 0) as Hzero.
    { subst th tw. destruct Hsmall as [Hs|Hs].
      - left. rewrite Z.mod_small; lia.
      - right. rewrite Z.mod_small; lia. }
    split; [exact Hzero|]. eexists.
    unfold process_image, resize.
    assert ((height img >? th) || (width img >? tw) = true) as ->.
    { apply orb_true_iff. destruct Hzero as [E|E]; [left|right]; lia. }
    assert ((th <=? 0) || (tw <=? 0) = true) as ->; [|reflexivity].
    apply orb_true_iff. destruct Hzero as [E|E]; [left|right]; lia.
Qed.

End Adaptive.

Section AdaptiveInstances.
Import Trainer Examples.

(** The amended statement at a 96 x 64 image under
    [--resolution 1024 --divisible 8]. *)
Lemma within_budget_witness :
  0 < divisible args1024
  /\ 0 < height img96 /\ 0 < width img96
  /\ height img96 * width img96 <= resolution args1024 * resolution args1024
  /\ process_image blank_resize img96 96 64 = Ret (to_tensor img96).
Proof.
  split; [reflexivity|]. split; [reflexivity|]. split; [reflexivity|].
  split; [discriminate|].
  refine (proj2 (proj1 (proj2
    (within_budget_resized_iff_not_divisible blank_resize img96 args1024
       _ _ _ _)) _ _)).
  - reflexivity.
  - reflexivity.
  - reflexivity.
  - discriminate.
  - exists 12. reflexivity.
  - exists 8. reflexivity.
Defined.

(** A 5 x 5 image under [--divisible 8] has the target 0 x 0, and the
    resize to it raises. *)
Example small_image_resize_raises :
  calculate_adaptive_size (height img5) (width img5)
    (resolution args1024 * resolution args1024) (divisible args1024)
  = Ret (0, 0)
  /\ process_image blank_resize img5 0 0
     = Raise (RuntimeError "Input and output sizes should be greater than 0").
Proof. split; reflexivity. Qed.

(** C5 as stated fails: a 100 x 100 image is far within the budget of
    1024 x 1024 pixels, yet with [--divisible 8] its target is 96 x 96 and
    [process_image] resizes it, whatever interpolation of the right output
    size is used. *)
Lemma within_budget_image_resized :
  ~ (forall (Resize : Z -> Z -> tensor Z -> tensor Z) (img : image)
            (a : args) (th tw : Z),
       (forall h w t, t <> [] -> 0 < h -> 0 < w ->
                      shape_hw (Resize h w t) = (h, w)) ->
       to_tensor img <> [] ->
       shape_hw (to_tensor img) = (height img, width img) ->
       height img * width img <= resolution a * resolution a ->
       calculate_adaptive_size (height img) (width img)
         (resolution a * resolution a) (divisible a) = Ret (th, tw) ->
       exists t : tensor Z,
         process_image Resize img th tw = Ret t
         /\ shape_hw t = (height img, width img)).
Proof.
  intros claim.
  destruct (claim blank_resize img100 args1024 96 96) as (t & Ht & Hshape);
    try reflexivity; try discriminate.
  - intros h w [|p t] Ht Hh Hw; [done|]. simpl.
    rewrite !length_replicate.
    destruct (Z.to_nat h) eqn:Eh; [lia|]. simpl.
    rewrite length_replicate. f_equal; lia.
  - assert (process_image blank_resize img100 96 96
            = Ret (blank_resize 96 96 (to_tensor img100))) as Hrun
      by reflexivity.
    rewrite Hrun in Ht. injection Ht as <-. discriminate Hshape.
Qed.

End AdaptiveInstances.

(** ** [merge_safetensors] *)

Section MergeFacts.
Import Merge.
Context {tensor : Type}.
Implicit Types (fa fb acc m : gmap string tensor).
Implicit Types (items : list (string * string)).

Lemma merge_items_cons items fa fb acc key file_name :
  merge_items ((key, file_name) :: items) fa fb acc
  = t ← getitem (consulted fa fb file_name) key;
    merge_items items fa fb (<[key := t]> acc).
Proof. unfold consulted. simpl. destruct (String.eqb _ _); reflexivity. Qed.

Lemma getitem_ret {V} (d : gmap string V) k v :
  getitem d k = Ret v <-> d !! k = Some v.
Proof. unfold getitem. destruct (d !! k); split; congruence. Qed.

(** The loop succeeds exactly when every entry is found in the shard the
    loop reads for it. *)
Lemma merge_items_total items fa fb acc :
  (forall key fn, (key, fn) ∈ items -> is_Some (consulted fa fb fn !! key)) ->
  exists m, merge_items items fa fb acc = Ret m.
Proof.
  revert acc. induction items as [|[key fn] items IH]; intros acc Hall.
  - eexists. reflexivity.
  - rewrite merge_items_cons.
    destruct (Hall key fn) as [t Ht]; [left|].
    apply getitem_ret in Ht. rewrite Ht. simpl.
    apply IH. intros k f Hin. apply Hall. by right.
Qed.

Lemma merge_items_missing items fa fb acc key fn :
  (key, fn) ∈ items -> consulted fa fb fn !! key = None ->
  exists k, merge_items items fa fb acc = Raise (KeyError k).
Proof.
  revert acc. induction items as [|[k0 fn0] items IH]; intros acc Hin Hnone.
  - by apply elem_of_nil in Hin.
  - rewrite merge_items_cons. unfold getitem at 1.
    destruct (consulted fa fb fn0 !! k0) as [t|] eqn:Hk0; simpl.
    + apply elem_of_cons in Hin as [[= -> ->]|Hin]; [congruence|].
      by apply IH.
    + by exists k0.
Qed.

(** What a successful loop has stored under each key. *)
Lemma merge_items_lookup items fa fb acc m :
  NoDup items.*1 ->
  merge_items items fa fb acc = Ret m ->
  forall k,
    m !! k = match (list_to_map items : gmap string string) !! k with
             | Some fn => consulted fa fb fn !! k
             | None => acc !! k
             end.
Proof.
  revert acc. induction items as [|[k0 fn0] items IH]; intros acc Hnd Hm k.
  - injection Hm as <-. simpl. by rewrite lookup_empty.
  - rewrite merge_items_cons in Hm. inv_bind Hm.
    apply getitem_ret in Hv.
    apply NoDup_cons in Hnd as [Hfresh Hnd].
    rewrite (IH _ Hnd Hm k). simpl.
    destruct (decide (k = k0)) as [->|Hne].
    + rewrite lookup_insert_eq.
      rewrite (not_elem_of_list_to_map_1 _ _ Hfresh).
      by rewrite lookup_insert_eq.
    + by rewrite !lookup_insert_ne.
Qed.

Lemma merge_map_lookup (wm : gmap string string) fa fb m :
  merge_items (map_to_list wm) fa fb ∅ = Ret m ->
  forall k, m !! k = wm !! k ≫= fun fn => consulted fa fb fn !! k.
Proof.
  intros Hm k.
  rewrite (merge_items_lookup _ _ _ _ _ (NoDup_fst_map_to_list wm) Hm k).
  rewrite list_to_map_to_list. by destruct (wm !! k).
Qed.

(** On the two shard names, the shard the loop reads is the shard the
    index names. *)
Lemma consulted_named (fs : files tensor) fa fb fn k :
  st_files fs !! shard1_path = Some fa ->
  st_files fs !! shard2_path = Some fb ->
  fn = shard1_name \/ fn = shard2_name ->
  consulted fa fb fn !! k = named_shard_tensor fs fn k.
Proof.
  intros H1 H2 [->| ->]; unfold named_shard_tensor, consulted.
  - change (downloads +:+ shard1_name) with shard1_path. by rewrite H1.
  - change (downloads +:+ shard2_name) with shard2_path. by rewrite H2.
Qed.

(** Running the script up to the loop. *)
Lemma merge_safetensors_unfold (fs : files tensor) config_path output_path
  config weight_map fa fb :
  json_files fs !! config_path = Some config ->
  config !! "weight_map" = Some weight_map ->
  st_files fs !! shard1_path = Some fa ->
  st_files fs !! shard2_path = Some fb ->
  merge_safetensors config_path output_path fs
  = match merge_items (map_to_list weight_map) fa fb ∅ with
    | Ret merged =>
        ({| json_files := json_files fs;
            st_files := <[output_path := merged]> (st_files fs);
            stdout := stdout fs ++ ["Merged model saved to " +:+ output_path] |},
         Ret tt)
    | Raise e => (fs, Raise e)
    end.
Proof.
  intros Hc Hw H1 H2.
  unfold merge_safetensors, mbind, prog_bind, load_json, load_file, lift,
    getitem.
  rewrite Hc, Hw, H1, H2.
  destruct (merge_items _ _ _ _); reflexivity.
Qed.

(** C2, amended.  For an index that names only the two shard files the
    script loads, each tensor being present in the shard named for it,
    [merge_safetensors] writes a mapping whose key set is the key set of the
    weight map and which holds, under each key, the tensor of that name from
    the shard file the index names for it. *)
Theorem merge_safetensors_two_shards (fs : files tensor)
  (config_path output_path : string) config weight_map fa fb :
  json_files fs !! config_path = Some config ->
  config !! "weight_map" = Some weight_map ->
  st_files fs !! shard1_path = Some fa ->
  st_files fs !! shard2_path = Some fb ->
  (forall key fn, weight_map !! key = Some fn ->
                  fn = shard1_name \/ fn = shard2_name) ->
  (forall key fn, weight_map !! key = Some fn ->
                  is_Some (named_shard_tensor fs fn key)) ->
  exists fs' merged,
    merge_safetensors config_path output_path fs = (fs', Ret tt)
    /\ st_files fs' !! output_path = Some merged
    /\ dom merged = dom weight_map
    /\ forall key fn, weight_map !! key = Some fn ->
                      merged !! key = named_shard_tensor fs fn key.
Proof.
  intros Hc Hw H1 H2 Hnames Hpresent.
  rewrite (merge_safetensors_unfold _ _ _ _ _ _ _ Hc Hw H1 H2).
  destruct (merge_items_total (map_to_list weight_map) fa fb ∅) as [m Hm].
  { intros key fn Hin. apply elem_of_map_to_list in Hin.
    rewrite (consulted_named fs) by eauto. eauto. }
  rewrite Hm. pose proof (merge_map_lookup _ _ _ _ Hm) as Hlook.
  assert (forall key fn, weight_map !! key = Some fn ->
                         m !! key = named_shard_tensor fs fn key) as Hkeys.
  { intros key fn Hk. rewrite Hlook, Hk. simpl.
    apply consulted_named; eauto. }
  eexists _, m. split; [reflexivity|]. split; [|split; [|exact Hkeys]].
  - simpl. by rewrite lookup_insert_eq.
  - apply set_eq. intros k. rewrite !elem_of_dom. split.
    + intros [t Ht]. rewrite Hlook in Ht.
      destruct (weight_map !! k); [eauto | discriminate].
    + intros [fn Hk]. rewrite (Hkeys _ _ Hk). eauto.
Qed.

End MergeFacts.

Section MergeInstances.
Import Merge Examples.

(** The amended statement on two shards and an index over them. *)
Lemma merge_two_shards_witness :
  exists fs' merged,
    merge_safetensors "index.json" "merged.safetensors" two_shards
    = (fs', Ret tt)
    /\ st_files fs' !! "merged.safetensors" = Some merged
    /\ dom merged = dom ({[ "w" := shard1_name; "b" := shard2_name ]}
                          : gmap string string)
    /\ forall key fn,
         ({[ "w" := shard1_name; "b" := shard2_name ]} : gmap string string)
           !! key = Some fn ->
         merged !! key = named_shard_tensor two_shards fn key.
Proof.
  apply (merge_safetensors_two_shards two_shards "index.json"
           "merged.safetensors"
           {[ "weight_map" := {[ "w" := shard1_name; "b" := shard2_name ]} ]}
           {[ "w" := shard1_name; "b" := shard2_name ]}
           {[ "w" := 1 ]} {[ "w" := 2; "b" := 5 ]});
    try reflexivity.
  - intros key fn Hk.
    apply lookup_insert_Some in Hk as [[<- <-]|[_ Hk]]; [by left|].
    apply lookup_singleton_Some in Hk as [<- <-]. by right.
  - intros key fn Hk.
    apply lookup_insert_Some in Hk as [[<- <-]|[_ Hk]]; [by eexists|].
    apply lookup_singleton_Some in Hk as [<- <-]. by eexists.
Defined.

(** C2 as stated fails twice.  When the index names a third shard for
    ["w"], the script stores the tensor ["w"] of the second shard (2), not
    the one of the shard the index names (3).  When a tensor is missing
    from the shard named for it, the script raises and produces no merged
    mapping. *)
Lemma merge_third_shard_mismatch :
  (exists fs' merged,
     merge_safetensors "index.json" "merged.safetensors" three_shards
     = (fs', Ret tt)
     /\ st_files fs' !! "merged.safetensors" = Some merged
     /\ merged !! "w" = Some 2
     /\ named_shard_tensor three_shards shard3_name "w" = Some 3)
  /\ merge_safetensors "index.json" "merged.safetensors" second_shard_short
     = (second_shard_short, Raise (KeyError "b")).
Proof.
  split.
  - eexists _, _. split; [|split; [|split]].
    + vm_compute. reflexivity.
    + vm_compute. reflexivity.
    + vm_compute. reflexivity.
    + vm_compute. reflexivity.
  - vm_compute. reflexivity.
Qed.

End MergeInstances.

(** ** Structural failures *)

Section Structural.
Import Merge Trainer.

Lemma eqb_neq_false (x y : string) : x <> y -> String.eqb x y = false.
Proof. intros H. by apply String.eqb_neq. Qed.

(** C9, amended.  In [merge_safetensors], a config without a
    ['weight_map'] key raises [KeyError], and so does an index entry whose
    tensor is absent from the shard the script reads for it (the first
    shard when the entry names it, the second shard otherwise); either way
    nothing has been written.  In
    [import_model_class_from_model_name_or_path], a first architecture other
    than [CLIPTextModel] and [CLIPTextModelWithProjection] raises
    [ValueError]. *)
Theorem structural_failures_raise :
  (forall (tensor : Type) (fs : files tensor) config_path output_path config,
     json_files fs !! config_path = Some config ->
     config !! "weight_map" = None ->
     merge_safetensors config_path output_path fs
     = (fs, Raise (KeyError "weight_map")))
  /\ (forall (tensor : Type) (fs : files tensor) config_path output_path
             config weight_map fa fb key fn,
        json_files fs !! config_path = Some config ->
        config !! "weight_map" = Some weight_map ->
        st_files fs !! shard1_path = Some fa ->
        st_files fs !! shard2_path = Some fb ->
        weight_map !! key = Some fn ->
        consulted fa fb fn !! key = None ->
        exists k, merge_safetensors config_path output_path fs
                  = (fs, Raise (KeyError k)))
  /\ (forall from_pretrained name revision subfolder cfg model_class rest,
        from_pretrained name subfolder revision = Ret cfg ->
        architectures cfg = Some (model_class :: rest) ->
        model_class <> "CLIPTextModel" ->
        model_class <> "CLIPTextModelWithProjection" ->
        import_model_class_from_model_name_or_path
          from_pretrained name revision subfolder
        = Raise (ValueError (model_class +:+ " is not supported."))).
Proof.
  split; [|split].
  - intros tensor fs cp op config Hc Hw.
    unfold merge_safetensors, mbind, prog_bind, load_json, lift, getitem.
    by rewrite Hc, Hw.
  - intros tensor fs cp op config wm fa fb key fn Hc Hw Ha Hb Hk Hnone.
    rewrite (merge_safetensors_unfold _ _ _ _ _ _ _ Hc Hw Ha Hb).
    destruct (merge_items_missing (map_to_list wm) fa fb ∅ key fn)
      as [k Hk']; [by apply elem_of_map_to_list | done |].
    exists k. by rewrite Hk'.
  - intros fp name rev sub cfg c rest Hcfg Harch H1 H2.
    unfold import_model_class_from_model_name_or_path.
    rewrite Hcfg. simpl. rewrite Harch. simpl.
    by rewrite (eqb_neq_false _ _ H1), (eqb_neq_false _ _ H2).
Qed.

End Structural.

Section StructuralInstances.
Import Merge Trainer Examples.

(** The three parts of the amended statement at concrete inputs: an index
    file without ['weight_map'], a tensor missing from the second shard, a
    T5 text encoder. *)
Lemma structural_failures_witness :
  merge_safetensors "index.json" "merged.safetensors"
    {| json_files := {[ "index.json" := ∅ ]}; st_files := ∅ : gmap _ (gmap _ Z);
       stdout := [] |}
  = ({| json_files := {[ "index.json" := ∅ ]}; st_files := ∅; stdout := [] |},
     Raise (KeyError "weight_map"))
  /\ (exists k,
        merge_safetensors "index.json" "merged.safetensors" second_shard_short
        = (second_shard_short, Raise (KeyError k)))
  /\ import_model_class_from_model_name_or_path
       (fun _ _ _ => Ret {| architectures := Some ["T5EncoderModel"] |})
       "model" "main" "text_encoder"
     = Raise (ValueError "T5EncoderModel is not supported.").
Proof.
  destruct structural_failures_raise as (Hconfig & Hshard & Harch).
  split; [|split].
  - by apply Hconfig with (config := ∅).
  - apply Hshard with
      (config := {[ "weight_map" :=
                      {[ "w" := shard1_name; "b" := shard2_name ]} ]})
      (weight_map := {[ "w" := shard1_name; "b" := shard2_name ]})
      (fa := {[ "w" := 1 ]}) (fb := {[ "w" := 2 ]})
      (key := "b") (fn := shard2_name); reflexivity.
  - exact (Harch
             (fun _ _ _ => Ret {| architectures := Some ["T5EncoderModel"] |})
             "model" "main" "text_encoder" _ "T5EncoderModel" []
             eq_refl eq_refl ltac:(discriminate) ltac:(discriminate)).
Defined.

(** C9 as stated fails for its second part: the index names a third shard
    for ["w"], the tensor is absent from that shard, and yet the script
    raises nothing and writes its output, taking ["w"] from the second
    shard. *)
Lemma absent_from_named_shard_not_raised :
  named_shard_tensor third_shard_empty shard3_name "w" = None
  /\ exists fs' merged,
       merge_safetensors "index.json" "merged.safetensors" third_shard_empty
       = (fs', Ret tt)
       /\ st_files fs' !! "merged.safetensors" = Some merged.
Proof.
  split; [vm_compute; reflexivity|].
  eexists _, _. split; vm_compute; reflexivity.
Qed.

End StructuralInstances.

(** ** [compute_loss] *)

Section Loss.
Import Trainer.
Context {F : Type} `{!Scalar F}.

Lemma chunk2_even {A} (t : list A) (k : nat) :
  length t = (2 * k)%nat -> chunk2 t = [take k t; drop k t].
Proof.
  intros Hlen. unfold chunk2. rewrite Hlen.
  destruct k as [|k].
  - destruct t; [reflexivity | discriminate].
  - assert (((2 * S k + 1) / 2)%nat = S k) as ->
      by (symmetry; apply Nat.div_unique with 1%nat; lia).
    assert ((2 * S k =? 0)%nat = false) as -> by (apply Nat.eqb_neq; lia).
    assert ((S k <? 2 * S k)%nat = true) as -> by (apply Nat.ltb_lt; lia).
    reflexivity.
Qed.

Lemma broadcast2_same (f : F -> F -> F) (x y : list F) :
  length x = length y -> broadcast2 f x y = Ret (zip_with f x y).
Proof.
  intros Hlen. unfold broadcast2.
  by assert ((length x =? length y)%nat = true) as -> by by apply Nat.eqb_eq.
Qed.

Lemma fmap_zip_with_both {A B C D} (g : C -> D) (f : B -> B -> C)
  (h : A -> B) (x y : list A) :
  g <$> zip_with f (h <$> x) (h <$> y)
  = zip_with (fun u v => g (f (h u) (h v))) x y.
Proof.
  revert y. induction x as [|u x IH]; intros [|v y]; simpl; [done..|].
  by rewrite IH.
Qed.

Lemma fmap_zip_with {A B C D} (g : C -> D) (f : A -> B -> C)
  (x : list A) (y : list B) :
  g <$> zip_with f x y = zip_with (fun u v => g (f u v)) x y.
Proof.
  revert y. induction x as [|u x IH]; intros [|v y]; simpl; [done..|].
  by rewrite IH.
Qed.

(** The per-example losses of the code are those of the specification. *)
Lemma model_losses_spec (model_pred target : list (list F)) :
  fmean <$> zip_with (zip_with (fun x y => let d := fsub x y in fmul d d))
              model_pred target
  = zip_with spec_example_mse model_pred target.
Proof. apply fmap_zip_with. Qed.

(** C3.  For [model_pred] and [target] of one shape and an even batch
    dimension, [compute_loss] returns the objective the specification
    words: the mean of the winning-half per-example MSE losses minus the
    mean of the ratio losses, the ratio loss of a pair being [beta_mapo]
    times the log-sigmoid of the margin (the difference of the
    snr-transformed winning and losing losses) scaled by the number of
    training timesteps; with it come the winning losses, the losing losses
    and the ratio losses. *)
Theorem compute_loss_refines_spec (a : args) (sched : scheduler_config)
  (model_pred target : list (list F)) :
  length <$> model_pred = length <$> target ->
  Nat.Even (length model_pred) ->
  compute_loss a sched model_pred target
  = Ret (spec_loss a sched model_pred target).
Proof.
  intros Hshape [k Hk].
  assert (length target = length model_pred) as Hlen.
  { by rewrite <- (length_fmap length target), <- Hshape, length_fmap. }
  unfold compute_loss, mse_loss_none.
  rewrite bool_decide_eq_true_2 by done. rewrite outcome_bind_ret.
  rewrite model_losses_spec.
  rewrite (chunk2_even _ k)
    by (rewrite length_zip_with_l_eq; [done | by rewrite Hlen]).
  rewrite outcome_bind_ret. rewrite !zip_with_take, !zip_with_drop.
  rewrite broadcast2_same.
  2:{ rewrite !length_fmap, !length_zip_with_l_eq;
        rewrite ?length_take, ?length_drop; lia. }
  rewrite outcome_bind_ret. unfold spec_loss.
  assert ((length model_pred / 2)%nat = k) as ->
    by (symmetry; apply Nat.div_unique with 0%nat; lia).
  rewrite <- list_fmap_compose, fmap_zip_with_both.
  reflexivity.
Qed.

End Loss.

Section LossInstances.
Import Trainer Examples.

(** The statement at a batch of two examples over the reals. *)
Lemma compute_loss_witness :
  length <$> pred2 = length <$> target2
  /\ Nat.Even (length pred2)
  /\ compute_loss (Scalar0 := real_scalar) args1024 scheduler1000 pred2 target2
     = Ret (spec_loss (Scalar0 := real_scalar) args1024 scheduler1000
              pred2 target2).
Proof.
  assert (Nat.Even (length pred2)) as Heven by (exists 1%nat; reflexivity).
  split; [reflexivity|]. split; [exact Heven|].
  exact (compute_loss_refines_spec (Scalar0 := real_scalar)
           args1024 scheduler1000 pred2 target2 eq_refl Heven).
Defined.

End LossInstances.

(** ** The pair loop of [preprocess_train] *)

Section Augment.
Import Trainer.
Context {F : Type} `{!Scalar F}.
Implicit Types (t u : tensor F).

Lemma crop_app t u (y1 x1 h w : Z) :
  crop (t ++ u) y1 x1 h w = crop t y1 x1 h w ++ crop u y1 x1 h w.
Proof. apply fmap_app. Qed.

Lemma train_flip_app t u : train_flip (t ++ u) = train_flip t ++ train_flip u.
Proof. apply fmap_app. Qed.

Lemma normalize_app t u : normalize (t ++ u) = normalize t ++ normalize u.
Proof. apply fmap_app. Qed.

(** Crop, flip and normalisation of a concatenation are those of its two
    parts, with the same offset, size and flip decision. *)
Lemma augment_one_app (y1 x1 h w : Z) (flip : bool) t u :
  augment_one y1 x1 h w flip (t ++ u)
  = augment_one y1 x1 h w flip t ++ augment_one y1 x1 h w flip u.
Proof.
  unfold augment_one. cbv zeta. rewrite crop_app.
  destruct flip; by rewrite ?train_flip_app, normalize_app.
Qed.

Lemma augment_one_length (y1 x1 h w : Z) (flip : bool) t :
  length (augment_one y1 x1 h w flip t) = length t.
Proof.
  unfold augment_one, normalize, train_flip, crop.
  destruct flip; by rewrite !length_fmap.
Qed.

Lemma shape_hw_app t u :
  shape_hw t = shape_hw u -> shape_hw (t ++ u) = shape_hw t.
Proof. destruct t; [intros Heq; symmetry; exact Heq | done]. Qed.

Lemma order_pair_shapes (a : args) (r : draws) t u (label_0 : Z) :
  shape_hw t = shape_hw u ->
  shape_hw (order_pair a r (t, u) label_0).1 = shape_hw t
  /\ shape_hw (order_pair a r (t, u) label_0).2 = shape_hw t.
Proof. intros Heq. unfold order_pair. by destruct (_ =? _). Qed.

(** C6.  A pair of tensors of one height and width (and, under
    [--random_crop], no smaller than the target) is processed by the loop
    of [preprocess_train] into the concatenation of its two images, each
    augmented with the same crop offset [(y1, x1)], the same target height
    and width and the same flip decision: splitting the result where the
    first image ends gives the two augmented images. *)
Theorem pair_augmented_alike (a : args) (r : draws) t u (label_0 : Z)
  (target_h target_w : Z) :
  shape_hw t = shape_hw u ->
  (random_crop a = true ->
   target_h <= (shape_hw t).1 /\ target_w <= (shape_hw t).2) ->
  exists y1 x1 : Z,
    let flip := negb (no_hflip a) && flt (flip_draw r) half in
    let im_tup := order_pair a r (t, u) label_0 in
    let first := augment_one y1 x1 target_h target_w flip im_tup.1 in
    let second := augment_one y1 x1 target_h target_w flip im_tup.2 in
    augment_pair a r (t, u) label_0 (target_h, target_w)
    = Ret (first ++ second, (y1, x1))
    /\ take (length im_tup.1) (first ++ second) = first
    /\ drop (length im_tup.1) (first ++ second) = second.
Proof.
  intros Hshape Hfits.
  destruct (order_pair_shapes a r t u label_0 Hshape) as [Hs1 Hs2].
  unfold augment_pair.
  destruct (order_pair a r (t, u) label_0) as [p q]. simpl in Hs1, Hs2.
  cbn [fst snd]. unfold cat.
  rewrite bool_decide_eq_true_2 by congruence. rewrite outcome_bind_ret.
  assert (shape_hw (p ++ q) = shape_hw t) as Hpq
    by (rewrite shape_hw_app; congruence).
  assert (forall y1 x1 flip,
    take (length p) (augment_one y1 x1 target_h target_w flip p
                     ++ augment_one y1 x1 target_h target_w flip q)
    = augment_one y1 x1 target_h target_w flip p
    /\ drop (length p) (augment_one y1 x1 target_h target_w flip p
                        ++ augment_one y1 x1 target_h target_w flip q)
       = augment_one y1 x1 target_h target_w flip q) as Hsplit.
  { intros y1 x1 flip. split.
    - by rewrite take_app_length' by by rewrite augment_one_length.
    - by rewrite drop_app_length' by by rewrite augment_one_length. }
  destruct (random_crop a) eqn:Hrc; simpl negb; cbv iota.
  - unfold get_params. rewrite Hpq.
    destruct (shape_hw t) as [H W] eqn:Ht. simpl in Hfits.
    destruct (Hfits eq_refl) as [Hh Hw].
    assert ((H <? target_h) || (W <? target_w) = false) as ->
      by (apply orb_false_iff; lia).
    destruct ((W =? target_w) && (H =? target_h)).
    + exists 0, 0. cbv zeta. rewrite !outcome_bind_ret.
      split; [|apply Hsplit].
      rewrite <- augment_one_app. reflexivity.
    + exists (crop_i r), (crop_j r). cbv zeta. rewrite !outcome_bind_ret.
      split; [|apply Hsplit].
      rewrite <- augment_one_app. reflexivity.
  - rewrite Hpq. destruct (shape_hw t) as [H W].
    eexists _, _. cbv zeta. rewrite outcome_bind_ret.
    split; [|apply Hsplit].
    rewrite <- augment_one_app. reflexivity.
Qed.

(** The noise flip commutes with the flip of a binary label. *)
Lemma noisy_label_flip (a : args) (r : draws) (label_0 : Z) :
  noisy_label a r (1 - label_0) = 1 - noisy_label a r label_0.
Proof.
  unfold noisy_label. destruct (label_noise_prob a) as [p|]; [|done].
  destruct (flt _ _); lia.
Qed.

(** Swapping the two images and flipping a binary label leaves the order
    in which the loss reads the pair unchanged. *)
Lemma order_pair_swap_flip (a : args) (r : draws) t u (label_0 : Z) :
  label_0 = 0 \/ label_0 = 1 ->
  order_pair a r (u, t) (1 - label_0) = order_pair a r (t, u) label_0.
Proof.
  intros Hbin. unfold order_pair. rewrite noisy_label_flip.
  assert (noisy_label a r label_0 = 0 \/ noisy_label a r label_0 = 1)
    as [-> | ->]; [|reflexivity..].
  unfold noisy_label. destruct (label_noise_prob a); [|done].
  destruct (flt _ _); lia.
Qed.

(** On tensors that are already of one size: swapping the pair and
    flipping a binary label gives the same augmented pixel values. *)
Lemma augment_pair_swap_flip (a : args) (r : draws) t u (label_0 : Z)
  (target : Z * Z) :
  label_0 = 0 \/ label_0 = 1 ->
  augment_pair a r (u, t) (1 - label_0) target
  = augment_pair a r (t, u) label_0 target.
Proof.
  intros Hbin. unfold augment_pair. destruct target as [th tw].
  by rewrite (order_pair_swap_flip a r t u label_0 Hbin).
Qed.

(** Whether [process_image] resizes, and whether the resize raises,
    depends on the size of the image only. *)
Lemma process_image_size (Resize : Z -> Z -> tensor F -> tensor F)
  (img : image) (th tw : Z) :
  process_image Resize img th tw
  = if (height img >? th) || (width img >? tw)
    then if (th <=? 0) || (tw <=? 0)
         then Raise (RuntimeError
                       "Input and output sizes should be greater than 0")
         else Ret (Resize th tw (to_tensor img))
    else Ret (to_tensor img).
Proof. reflexivity. Qed.

(** C4, amended.  For two images of one height and width and a binary
    preference label, exchanging the two images of a pair (which half is
    "winning") while flipping the label to [1 - label_0] gives
    [preprocess_train] the same target size and the same ordered pair,
    hence the same pixel values (or the same exception), and
    [compute_loss] the same [model_pred] and [target]: the scalar loss is
    the same, whatever the interpolation, the training step, the noise and
    the other random draws. *)
Theorem swap_and_flip_same_loss (Resize : Z -> Z -> tensor F -> tensor F)
  (resample : image -> Z * Z -> image) (a : args)
  (sched : scheduler_config)
  (training_step : tensor F -> list (list F) * list (list F))
  (r : draws) (jpg_0 jpg_1 : image) (label_0 : Z) :
  label_0 = 0 \/ label_0 = 1 ->
  height jpg_1 = height jpg_0 -> width jpg_1 = width jpg_0 ->
  preprocess_example Resize resample a r jpg_1 jpg_0 (1 - label_0)
  = preprocess_example Resize resample a r jpg_0 jpg_1 label_0
  /\ pair_loss a sched training_step
       (preprocess_example Resize resample a r jpg_1 jpg_0 (1 - label_0))
     = pair_loss a sched training_step
         (preprocess_example Resize resample a r jpg_0 jpg_1 label_0).
Proof.
  intros Hbin Hh Hw.
  assert (preprocess_example Resize resample a r jpg_1 jpg_0 (1 - label_0)
          = preprocess_example Resize resample a r jpg_0 jpg_1 label_0)
    as Hsame; [|by rewrite Hsame].
  unfold preprocess_example. cbv zeta. simpl fst. simpl snd.
  rewrite Hh, Hw.
  destruct (calculate_adaptive_size _ _ _ _) as [[th tw]|e]; [|reflexivity].
  change (Ret (th, tw) ≫= ?f) with (f (th, tw)). cbv beta iota.
  assert (image_resize resample jpg_0 (width jpg_0, height jpg_0) = jpg_0)
    as ->.
  { unfold image_resize. by rewrite decide_True. }
  assert (image_resize resample jpg_1 (width jpg_0, height jpg_0) = jpg_1)
    as ->.
  { unfold image_resize. rewrite decide_True; [done|]. by rewrite Hh, Hw. }
  rewrite !process_image_size, Hh, Hw.
  destruct ((height jpg_0 >? th) || (width jpg_0 >? tw));
    [destruct ((th <=? 0) || (tw <=? 0)); [reflexivity|]|];
    change (Ret ?x ≫= ?f) with (f x); cbv beta;
    apply augment_pair_swap_flip, Hbin.
Qed.

End Augment.

Section AugmentInstances.
Import Trainer Examples.

(** The statement at two 2 x 2 tiles, cropped to 2 x 2 at the centre. *)
Lemma pair_augmented_witness :
  shape_hw tile_a = shape_hw tile_b
  /\ exists y1 x1 : Z,
       augment_pair (Scalar0 := real_scalar) args1024 draws0
         (tile_a, tile_b) 1 (2, 2)
       = Ret (augment_one (Scalar0 := real_scalar) y1 x1 2 2 false tile_a
              ++ augment_one (Scalar0 := real_scalar) y1 x1 2 2 false tile_b,
              (y1, x1)).
Proof.
  split; [reflexivity|].
  destruct (pair_augmented_alike (Scalar0 := real_scalar) args1024 draws0
              tile_a tile_b 1 2 2 eq_refl) as (y1 & x1 & Hret & _).
  - discriminate.
  - exists y1, x1. exact Hret.
Defined.

(** The amended statement at two images of 8 x 8 pixels and the label
    1. *)
Lemma swap_and_flip_witness :
  (1 = 0 \/ 1 = 1)
  /\ height white8 = height grey8 /\ width white8 = width grey8
  /\ pair_loss (Scalar0 := real_scalar) args1024 scheduler1000 rows_step
       (preprocess_example (Scalar0 := real_scalar) grey_resize
          grey_resample args1024 draws0 white8 grey8 (1 - 1))
     = pair_loss (Scalar0 := real_scalar) args1024 scheduler1000 rows_step
         (preprocess_example (Scalar0 := real_scalar) grey_resize
            grey_resample args1024 draws0 grey8 white8 1).
Proof.
  split; [by right|]. split; [reflexivity|]. split; [reflexivity|].
  refine (proj2 (swap_and_flip_same_loss (Scalar0 := real_scalar) grey_resize
                   grey_resample args1024 scheduler1000 rows_step draws0
                   grey8 white8 1 _ eq_refl eq_refl)).
  by right.
Defined.

(** The loss of a pair of planes of one number of rows under [rows_step]:
    the margin of the pair is 0. *)
Lemma pair_loss_rows_step (p q : plane R) (o : Z * Z) :
  length p = length q ->
  pair_loss (Scalar0 := real_scalar) args1024 scheduler1000 rows_step
    (Ret ([p; q], o))
  = Ret (INR (length p) * INR (length p)
         - real_of_float (beta_mapo args1024)
           * - ln (1 + exp (- (0 * 1000))))%R.
Proof.
  intros Hlen. unfold pair_loss, rows_step, mbind, outcome_bind.
  cbv beta iota. simpl fst. simpl snd. simpl fmap.
  rewrite <- Hlen.
  set (n := INR (length p)).
  unfold compute_loss, mse_loss_none, mbind, outcome_bind.
  set (snr := snr_term (Scalar0 := real_scalar) args1024).
  set (beta := of_float (Scalar := real_scalar) (beta_mapo args1024)).
  change (real_of_float (beta_mapo args1024)) with beta.
  simpl fmap. rewrite bool_decide_eq_true_2 by reflexivity.
  cbn -[INR snr beta].
  rewrite Rminus_diag. change (INR 1) with 1%R.
  set (k := ln _). f_equal. lra.
Qed.

(** C4 as stated fails for images of different sizes: the target size is
    taken from [jpg_0] and [jpg_1] is resized to it, so the pair
    (8 x 8, 16 x 16) with label 1 is trained at 8 x 8 pixels and the
    swapped pair with label 0 at 16 x 16 pixels; with a training step that
    predicts the number of pixel rows the two losses differ. *)
Lemma swap_and_flip_sizes_differ :
  exists (pv pv' : tensor R) (o o' : Z * Z) (loss loss' : R),
    preprocess_example (Scalar0 := real_scalar) grey_resize grey_resample
      args1024 draws0 grey8 grey16 1 = Ret (pv, o)
    /\ preprocess_example (Scalar0 := real_scalar) grey_resize grey_resample
         args1024 draws0 grey16 grey8 (1 - 1) = Ret (pv', o')
    /\ shape_hw pv = (8, 8) /\ shape_hw pv' = (16, 16)
    /\ pair_loss (Scalar0 := real_scalar) args1024 scheduler1000 rows_step
         (Ret (pv, o)) = Ret loss
    /\ pair_loss (Scalar0 := real_scalar) args1024 scheduler1000 rows_step
         (Ret (pv', o')) = Ret loss'
    /\ loss <> loss'.
Proof.
  assert (exists p q o,
            preprocess_example (Scalar0 := real_scalar) grey_resize
              grey_resample args1024 draws0 grey8 grey16 1 = Ret ([p; q], o)
            /\ shape_hw [p; q] = (8, 8)
            /\ length p = 8%nat /\ length q = 8%nat)
    as (p & q & o & Hrun & Hshape & Hp & Hq).
  { eexists _, _, _. split; [vm_compute; reflexivity|]. repeat split. }
  assert (exists p q o,
            preprocess_example (Scalar0 := real_scalar) grey_resize
              grey_resample args1024 draws0 grey16 grey8 (1 - 1)
            = Ret ([p; q], o)
            /\ shape_hw [p; q] = (16, 16)
            /\ length p = 16%nat /\ length q = 16%nat)
    as (p' & q' & o' & Hrun' & Hshape' & Hp' & Hq').
  { eexists _, _, _. split; [vm_compute; reflexivity|]. repeat split. }
  eexists _, _, _, _, _, _.
  split; [exact Hrun|]. split; [exact Hrun'|].
  split; [exact Hshape|]. split; [exact Hshape'|].
  split; [apply pair_loss_rows_step; congruence|].
  split; [apply pair_loss_rows_step; congruence|].
  rewrite Hp, Hp'. simpl. lra.
Qed.

End AugmentInstances.

(** ** The generation driver *)

Section Driver.
Import Sampler.
Variables (E : env) (a : args).

Lemma with_log_nil (s : state) : with_log s [] = s.
Proof. destruct s. unfold with_log. simpl. by rewrite app_nil_r. Qed.

Lemma with_log_app (s : state) (evs evs' : list event) :
  with_log (with_log s evs) evs' = with_log s (evs ++ evs').
Proof. unfold with_log. simpl. by rewrite fmap_app, app_assoc. Qed.

Lemma emit_run (ev : event) (s : state) :
  emit ev s = (with_log s [ev], Ret tt).
Proof. reflexivity. Qed.

Lemma emit_outside_run (ev : event) (s : state) :
  emit_outside ev s = (outside s ev, Ret tt).
Proof. reflexivity. Qed.

Lemma outside_log (s : state) (ev : event) (k : entry) (ev' : event) :
  (Some k, ev') ∈ log (outside s ev) -> (Some k, ev') ∈ log s.
Proof.
  intros Hin. apply elem_of_app in Hin as [Hin|Hin]; [done|].
  apply list_elem_of_singleton in Hin. discriminate.
Qed.

Lemma prog_bind_run {S A B} (m : prog S A) (k : A -> prog S B) (s : S) :
  (m ≫= k) s = match m s with
               | (s', Ret x) => k x s'
               | (s', Raise e) => (s', Raise e)
               end.
Proof. reflexivity. Qed.

(** [fetch_image_from_api] posts the request; when the request raises it
    prints the error and returns the empty list. *)
Lemma fetch_image_from_api_run (api_url : string) (body : image_data)
  (s : state) :
  fetch_image_from_api E api_url body s
  = match post E (current s) api_url body with
    | Ret images => (with_log s [Post api_url body], Ret images)
    | Raise e =>
        (with_log s [Post api_url body; PrintApiError e], Ret [])
    end.
Proof.
  unfold fetch_image_from_api, try_except.
  rewrite prog_bind_run, emit_run, prog_bind_run. unfold reads, lift. simpl.
  destruct (post E (current s) api_url body) as [images|e]; [done|].
  by rewrite prog_bind_run, emit_run, with_log_app.
Qed.

Lemma save_output_run (dir base : string) (i : nat) (b : string)
  (s : state) :
  let path := path_join dir (base +:+ "_DPO" +:+ pretty (S i) +:+ ".webp") in
  save_output E dir base (i, b) s
  = match store E (current s) i b path with
    | Ret _ => (with_log s [SaveWebp path b], Ret tt)
    | Raise e => (s, Raise e)
    end.
Proof.
  unfold save_output. cbv zeta. rewrite prog_bind_run. unfold reads.
  rewrite prog_bind_run. unfold lift.
  destruct (store E (current s) i b _) as [[]|e]; [apply emit_run | done].
Qed.

(** The save loop logs saves only, and nothing else changes. *)
Lemma save_loop_run (dir base : string) (items : list (nat * string))
  (s : state) :
  exists evs r,
    for_each items (save_output E dir base) s = (with_log s evs, r)
    /\ Forall is_save evs.
Proof.
  revert s. induction items as [|[i b] items IH]; intros s.
  - exists [], (Ret tt). by rewrite with_log_nil.
  - cbn [for_each]. rewrite prog_bind_run, save_output_run.
    destruct (store E (current s) i b _) as [[]|e].
    + destruct (IH (with_log s [SaveWebp
                      (path_join dir (base +:+ "_DPO" +:+ pretty (S i)
                                      +:+ ".webp")) b]))
        as (evs & r & -> & Hall).
      eexists _, r. rewrite with_log_app. split; [done|].
      constructor; [by eexists _, _ | done].
    + exists [], (Raise e). by rewrite with_log_nil.
Qed.

(** What the [try] block does for one entry: it completes behind the
    events it logged, or it raises behind them; a failed request is never
    followed by a save nor by an exception. *)
Lemma try_entry_run (dir url artist n : string) (info : image_info)
  (s : state) :
  exists evs,
    (try_entry E a dir url artist n info s
     = (completed a artist n s evs, Ret tt)
     \/ exists e,
         try_entry E a dir url artist n info s = (with_log s evs, Raise e)
         /\ forall e', PrintApiError e' ∉ evs)
    /\ (forall e', PrintApiError e' ∈ evs ->
        forall path b, SaveWebp path b ∉ evs).
Proof.
  destruct (try_entry E a dir url artist n info s) as [st r] eqn:Hrun.
  unfold try_entry in Hrun. rewrite prog_bind_run in Hrun.
  unfold lift at 1 in Hrun.
  destruct (calculate_adjusted_resolution _ _ _ _) as [[w h]|e].
  2:{ injection Hrun as <- <-. exists []. split; [right; exists e|].
      - rewrite with_log_nil. split; [done|]. intros e'. apply not_elem_of_nil.
      - intros e' Hin. by apply elem_of_nil in Hin. }
  rewrite prog_bind_run in Hrun. unfold reads at 1 in Hrun.
  rewrite prog_bind_run, fetch_image_from_api_run in Hrun.
  set (body := Build_image_data _ _ _ _ _ _ _ _ _ _ _ _ _ _) in Hrun.
  assert (forall evs,
    (modify (set_generated artist n) ≫= fun _ => dump_manifest a)
      (with_log s evs) = (completed a artist n s evs, Ret tt)) as Hdone.
  { intros evs. unfold completed. rewrite fmap_app, app_assoc.
    reflexivity. }
  destruct (post E (current s) url body) as [images|e].
  - rewrite prog_bind_run in Hrun. unfold save_outputs in Hrun.
    destruct (save_loop_run dir (stem n) (imap (fun i b => (i, b)) images)
                (with_log s [Post url body])) as (evs & r' & Hloop & Hsaves).
    rewrite Hloop, with_log_app in Hrun. exists ([Post url body] ++ evs).
    assert (forall e', PrintApiError e' ∉ [Post url body] ++ evs) as Hno.
    { intros e' Hin. apply elem_of_app in Hin as [Hin|Hin].
      - apply list_elem_of_singleton in Hin. discriminate.
      - rewrite Forall_forall in Hsaves.
        destruct (Hsaves _ Hin) as (? & ? & ?). discriminate. }
    split; [|intros e' Hin; by destruct (Hno e')].
    destruct r' as [[]|e].
    + left. by rewrite Hdone in Hrun.
    + right. exists e. by split.
  - rewrite prog_bind_run in Hrun. unfold save_outputs in Hrun.
    cbn [imap for_each] in Hrun.
    unfold mret at 1, prog_ret at 1 in Hrun. rewrite Hdone in Hrun.
    exists [Post url body; PrintApiError e]. split; [by left|].
    intros e' _ path b Hin.
    apply elem_of_cons in Hin as [?|Hin]; [discriminate|].
    apply list_elem_of_singleton in Hin. discriminate.
Qed.


(** ** Loops *)

Lemma for_each_inv {S A} (P : S -> Prop) (items : list A)
  (body : A -> prog S unit) :
  (forall x s, x ∈ items -> P s -> P (body x s).1) ->
  forall s, P s -> P (for_each items body s).1.
Proof.
  induction items as [|x items IH]; intros Hstep s Hs; [done|].
  cbn [for_each]. rewrite prog_bind_run.
  pose proof (Hstep x s ltac:(left) Hs) as Hx.
  destruct (body x s) as [s' [[]|e]]; [|done].
  apply IH; [|done]. intros y s0 Hy. apply Hstep. by right.
Qed.

Lemma for_each_total {S A} (items : list A) (body : A -> prog S unit) :
  (forall x s, x ∈ items -> (body x s).2 = Ret tt) ->
  forall s, (for_each items body s).2 = Ret tt.
Proof.
  induction items as [|x items IH]; intros Hstep s; [done|].
  cbn [for_each]. rewrite prog_bind_run.
  pose proof (Hstep x s ltac:(left)) as Hx.
  destruct (body x s) as [s' [[]|e]]; [|done].
  apply IH. intros y s0 Hy. apply Hstep. by right.
Qed.

(** ** One entry *)

Lemma process_entry_skip (dir url artist n : string) (info : image_info)
  (s : state) :
  generated info = Some true ->
  process_entry E a dir url artist (n, info) s = (s, Ret tt).
Proof.
  intros Hgen. unfold process_entry.
  by rewrite bool_decide_eq_true_2.
Qed.

Lemma process_entry_pending (dir url artist n : string) (info : image_info)
  (s : state) :
  generated info <> Some true ->
  exists evs s1,
    process_entry E a dir url artist (n, info) s = (s1, Ret tt)
    /\ current s1 = None
    /\ log s1 = log s ++ tagged (artist, n) evs
    /\ (ends_completed a artist n s s1 evs \/ ends_failed a artist n s s1 evs)
    /\ (forall e', PrintApiError e' ∈ evs ->
        forall path b, SaveWebp path b ∉ evs).
Proof.
  intros Hgen. unfold process_entry.
  rewrite bool_decide_eq_false_2 by done.
  rewrite prog_bind_run. unfold set_current at 1, modify at 1.
  rewrite prog_bind_run. unfold try_except.
  set (s0 := Build_state (data s) (disk s) (Some (artist, n)) (log s)).
  destruct (try_entry_run dir url artist n info s0)
    as (evs & [Hrun | (e & Hrun & Hno)] & Hsave); rewrite Hrun.
  - exists (evs ++ [DumpJson (json_path a)
                      (alter (alter mark_generated n) artist (data s))]).
    eexists. split; [reflexivity|]. split; [reflexivity|].
    split; [reflexivity|]. split.
    + left. repeat split. simpl. by rewrite last_snoc.
    + intros e' Hin path b Hin'.
      apply elem_of_app in Hin as [Hin|Hin];
        [|apply list_elem_of_singleton in Hin; discriminate].
      apply elem_of_app in Hin' as [Hin'|Hin'];
        [|apply list_elem_of_singleton in Hin'; discriminate].
      by apply (Hsave e' Hin path b).
  - rewrite emit_run. exists (evs ++ [PrintItemError n artist e]).
    eexists. split; [reflexivity|]. split; [reflexivity|]. split.
    { simpl. unfold tagged. by rewrite !fmap_app, app_assoc. }
    assert (forall e', PrintApiError e' ∉ evs ++ [PrintItemError n artist e])
      as Hno'.
    { intros e' Hin. apply elem_of_app in Hin as [Hin|Hin];
        [by apply (Hno e') | apply list_elem_of_singleton in Hin; discriminate]. }
    split.
    + right. repeat split; [|exact Hno']. exists e. by rewrite last_snoc.
    + intros e' Hin. by destruct (Hno' e').
Qed.

Lemma process_entry_returns (dir url artist : string)
  (item : string * image_info) (s : state) :
  (process_entry E a dir url artist item s).2 = Ret tt.
Proof.
  destruct item as [n info].
  destruct (decide (generated info = Some true)) as [Hgen|Hgen].
  - by rewrite process_entry_skip.
  - by destruct (process_entry_pending dir url artist n info s Hgen)
      as (evs & s1 & -> & _).
Qed.


Lemma for_each_visits {S A} (Q : A -> S -> Prop) (items : list A)
  (body : A -> prog S unit) :
  (forall x s, x ∈ items -> (body x s).2 = Ret tt) ->
  (forall x s, x ∈ items -> Q x (body x s).1) ->
  (forall x y s, y ∈ items -> Q x s -> Q x (body y s).1) ->
  forall s x, x ∈ items -> Q x (for_each items body s).1.
Proof.
  induction items as [|y items IH]; intros Htot Hest Hmono s x Hin.
  - by apply elem_of_nil in Hin.
  - cbn [for_each]. rewrite prog_bind_run.
    pose proof (Htot y s ltac:(left)) as Hy.
    pose proof (Hest y s ltac:(left)) as Hqy.
    pose proof (fun Hq => Hmono x y s ltac:(left) Hq) as Hqx.
    destruct (body y s) as [s' [[]|e]]; [|done]. simpl in *.
    apply elem_of_cons in Hin as [->|Hin].
    + apply for_each_inv; [|done]. intros z s0 Hz. apply Hmono. by right.
    + apply IH; [| | |done].
      * intros z s0 Hz. apply Htot. by right.
      * intros z s0 Hz. apply Hest. by right.
      * intros z z' s0 Hz. apply Hmono. by right.
Qed.

(** ** Records under [set_generated] *)

Lemma record_of_alter (d : manifest) (artist n : string) (k : entry) :
  record_of (alter (alter mark_generated n) artist d) k
  = if decide (k = (artist, n)) then mark_generated <$> record_of d k
    else record_of d k.
Proof.
  destruct k as [k1 k2]. unfold record_of. simpl.
  rewrite lookup_alter.
  destruct (decide (artist = k1)) as [<-|Hne1].
  - destruct (d !! artist) as [imgs|]; simpl.
    + rewrite lookup_alter.
      destruct (decide (n = k2)) as [<-|Hne2].
      * by rewrite decide_True.
      * rewrite decide_False; [done | congruence].
    + by destruct (decide _).
  - rewrite decide_False; [done | congruence].
Qed.

Lemma record_of_lookup (d : manifest) (artist n : string)
  (imgs : gmap string image_info) :
  d !! artist = Some imgs -> record_of d (artist, n) = imgs !! n.
Proof. intros Hd. unfold record_of. simpl. by rewrite Hd. Qed.

Lemma marked_alter (d : manifest) (artist n : string) (k : entry) :
  marked d k -> marked (alter (alter mark_generated n) artist d) k.
Proof.
  intros (i & Hi & Hgen). unfold marked. rewrite record_of_alter, Hi.
  destruct (decide _); simpl; eauto.
Qed.

(** ** One artist *)

Lemma process_artist_images_run (artist : string)
  (images_info : gmap string image_info) (out url : string) (s : state) :
  let dir := path_join out artist in
  process_artist_images E artist images_info out url a s
  = match mkdir E dir with
    | Ret _ =>
        for_each (map_to_list images_info)
          (process_entry E a dir url artist) (outside s (Mkdir dir))
    | Raise e => (outside s (Mkdir dir), Raise e)
    end.
Proof.
  cbv zeta. unfold process_artist_images.
  rewrite prog_bind_run, emit_outside_run, prog_bind_run. unfold lift.
  by destruct (mkdir E _) as [[]|e].
Qed.

Lemma process_entry_artist_inv (dir url artist : string)
  (images_info : gmap string image_info) (s0 s : state)
  (item : string * image_info) :
  item ∈ map_to_list images_info ->
  artist_inv artist images_info s0 s ->
  artist_inv artist images_info s0
    (process_entry E a dir url artist item s).1.
Proof.
  destruct item as [n info]. intros Hin (Hlog & Hdata).
  apply elem_of_map_to_list in Hin.
  destruct (decide (generated info = Some true)) as [Hgen|Hgen].
  { by rewrite process_entry_skip. }
  destruct (process_entry_pending dir url artist n info s Hgen)
    as (evs & s1 & -> & Hcur1 & Hlog1 & Hends & _). simpl.
  assert (pending_in images_info artist (artist, n)) as Hpend
    by by exists info.
  split.
  - intros k ev Hk. rewrite Hlog1 in Hk.
    apply elem_of_app in Hk as [Hk|Hk]; [by apply Hlog|].
    apply list_elem_of_fmap in Hk as (ev' & [= -> ->] & _). by right.
  - intros k Hk. rewrite <- (Hdata k Hk).
    destruct Hends as [(-> & _)|(-> & _)]; [|done].
    rewrite record_of_alter. destruct (decide _) as [->|]; [done|done].
Qed.

Lemma process_artist_images_inv (artist : string)
  (images_info : gmap string image_info) (out url : string) (s : state) :
  artist_inv artist images_info s
    (process_artist_images E artist images_info out url a s).1.
Proof.
  rewrite process_artist_images_run.
  assert (artist_inv artist images_info s
            (outside s (Mkdir (path_join out artist)))) as Hstart.
  { split; [|done]. intros k ev Hk. left. by apply outside_log in Hk. }
  destruct (mkdir E _) as [[]|e]; [|done].
  apply for_each_inv; [|done].
  intros item s' Hin. by apply process_entry_artist_inv.
Qed.

(** C7.  For an entry of [images_info] whose [generated] flag is true,
    [process_artist_images] logs no event for the entry (no request, no
    saved file, no rewrite of the manifest) and leaves its record as it
    was; every event it logs for an entry belongs to an entry of
    [images_info] that is not marked. *)
Theorem generated_entries_skipped (artist : string)
  (images_info : gmap string image_info) (out url : string) (s : state)
  (name : string) (info : image_info) :
  images_info !! name = Some info ->
  generated info = Some true ->
  let s1 := (process_artist_images E artist images_info out url a s).1 in
  (forall ev, (Some (artist, name), ev) ∈ log s1 ->
              (Some (artist, name), ev) ∈ log s)
  /\ record_of (data s1) (artist, name) = record_of (data s) (artist, name)
  /\ (forall k ev, (Some k, ev) ∈ log s1 ->
        (Some k, ev) ∈ log s \/ pending_in images_info artist k).
Proof.
  intros Hname Hgen s1.
  destruct (process_artist_images_inv artist images_info out url s)
    as (Hlog & Hdata).
  assert (~ pending_in images_info artist (artist, name)) as Hnot.
  { intros (i & _ & Hi & Hpend). simpl in Hi. congruence. }
  split; [|split; [by apply Hdata | exact Hlog]].
  intros ev Hev. by destruct (Hlog _ _ Hev).
Qed.


(** ** Failures of one entry do not stop the loop *)

Lemma process_entry_log_grows (dir url artist : string)
  (item : string * image_info) (s : state) x :
  x ∈ log s -> x ∈ log (process_entry E a dir url artist item s).1.
Proof.
  destruct item as [n info]. intros Hx.
  destruct (decide (generated info = Some true)) as [Hgen|Hgen].
  { by rewrite process_entry_skip. }
  destruct (process_entry_pending dir url artist n info s Hgen)
    as (evs & s1 & -> & _ & Hlog & _). simpl. rewrite Hlog.
  apply elem_of_app. by left.
Qed.

Lemma process_entry_handles (dir url artist : string)
  (item : string * image_info) (s : state) :
  handled a artist item (process_entry E a dir url artist item s).1.
Proof.
  destruct item as [n info]. intros Hgen. simpl in Hgen.
  destruct (process_entry_pending dir url artist n info s Hgen)
    as (evs & s1 & -> & _ & Hlog & Hends & _). simpl. rewrite Hlog.
  assert (exists ev, ev ∈ evs
            /\ ((exists d, ev = DumpJson (json_path a) d)
                \/ exists e, ev = PrintItemError n artist e))
    as (ev & Hev & Hkind).
  { destruct Hends as [(_ & _ & Hlast)|(_ & _ & [e Hlast] & _)];
      apply last_Some_elem_of in Hlast; eauto 6. }
  exists ev. split; [|done].
  apply elem_of_app. right. by apply list_elem_of_fmap_2.
Qed.

(** When the directory of the artist can be made, the loop over its
    entries returns normally and has handled every entry that was not
    marked. *)
Lemma pending_entries_handled (artist : string)
  (images_info : gmap string image_info) (out url : string) (s : state) :
  mkdir E (path_join out artist) = Ret tt ->
  exists s1,
    process_artist_images E artist images_info out url a s = (s1, Ret tt)
    /\ forall n i, images_info !! n = Some i -> handled a artist (n, i) s1.
Proof.
  intros Hmk. rewrite process_artist_images_run. cbv zeta. rewrite Hmk.
  set (loop := for_each _ _ _).
  exists loop.1. split.
  - rewrite (surjective_pairing loop). f_equal.
    apply for_each_total. intros item s' _. apply process_entry_returns.
  - intros n i Hn. apply (for_each_visits (handled a artist)).
    + intros item s' _. apply process_entry_returns.
    + intros item s' _. apply process_entry_handles.
    + intros item item' s' _ Hh Hgen.
      destruct (Hh Hgen) as (ev & Hev & Hkind).
      exists ev. split; [by apply process_entry_log_grows | done].
    + by apply elem_of_map_to_list.
Qed.

(** An exception of the [try] block is caught: the error is printed for
    the entry and the iteration returns normally. *)
Lemma raised_entry_logged (dir url artist n : string) (info : image_info)
  (s st : state) (e : exn) :
  generated info <> Some true ->
  try_entry E a dir url artist n info
    {| data := data s; disk := disk s; current := Some (artist, n);
       log := log s |} = (st, Raise e) ->
  process_entry E a dir url artist (n, info) s
  = ({| data := data st; disk := disk st; current := None;
        log := log st ++ [(Some (artist, n), PrintItemError n artist e)] |},
     Ret tt).
Proof.
  intros Hgen Hrun. unfold process_entry.
  rewrite bool_decide_eq_false_2 by done.
  rewrite prog_bind_run. unfold set_current at 1, modify at 1.
  rewrite prog_bind_run. unfold try_except. rewrite Hrun.
  destruct (try_entry_run dir url artist n info
              (Build_state (data s) (disk s) (Some (artist, n)) (log s)))
    as (evs & [Hok | (e' & Hfail & _)] & _); [congruence|].
  rewrite Hrun in Hfail. injection Hfail as -> <-. reflexivity.
Qed.

(** ** Whole runs *)

Lemma run_unfold (files : gmap string manifest) :
  let out := output_dir a in
  let url := "http://" +:+ host a +:+ ":" +:+ pretty (port a)
             +:+ "/sdapi/v1/txt2img" in
  let started := outside (boot files) (Mkdir out) in
  run E a files
  = match mkdir E out with
    | Raise e => (started, Raise e)
    | Ret _ =>
        match files !! json_path a with
        | None => (started, Raise (OSError "No such file or directory"))
        | Some d =>
            for_each (map_to_list d)
              (fun '(artist_name, images_info) =>
                 process_artist_images E artist_name images_info out url a)
              {| data := d; disk := files; current := None;
                 log := [(None, Mkdir out)] |}
        end
    end.
Proof.
  cbv zeta. unfold run, generate_images_from_json.
  rewrite prog_bind_run, emit_outside_run, prog_bind_run. unfold lift.
  destruct (mkdir E _) as [[]|e]; [|done].
  rewrite prog_bind_run. unfold load_manifest. simpl.
  by destruct (files !! json_path a).
Qed.

Lemma process_entry_keeps (d : manifest) (k : entry) (dir url artist : string)
  (imgs : gmap string image_info) (item : string * image_info) (s : state) :
  d !! artist = Some imgs ->
  item ∈ map_to_list imgs ->
  keeps a d k s -> keeps a d k (process_entry E a dir url artist item s).1.
Proof.
  destruct item as [n info]. intros Hd Hin [Hpresent Hkeep].
  apply elem_of_map_to_list in Hin.
  destruct (decide (generated info = Some true)) as [Hgen|Hgen].
  { by rewrite process_entry_skip. }
  destruct (process_entry_pending dir url artist n info s Hgen)
    as (evs & s1 & -> & _ & Hlog & Hends & _). simpl.
  split.
  - intros k' Hk'. apply Hpresent in Hk'.
    destruct Hends as [(-> & _)|(-> & _)]; [|done].
    rewrite record_of_alter. destruct (decide _); [|done].
    by apply fmap_is_Some.
  - intros [e He]. rewrite Hlog in He.
    apply elem_of_app in He as [He|He].
    + destruct (Hkeep ltac:(eauto)) as (Hmem & m & Hm & Hdisk).
      destruct Hends as [(Hdata & Hdisk1 & _)|(-> & -> & _)]; [|eauto].
      assert (marked (data s1) k) as Hmem1
        by (rewrite Hdata; by apply marked_alter).
      split; [done|]. exists (data s1).
      by rewrite Hdisk1, lookup_insert_eq.
    + apply list_elem_of_fmap in He as (ev & [= -> <-] & He).
      destruct Hends as [(Hdata & Hdisk1 & _)|(_ & _ & _ & Hno)];
        [|by destruct (Hno e)].
      assert (marked (data s1) (artist, n)) as Hmem1.
      { destruct (Hpresent (artist, n)) as [i0 Hi0].
        { rewrite (record_of_lookup _ _ _ _ Hd). eauto. }
        exists (mark_generated i0). split; [|done].
        by rewrite Hdata, record_of_alter, decide_True, Hi0. }
      split; [done|]. exists (data s1).
      by rewrite Hdisk1, lookup_insert_eq.
Qed.

Lemma process_artist_images_keeps (d : manifest) (k : entry)
  (artist : string) (imgs : gmap string image_info) (out url : string)
  (s : state) :
  d !! artist = Some imgs ->
  keeps a d k s ->
  keeps a d k (process_artist_images E artist imgs out url a s).1.
Proof.
  intros Hd [Hpresent Hkeep]. rewrite process_artist_images_run.
  assert (keeps a d k (outside s (Mkdir (path_join out artist)))) as Hstart.
  { split; [done|]. intros [e He]. apply Hkeep. exists e.
    by apply outside_log in He. }
  destruct (mkdir E _) as [[]|e]; [|done].
  apply for_each_inv; [|done].
  intros item s' Hin. by apply process_entry_keeps with imgs.
Qed.

Lemma run_keeps_marked (files : gmap string manifest) (k : entry) (e : exn) :
  (Some k, PrintApiError e) ∈ log (run E a files).1 ->
  exists m, disk (run E a files).1 !! json_path a = Some m /\ marked m k.
Proof.
  rewrite run_unfold. cbv zeta.
  assert (forall e', (Some k, PrintApiError e')
                     ∉ log (outside (boot files) (Mkdir (output_dir a))))
    as Hfresh.
  { intros e' He. apply list_elem_of_singleton in He. discriminate. }
  destruct (mkdir E _) as [[]|e0]; [|intros He; by destruct (Hfresh e)].
  destruct (files !! json_path a) as [d|];
    [|intros He; by destruct (Hfresh e)].
  set (start := Build_state d files None _).
  assert (keeps a d k start) as Hstart.
  { split; [done|]. intros [e' He]. by destruct (Hfresh e'). }
  intros He.
  eapply (for_each_inv (keeps a d k)) in Hstart as [_ Hkeep].
  - destruct (Hkeep ltac:(eauto)) as (_ & m & Hm & Hmarked). eauto.
  - intros [artist imgs] s' Hin Hs'.
    apply elem_of_map_to_list in Hin.
    by apply process_artist_images_keeps.
Qed.

Lemma run_skips_marked (files : gmap string manifest) (m : manifest)
  (k : entry) :
  files !! json_path a = Some m -> marked m k ->
  forall ev, (Some k, ev) ∉ log (run E a files).1.
Proof.
  intros Hm (i & Hi & Hgen) ev. rewrite run_unfold. cbv zeta.
  assert (forall k' ev', (Some k', ev')
                         ∉ log (outside (boot files) (Mkdir (output_dir a))))
    as Hfresh.
  { intros k' ev' He. apply list_elem_of_singleton in He. discriminate. }
  destruct (mkdir E _) as [[]|e0]; [|exact (Hfresh k ev)].
  rewrite Hm.
  set (start := Build_state m files None _).
  assert (only_pending m start) as Hstart.
  { intros k' ev' He. by destruct (Hfresh k' ev'). }
  eapply (for_each_inv (only_pending m)) in Hstart as Hlog.
  - intros He. destruct (Hlog _ _ He) as (i' & Hi' & Hpend). congruence.
  - intros [artist imgs] s' Hin Hs'.
    apply elem_of_map_to_list in Hin.
    destruct (process_artist_images_inv artist imgs (output_dir a)
                ("http://" +:+ host a +:+ ":" +:+ pretty (port a)
                 +:+ "/sdapi/v1/txt2img") s') as (Hlog1 & _).
    intros k' ev' He.
    destruct (Hlog1 _ _ He) as [Hold | (i' & <- & Hi' & Hpend)];
      [by apply (Hs' _ ev')|].
    exists i'. split; [|done]. destruct k' as [k1 k2].
    by rewrite (record_of_lookup _ _ _ _ Hin).
Qed.


(** A failed request is followed by no save, and the entry is completed:
    its flag is set and the manifest is rewritten. *)
Lemma failed_request_completes (dir url artist n : string)
  (info : image_info) (s : state) (e : exn) :
  generated info <> Some true ->
  let s1 := (process_entry E a dir url artist (n, info) s).1 in
  (Some (artist, n), PrintApiError e) ∈ log s1 ->
  (Some (artist, n), PrintApiError e) ∉ log s ->
  (forall path b, (Some (artist, n), SaveWebp path b) ∈ log s1 ->
                  (Some (artist, n), SaveWebp path b) ∈ log s)
  /\ data s1 = alter (alter mark_generated n) artist (data s)
  /\ disk s1 !! json_path a = Some (data s1)
  /\ (Some (artist, n), DumpJson (json_path a) (data s1)) ∈ log s1.
Proof.
  intros Hgen.
  destruct (process_entry_pending dir url artist n info s Hgen)
    as (evs & s1 & -> & _ & Hlog & Hends & Hsave). simpl.
  intros He Hnew. rewrite Hlog in He.
  apply elem_of_app in He as [He|He]; [done|].
  apply list_elem_of_fmap in He as (ev & [= <-] & He).
  destruct Hends as [(Hdata & Hdisk & Hlast)|(_ & _ & _ & Hno)];
    [|by destruct (Hno e)].
  split; [|split; [done|split]].
  - intros path b Hin. rewrite Hlog in Hin.
    apply elem_of_app in Hin as [Hin|Hin]; [done|].
    apply list_elem_of_fmap in Hin as (ev & [= <-] & Hin).
    by destruct (Hsave e He path b).
  - by rewrite Hdisk, lookup_insert_eq.
  - rewrite Hlog. apply elem_of_app. right.
    apply list_elem_of_fmap_2. by apply last_Some_elem_of.
Qed.

End Driver.

(** ** The cleanup script *)

Section Cleanup.
Import Delect.
Variable unlink : string -> outcome unit.

Lemma visit_file_run (dirpath filename : string) (l : list event) :
  let path := path_join dirpath filename in
  visit_file unlink dirpath filename l
  = (l ++ (if String.eqb filename "process.mark" then
             Unlink path :: match unlink path with
                            | Ret _ => [PrintDeleted path]
                            | Raise e => [PrintDeleteError path e]
                            end
           else []),
     Ret tt).
Proof.
  cbv zeta. unfold visit_file.
  destruct (String.eqb filename "process.mark").
  - unfold try_except, modify, lift. rewrite !prog_bind_run.
    destruct (unlink _) as [[]|e]; by rewrite <- app_assoc.
  - by rewrite app_nil_r.
Qed.

Lemma visit_file_grows (dirpath filename : string) (l : list event) x :
  x ∈ l -> x ∈ (visit_file unlink dirpath filename l).1.
Proof. intros Hx. rewrite visit_file_run. apply elem_of_app. by left. Qed.

Lemma visit_dir_grows (dirpath : string) (filenames : list string)
  (l : list event) x :
  x ∈ l -> x ∈ (for_each filenames (visit_file unlink dirpath) l).1.
Proof.
  apply (for_each_inv (fun l => x ∈ l)).
  intros f l' _. apply visit_file_grows.
Qed.

(** The script returns normally and has dealt with every [process.mark]
    of the listing, whatever the deletions raise. *)
Lemma delete_process_mark_files_run (walk : list walk_entry)
  (l : list event) :
  exists l1,
    delete_process_mark_files unlink walk l = (l1, Ret tt)
    /\ forall dirpath dirnames filenames,
         (dirpath, dirnames, filenames) ∈ walk ->
         "process.mark" ∈ filenames ->
         cleaned unlink (path_join dirpath "process.mark") l1.
Proof.
  unfold delete_process_mark_files. set (loop := for_each _ _ _).
  assert (forall (w : walk_entry) l',
            (for_each w.2 (visit_file unlink w.1.1) l').2 = Ret tt)
    as Hdir.
  { intros w l'. apply for_each_total. intros f l'' _.
    by rewrite visit_file_run. }
  exists loop.1. split.
  - rewrite (surjective_pairing loop). f_equal.
    apply for_each_total. intros [[d ds] fs] l' _. apply (Hdir (d, ds, fs)).
  - intros dirpath dirnames filenames Hin Hmark.
    apply (for_each_visits
             (fun (w : walk_entry) l' =>
                "process.mark" ∈ w.2 ->
                cleaned unlink (path_join w.1.1 "process.mark") l')
             walk _) with (x := (dirpath, dirnames, filenames)) (s := l);
      [| | |done|done].
    + intros [[d ds] fs] l' _. apply (Hdir (d, ds, fs)).
    + intros [[d ds] fs] l' _ Hm. simpl in *.
      apply (for_each_visits
               (fun f l'' => f = "process.mark" ->
                             cleaned unlink (path_join d f) l'')
               fs (visit_file unlink d)) with (x := "process.mark");
        [| | |done|done].
      * intros f l'' _. by rewrite visit_file_run.
      * intros f l'' _ ->. rewrite visit_file_run. simpl. unfold cleaned.
        destruct (unlink _) as [[]|e]; apply elem_of_app; right;
          apply elem_of_cons; right; by apply list_elem_of_singleton.
      * intros f f' l'' _ Hc ->. specialize (Hc eq_refl).
        unfold cleaned in *.
        destruct (unlink _); by apply visit_file_grows.
    + intros [[d ds] fs] [[d' ds'] fs'] l' _ Hc Hm. specialize (Hc Hm).
      simpl in *. unfold cleaned in *.
      destruct (unlink _); by apply visit_dir_grows.
Qed.

End Cleanup.

(** ** Per-item failures and resumed runs *)

Section Runs.
Import Sampler Delect.

(** C8.  An exception raised while one item is processed is caught and
    logged, and the loop goes on.  In the generation driver, a request that
    raises is printed by [fetch_image_from_api], which returns normally; an
    exception of the [try] block of an entry (decoding, saving, ...) is
    printed for that entry and the iteration returns normally; the loop
    over the entries of an artist returns
    normally whatever the endpoint, the decoding and the saving do, and
    every entry that was not marked ends with the rewritten manifest or with
    its printed error.  In the cleanup script, the walk returns normally
    and every [process.mark] of the listing ends with its printed deletion
    or its printed error. *)
Theorem item_failures_logged_and_skipped :
  (forall (E : env) (url : string) (body : image_data) (s : state) (e : exn),
     post E (current s) url body = Raise e ->
     exists s1,
       fetch_image_from_api E url body s = (s1, Ret [])
       /\ (current s, PrintApiError e) ∈ log s1)
  /\ (forall (E : env) (a : args) (dir url artist n : string)
             (info : image_info) (s st : state) (e : exn),
        generated info <> Some true ->
        try_entry E a dir url artist n info
          {| data := data s; disk := disk s; current := Some (artist, n);
             log := log s |} = (st, Raise e) ->
        process_entry E a dir url artist (n, info) s
        = ({| data := data st; disk := disk st; current := None;
              log := log st
                     ++ [(Some (artist, n), PrintItemError n artist e)] |},
           Ret tt))
  /\ (forall (E : env) (a : args) (artist : string)
             (images_info : gmap string image_info) (out url : string)
             (s : state),
        mkdir E (path_join out artist) = Ret tt ->
        exists s1,
          process_artist_images E artist images_info out url a s
          = (s1, Ret tt)
          /\ forall n i, images_info !! n = Some i ->
                         handled a artist (n, i) s1)
  /\ (forall (unlink : string -> outcome unit) (walk : list walk_entry)
             (l : list Delect.event),
        exists l1,
          delete_process_mark_files unlink walk l = (l1, Ret tt)
          /\ forall dirpath dirnames filenames,
               (dirpath, dirnames, filenames) ∈ walk ->
               "process.mark" ∈ filenames ->
               cleaned unlink (path_join dirpath "process.mark") l1).
Proof.
  split; [|split; [|split]].
  - intros E url body s e He. rewrite fetch_image_from_api_run, He.
    eexists. split; [reflexivity|]. simpl.
    apply elem_of_app. right. apply elem_of_cons. right. by left.
  - intros. by apply raised_entry_logged.
  - intros. by apply pending_entries_handled.
  - intros. apply delete_process_mark_files_run.
Qed.

(** C10.  When the request to the endpoint raises,
    [fetch_image_from_api] prints the error and returns the empty list; the
    entry then sees no image saved, and yet its flag is set and the
    manifest is rewritten with it; and an entry whose request failed in one
    run is given no event at all (no request in particular) by a later run
    over the files the first run left, whatever the environment of the
    later run. *)
Theorem failed_request_never_retried :
  (forall (E : env) (url : string) (body : image_data) (s : state) (e : exn),
     post E (current s) url body = Raise e ->
     fetch_image_from_api E url body s
     = (with_log s [Post url body; PrintApiError e], Ret []))
  /\ (forall (E : env) (a : args) (dir url artist n : string)
             (info : image_info) (s : state) (e : exn),
        generated info <> Some true ->
        let s1 := (process_entry E a dir url artist (n, info) s).1 in
        (Some (artist, n), PrintApiError e) ∈ log s1 ->
        (Some (artist, n), PrintApiError e) ∉ log s ->
        (forall path b, (Some (artist, n), SaveWebp path b) ∈ log s1 ->
                        (Some (artist, n), SaveWebp path b) ∈ log s)
        /\ data s1 = alter (alter mark_generated n) artist (data s)
        /\ disk s1 !! json_path a = Some (data s1)
        /\ (Some (artist, n), DumpJson (json_path a) (data s1)) ∈ log s1)
  /\ (forall (E1 E2 : env) (a : args) (files : gmap string manifest)
             (k : entry) (e : exn),
        (Some k, PrintApiError e) ∈ log (run E1 a files).1 ->
        forall ev, (Some k, ev) ∉ log (run E2 a (disk (run E1 a files).1)).1).
Proof.
  split; [|split].
  - intros E url body s e He. by rewrite fetch_image_from_api_run, He.
  - intros E a dir url artist n info s e Hgen s1 He Hnew.
    by apply (failed_request_completes E a dir url artist n info s e).
  - intros E1 E2 a files k e He ev.
    destruct (run_keeps_marked E1 a files k e He) as (m & Hm & Hmarked).
    by apply (run_skips_marked E2 a _ m).
Qed.

End Runs.

Section RunInstances.
Import Sampler Examples.

(** C7 at the marked entry of the example manifest. *)
Lemma generated_entries_witness :
  artist_images !! "011.png" = Some done_info
  /\ generated done_info = Some true
  /\ record_of
       (data (process_artist_images env_down "artist" artist_images "temp"
                api_url sampler_args (boot files1)).1)
       ("artist", "011.png")
     = record_of (data (boot files1)) ("artist", "011.png").
Proof.
  assert (artist_images !! "011.png" = Some done_info) as Hin
    by (vm_compute; reflexivity).
  split; [exact Hin|]. split; [reflexivity|].
  exact (proj1 (proj2
    (generated_entries_skipped env_down sampler_args "artist" artist_images
       "temp" api_url (boot files1) "011.png" done_info Hin eq_refl))).
Defined.

(** C8 at the example manifest, when the image received does not decode:
    the loop returns normally and the unmarked entry is handled. *)
Lemma item_failures_witness :
  mkdir env_bad_image (path_join "temp" "artist") = Ret tt
  /\ exists s1,
       process_artist_images env_bad_image "artist" artist_images "temp"
         api_url sampler_args (boot files1) = (s1, Ret tt)
       /\ forall n i, artist_images !! n = Some i ->
                      handled sampler_args "artist" (n, i) s1.
Proof.
  split; [reflexivity|].
  exact (proj1 (proj2 (proj2 item_failures_logged_and_skipped))
           env_bad_image sampler_args "artist" artist_images "temp" api_url
           (boot files1) eq_refl).
Defined.

(** C10 at the example manifest, with the endpoint down in the first
    run. *)
Lemma failed_request_witness :
  (Some ("artist", "010.png"), PrintApiError (OSError "Connection refused"))
    ∈ log (run env_down sampler_args files1).1
  /\ forall ev,
       (Some ("artist", "010.png"), ev)
         ∉ log (run env_bad_image sampler_args
                  (disk (run env_down sampler_args files1).1)).1.
Proof.
  assert ((Some ("artist", "010.png"),
           PrintApiError (OSError "Connection refused"))
            ∈ log (run env_down sampler_args files1).1) as Hfailed.
  { assert (log (run env_down sampler_args files1).1
            !! 3%nat
            = Some (Some ("artist", "010.png"),
                    PrintApiError (OSError "Connection refused"))) as Hat
      by (vm_compute; reflexivity).
    by apply list_elem_of_lookup_2 in Hat. }
  split; [exact Hfailed|].
  exact (proj2 (proj2 failed_request_never_retried)
           env_down env_bad_image sampler_args files1
           ("artist", "010.png") (OSError "Connection refused") Hfailed).
Defined.

End RunInstances.

(** ** More on the sizes and on the merge *)

Section AdaptiveMore.
Import Trainer.

(** X3.  Whenever [calculate_adaptive_size] returns, [divisible] is not
    zero and the returned height and width are both multiples of it,
    whether the image was within the area budget or had to be scaled
    down. *)
Theorem calculate_adaptive_size_divisible
  (height width target_area divisible th tw : Z) :
  calculate_adaptive_size height width target_area divisible = Ret (th, tw) ->
  divisible <> 0 /\ (divisible | th) /\ (divisible | tw).
Proof.
  unfold calculate_adaptive_size. intros H.
  inv_bind H. destruct v as [h w]. simpl in H.
  destruct (divisible =? 0) eqn:Hd; [discriminate|].
  injection H as <- <-. apply Z.eqb_neq in Hd.
  split; [done|].
  split.
  - exists (h / divisible). rewrite Z.mod_eq by done. lia.
  - exists (w / divisible). rewrite Z.mod_eq by done. lia.
Qed.

(** X3 at a 2000 x 3000 image under [--resolution 1024 --divisible 8]. *)
Lemma calculate_adaptive_size_divisible_witness :
  calculate_adaptive_size 2000 3000 (1024 * 1024) 8 = Ret (832, 1248)
  /\ (8 | 832) /\ (8 | 1248).
Proof.
  assert (calculate_adaptive_size 2000 3000 (1024 * 1024) 8 = Ret (832, 1248))
    as Hrun by (vm_compute; reflexivity).
  split; [exact Hrun|].
  exact (proj2 (calculate_adaptive_size_divisible _ _ _ _ _ _ Hrun)).
Defined.

End AdaptiveMore.

Section MergeMore.
Import Merge.
Context {tensor : Type}.

(** X4.  When [merge_safetensors] returns normally, the index file, its
    ['weight_map'] and both shard files were there; the only file written
    is [output_path], one line is printed, and nothing else changes.  The
    mapping written has exactly the keys of the weight map and holds, under
    each key, the tensor of that name from the shard the loop reads for it:
    the first shard when the index names it, the second shard for any other
    name. *)
Theorem merge_safetensors_success (fs fs' : files tensor)
  (config_path output_path : string) :
  merge_safetensors config_path output_path fs = (fs', Ret tt) ->
  exists config weight_map fa fb merged,
    json_files fs !! config_path = Some config
    /\ config !! "weight_map" = Some weight_map
    /\ st_files fs !! shard1_path = Some fa
    /\ st_files fs !! shard2_path = Some fb
    /\ fs' = {| json_files := json_files fs;
                st_files := <[output_path := merged]> (st_files fs);
                stdout := stdout fs
                          ++ ["Merged model saved to " +:+ output_path] |}
    /\ dom merged = dom weight_map
    /\ forall key fn, weight_map !! key = Some fn ->
         is_Some (merged !! key)
         /\ merged !! key = consulted fa fb fn !! key.
Proof.
  intros Hrun.
  destruct (json_files fs !! config_path) as [config|] eqn:Hc.
  2:{ unfold merge_safetensors, mbind, prog_bind, load_json in Hrun.
      rewrite Hc in Hrun. discriminate. }
  destruct (config !! "weight_map") as [wm|] eqn:Hw.
  2:{ unfold merge_safetensors, mbind, prog_bind, load_json, lift, getitem
        in Hrun.
      rewrite Hc, Hw in Hrun. discriminate. }
  destruct (st_files fs !! shard1_path) as [fa|] eqn:Ha.
  2:{ unfold merge_safetensors, mbind, prog_bind, load_json, lift, getitem,
        load_file in Hrun.
      rewrite Hc, Hw, Ha in Hrun. discriminate. }
  destruct (st_files fs !! shard2_path) as [fb|] eqn:Hb.
  2:{ unfold merge_safetensors, mbind, prog_bind, load_json, lift, getitem,
        load_file in Hrun.
      rewrite Hc, Hw, Ha, Hb in Hrun. discriminate. }
  rewrite (merge_safetensors_unfold _ _ _ _ _ _ _ Hc Hw Ha Hb) in Hrun.
  destruct (merge_items _ _ _ _) as [m|e] eqn:Hm; [|discriminate].
  injection Hrun as <-.
  pose proof (merge_map_lookup _ _ _ _ Hm) as Hlook.
  assert (forall k, is_Some (m !! k) <-> is_Some (wm !! k)) as Hdom.
  { intros k. split.
    - intros [t Ht]. rewrite Hlook in Ht.
      destruct (wm !! k); [eauto | discriminate].
    - intros [fn Hk].
      destruct (consulted fa fb fn !! k) as [t|] eqn:Ht.
      + rewrite Hlook, Hk. simpl. eauto.
      + destruct (merge_items_missing (map_to_list wm) fa fb ∅ k fn)
          as [k' Hk']; [by apply elem_of_map_to_list | done | congruence]. }
  exists config, wm, fa, fb, m. repeat split; try done.
  - apply set_eq. intros k. rewrite !elem_of_dom. apply Hdom.
  - apply Hdom. eauto.
  - rewrite Hlook. by rewrite H.
Qed.

End MergeMore.

(** ** More on the cleanup, the loss and the pair loop *)

Section CleanupMore.
Import Delect.
Variable unlink : string -> outcome unit.

(** X6.  The cleanup script deletes nothing but files called
    [process.mark] that the walk lists: every deletion it attempts is at
    [dirpath/process.mark] for a directory of the listing whose file names
    contain [process.mark]. *)
Theorem only_process_marks_unlinked (walk : list walk_entry)
  (l : list event) (p : string) :
  Unlink p ∈ (delete_process_mark_files unlink walk l).1 ->
  Unlink p ∈ l
  \/ exists dirpath dirnames filenames,
       (dirpath, dirnames, filenames) ∈ walk
       /\ "process.mark" ∈ filenames
       /\ p = path_join dirpath "process.mark".
Proof.
  unfold delete_process_mark_files.
  apply (for_each_inv (fun l' =>
    Unlink p ∈ l' ->
    Unlink p ∈ l
    \/ exists dirpath dirnames filenames,
         (dirpath, dirnames, filenames) ∈ walk
         /\ "process.mark" ∈ filenames
         /\ p = path_join dirpath "process.mark")); [|by left].
  intros [[d ds] fs] l' Hin Hl'.
  apply (for_each_inv (fun l'' =>
    Unlink p ∈ l'' ->
    Unlink p ∈ l
    \/ exists dirpath dirnames filenames,
         (dirpath, dirnames, filenames) ∈ walk
         /\ "process.mark" ∈ filenames
         /\ p = path_join dirpath "process.mark")); [|done].
  intros f l'' Hf Hl''. rewrite visit_file_run. simpl.
  intros Hp. apply elem_of_app in Hp as [Hp|Hp]; [by apply Hl''|].
  destruct (String.eqb f "process.mark") eqn:Heq;
    [|by apply elem_of_nil in Hp].
  apply String.eqb_eq in Heq as ->.
  apply elem_of_cons in Hp as [[= ->]|Hp].
  - right. by exists d, ds, fs.
  - destruct (unlink _); apply list_elem_of_singleton in Hp; discriminate.
Qed.

End CleanupMore.

Section LossMore.
Import Trainer.
Context {F : Type} `{!Scalar F}.

Lemma broadcast2_mismatch (f : F -> F -> F) (x y : list F) :
  length x <> length y -> length x <> 1%nat -> length y <> 1%nat ->
  broadcast2 f x y
  = Raise (RuntimeError "The size of a must match the size of b").
Proof.
  intros Hne Hx Hy. unfold broadcast2.
  assert ((length x =? length y)%nat = false) as -> by by apply Nat.eqb_neq.
  destruct x as [|a [|a' x]], y as [|b [|b' y]]; simpl in *; done.
Qed.

(** X7.  On a batch of three examples [chunk(2)] gives two winning losses
    and one losing loss, and the subtraction broadcasts: [compute_loss]
    returns normally, and both winning examples are compared with the single
    losing example. *)
Theorem compute_loss_three_examples (a : args) (sched : scheduler_config)
  (p1 p2 p3 t1 t2 t3 : list F) :
  length p1 = length t1 -> length p2 = length t2 -> length p3 = length t3 ->
  let l1 := spec_example_mse p1 t1 in
  let l2 := spec_example_mse p2 t2 in
  let l3 := spec_example_mse p3 t3 in
  let r1 := spec_ratio_loss a sched l1 l3 in
  let r2 := spec_ratio_loss a sched l2 l3 in
  compute_loss a sched [p1; p2; p3] [t1; t2; t3]
  = Ret (fsub (fmean [l1; l2]) (fmean [r1; r2]), [l1; l2], [l3], [r1; r2]).
Proof.
  intros H1 H2 H3. cbv zeta. unfold compute_loss, mse_loss_none.
  rewrite bool_decide_eq_true_2 by (simpl; congruence).
  reflexivity.
Qed.

Lemma compute_loss_odd_batch_run (a : args) (sched : scheduler_config)
  (model_pred target : list (list F)) :
  length <$> model_pred = length <$> target ->
  Nat.Odd (length model_pred) ->
  length model_pred <> 3%nat ->
  compute_loss a sched model_pred target
  = Raise (if decide (length model_pred = 1%nat)
           then ValueError "not enough values to unpack"
           else RuntimeError "The size of a must match the size of b").
Proof.
  intros Hshape [k Hk] H3.
  assert (length target = length model_pred) as Hlen.
  { by rewrite <- (length_fmap length target), <- Hshape, length_fmap. }
  unfold compute_loss, mse_loss_none.
  rewrite bool_decide_eq_true_2 by done. rewrite outcome_bind_ret.
  set (losses := fmean <$> _).
  assert (length losses = (2 * k + 1)%nat) as Hl.
  { subst losses. rewrite length_fmap, length_zip_with_l_eq; [done|].
    by rewrite Hlen. }
  unfold chunk2. rewrite Hl.
  assert (((2 * k + 1 + 1) / 2)%nat = S k) as ->
    by (symmetry; apply Nat.div_unique with 0%nat; lia).
  assert ((2 * k + 1 =? 0)%nat = false) as -> by (apply Nat.eqb_neq; lia).
  destruct k as [|k].
  - simpl. rewrite decide_True by lia. reflexivity.
  - assert ((S (S k) <? 2 * S k + 1)%nat = true) as ->
      by (apply Nat.ltb_lt; lia).
    rewrite outcome_bind_ret.
    rewrite broadcast2_mismatch.
    + rewrite decide_False by lia. reflexivity.
    + rewrite !length_fmap, length_take, length_drop. lia.
    + rewrite !length_fmap, length_take. lia.
    + rewrite !length_fmap, length_drop. lia.
Qed.

(** X8.  On a batch of odd size other than three [compute_loss] raises:
    a batch of one example cannot be unpacked into two halves
    ([ValueError]), and from five examples on the two halves differ in size
    by one and cannot be broadcast ([RuntimeError]). *)
Theorem compute_loss_odd_batch_raises (a : args) (sched : scheduler_config)
  (model_pred target : list (list F)) :
  length <$> model_pred = length <$> target ->
  Nat.Odd (length model_pred) ->
  length model_pred <> 3%nat ->
  (length model_pred = 1%nat ->
   exists msg, compute_loss a sched model_pred target = Raise (ValueError msg))
  /\ (length model_pred <> 1%nat ->
      exists msg,
        compute_loss a sched model_pred target = Raise (RuntimeError msg)).
Proof.
  intros Hshape Hodd H3.
  rewrite (compute_loss_odd_batch_run a sched model_pred target Hshape Hodd H3).
  split; intros Hone.
  - rewrite decide_True by done. by eexists.
  - rewrite decide_False by done. by eexists.
Qed.

End LossMore.

Section AugmentMore.
Import Trainer.
Context {F : Type} `{!Scalar F}.
Implicit Types (t u : tensor F).

Lemma crop_plane_exact (h w : Z) (p : plane F) :
  Z.of_nat (length p) = h ->
  Forall (fun row : list F => Z.of_nat (length row) = w) p ->
  crop_plane 0 0 h w p = p.
Proof.
  intros <- Hrows. unfold crop_plane. rewrite !Nat2Z.id. simpl.
  rewrite take_app_length.
  rewrite <- (list_fmap_id p) at 2. apply Forall_fmap_ext.
  eapply Forall_impl; [exact Hrows|]. intros row <-. simpl.
  by rewrite Nat2Z.id, take_app_length.
Qed.

Lemma crop_exact (h w : Z) t :
  has_size h w t -> crop t 0 0 h w = t.
Proof.
  intros Hsize. unfold crop. rewrite <- (list_fmap_id t) at 2.
  apply Forall_fmap_ext. eapply Forall_impl; [exact Hsize|].
  intros p [Hh Hrows]. by apply crop_plane_exact.
Qed.

Lemma has_size_shape (h w : Z) t :
  t <> [] -> 0 < h -> has_size h w t -> shape_hw t = (h, w).
Proof.
  intros Hne Hh Hsize. destruct t as [|p t]; [done|].
  apply Forall_cons in Hsize as [[Hp Hrows] _]. simpl.
  destruct p as [|row p]; [simpl in Hp; lia|].
  apply Forall_cons in Hrows as [Hrow _]. by rewrite Hp, Hrow.
Qed.

(** X9.  When the two images of a pair have exactly the target height and
    width, the loop of [preprocess_train] crops nothing, with or without
    [--random_crop]: the pixel values are the concatenation of the ordered
    pair, flipped when the flip is drawn and normalised, and the crop offset
    recorded is (0, 0). *)
Theorem exact_size_pair_not_cropped (a : args) (r : draws) t u
  (label_0 target_h target_w : Z) :
  t <> [] -> u <> [] -> 0 < target_h ->
  has_size target_h target_w t -> has_size target_h target_w u ->
  let im_tup := order_pair a r (t, u) label_0 in
  let combined_im := im_tup.1 ++ im_tup.2 in
  augment_pair a r (t, u) label_0 (target_h, target_w)
  = Ret (normalize (if negb (no_hflip a) && flt (flip_draw r) half
                    then train_flip combined_im else combined_im),
         (0, 0)).
Proof.
  intros Ht Hu Hpos Hst Hsu. cbv zeta.
  pose proof (has_size_shape _ _ _ Ht Hpos Hst) as Hshape_t.
  pose proof (has_size_shape _ _ _ Hu Hpos Hsu) as Hshape_u.
  assert (exists p q, order_pair a r (t, u) label_0 = (p, q)
            /\ shape_hw p = (target_h, target_w)
            /\ shape_hw q = (target_h, target_w)
            /\ has_size target_h target_w (p ++ q)) as
    (p & q & Horder & Hp & Hq & Hpq).
  { unfold order_pair. destruct (_ =? _); eexists _, _;
      (split; [reflexivity|]); simpl; repeat split; try done;
      by apply Forall_app. }
  unfold augment_pair. rewrite Horder. cbn [fst snd]. unfold cat.
  rewrite bool_decide_eq_true_2 by congruence. rewrite outcome_bind_ret.
  assert (shape_hw (p ++ q) = (target_h, target_w)) as Hshape
    by (rewrite shape_hw_app; congruence).
  destruct (random_crop a); simpl negb; cbv iota.
  - unfold get_params. rewrite Hshape.
    assert ((target_h <? target_h) || (target_w <? target_w) = false) as ->
      by (apply orb_false_iff; lia).
    rewrite !Z.eqb_refl. simpl. by rewrite crop_exact.
  - rewrite Hshape, !Z.sub_diag. simpl. by rewrite crop_exact.
Qed.

End AugmentMore.

(** ** Traces of the generation driver *)

Section DriverTraces.
Import Sampler.
Variables (E : env) (a : args).

Lemma save_loop_stored (dir base : string) (items : list (nat * string))
  (s : state) :
  (forall i b, (i, b) ∈ items ->
     store E (current s) i b
       (path_join dir (base +:+ "_DPO" +:+ pretty (S i) +:+ ".webp"))
     = Ret tt) ->
  for_each items (save_output E dir base) s
  = (with_log s ((fun '(i, b) => save_event dir base i b) <$> items), Ret tt).
Proof.
  revert s. induction items as [|[i b] items IH]; intros s Hall.
  - by rewrite with_log_nil.
  - cbn [for_each]. rewrite prog_bind_run, save_output_run.
    rewrite Hall by left.
    rewrite IH; [by rewrite with_log_app|].
    intros i' b' Hin. apply Hall. by right.
Qed.

Lemma save_loop_fails (dir base : string) (items rest : list (nat * string))
  (i : nat) (b : string) (e : exn) (s : state) :
  (forall i b, (i, b) ∈ items ->
     store E (current s) i b
       (path_join dir (base +:+ "_DPO" +:+ pretty (S i) +:+ ".webp"))
     = Ret tt) ->
  store E (current s) i b
    (path_join dir (base +:+ "_DPO" +:+ pretty (S i) +:+ ".webp")) = Raise e ->
  for_each (items ++ (i, b) :: rest) (save_output E dir base) s
  = (with_log s ((fun '(i, b) => save_event dir base i b) <$> items), Raise e).
Proof.
  revert s. induction items as [|[i0 b0] items IH]; intros s Hall Hfail.
  - cbn [app for_each]. rewrite prog_bind_run, save_output_run, Hfail.
    by rewrite with_log_nil.
  - cbn [app for_each]. rewrite prog_bind_run, save_output_run.
    rewrite Hall by left.
    rewrite IH; [by rewrite with_log_app| |done].
    intros i' b' Hin. apply Hall. by right.
Qed.

Lemma save_events_imap (dir base : string) (images : list string) :
  (fun '(i, b) => save_event dir base i b) <$> imap (fun i b => (i, b)) images
  = imap (save_event dir base) images.
Proof. rewrite fmap_imap. by apply imap_ext. Qed.


Lemma try_entry_unfold (dir url artist n : string) (info : image_info)
  (s : state) (w h : Z) :
  calculate_adjusted_resolution (width info) (height info) (max a * max a)
    default_max_side = Ret (w, h) ->
  exists body,
    prompt body = strip (remove_bars (tag info))
    /\ seed body = randint E (current s)
    /\ req_batch_size body = batch_size a
    /\ req_width body = w /\ req_height body = h
    /\ try_entry E a dir url artist n info s
       = (images_base64 ← fetch_image_from_api E url body;
          _ ← save_outputs E dir (stem n) images_base64;
          _ ← modify (set_generated artist n);
          dump_manifest a) s.
Proof.
  intros Hcalc. eexists (Build_image_data _ _ _ _ _ _ _ _ _ _ _ _ _ _).
  unfold try_entry. rewrite prog_bind_run. unfold lift at 1. rewrite Hcalc.
  rewrite prog_bind_run. unfold reads at 1.
  repeat split.
Qed.

Lemma finish_entry_run (artist n : string) (s : state) (evs : list event) :
  (modify (set_generated artist n) ≫= fun _ => dump_manifest a)
    (with_log s evs) = (completed a artist n s evs, Ret tt).
Proof. unfold completed. rewrite fmap_app, app_assoc. reflexivity. Qed.

(** X10.  An entry that is not marked, whose size is computed, whose
    request returns [images] and whose images all save, is processed into
    exactly: the request, carrying the stripped tag without its separators
    and the adjusted size; one saved file per image, in order, called
    [<stem>_DPO<i+1>.webp] in the directory of the artist; the flag of the
    entry set; the manifest file rewritten with it. *)
Theorem entry_success_trace (dir url artist n : string) (info : image_info)
  (s : state) (w h : Z) (images : list string) :
  generated info <> Some true ->
  calculate_adjusted_resolution (width info) (height info) (max a * max a)
    default_max_side = Ret (w, h) ->
  (forall body, post E (Some (artist, n)) url body = Ret images) ->
  (forall i b, images !! i = Some b ->
     store E (Some (artist, n)) i b
       (path_join dir (stem n +:+ "_DPO" +:+ pretty (S i) +:+ ".webp"))
     = Ret tt) ->
  exists body,
    prompt body = strip (remove_bars (tag info))
    /\ req_width body = w /\ req_height body = h
    /\ let d := alter (alter mark_generated n) artist (data s) in
       process_entry E a dir url artist (n, info) s
       = ({| data := d;
             disk := <[json_path a := d]> (disk s);
             current := None;
             log := log s
                    ++ tagged (artist, n)
                         (Post url body
                          :: imap (save_event dir (stem n)) images
                          ++ [DumpJson (json_path a) d]) |},
          Ret tt).
Proof.
  intros Hgen Hcalc Hpost Hstore.
  set (s0 := Build_state (data s) (disk s) (Some (artist, n)) (log s)).
  destruct (try_entry_unfold dir url artist n info s0 w h Hcalc)
    as (body & Hprompt & _ & _ & Hw & Hh & Hrun).
  exists body. split; [done|]. split; [done|]. split; [done|]. cbv zeta.
  unfold process_entry. rewrite bool_decide_eq_false_2 by done.
  rewrite prog_bind_run. unfold set_current at 1, modify at 1.
  rewrite prog_bind_run. unfold try_except. fold s0. rewrite Hrun.
  rewrite prog_bind_run, fetch_image_from_api_run. simpl current.
  rewrite Hpost. rewrite prog_bind_run. unfold save_outputs.
  rewrite save_loop_stored.
  2:{ intros i b Hin. apply elem_of_lookup_imap in Hin
        as (i' & b' & [= -> ->] & Hi). by apply Hstore. }
  rewrite with_log_app, save_events_imap, finish_entry_run.
  unfold set_current, modify, completed, tagged. simpl.
  reflexivity.
Qed.

(** X11.  When image [j] of the reply is the first that fails to decode
    or save, the images before it stay saved, the error is printed for the
    entry, and the entry stays unmarked: the manifest in memory and the
    manifest file are untouched, so a later run requests the entry again. *)
Theorem entry_save_failure_trace (dir url artist n : string)
  (info : image_info) (s : state) (w h : Z) (images : list string)
  (j : nat) (b : string) (e : exn) :
  generated info <> Some true ->
  calculate_adjusted_resolution (width info) (height info) (max a * max a)
    default_max_side = Ret (w, h) ->
  (forall body, post E (Some (artist, n)) url body = Ret images) ->
  images !! j = Some b ->
  store E (Some (artist, n)) j b
    (path_join dir (stem n +:+ "_DPO" +:+ pretty (S j) +:+ ".webp"))
  = Raise e ->
  (forall i b', (i < j)%nat -> images !! i = Some b' ->
     store E (Some (artist, n)) i b'
       (path_join dir (stem n +:+ "_DPO" +:+ pretty (S i) +:+ ".webp"))
     = Ret tt) ->
  exists body,
    process_entry E a dir url artist (n, info) s
    = ({| data := data s; disk := disk s; current := None;
          log := log s
                 ++ tagged (artist, n)
                      (Post url body
                       :: imap (save_event dir (stem n)) (take j images)
                       ++ [PrintItemError n artist e]) |},
       Ret tt).
Proof.
  intros Hgen Hcalc Hpost Hj Hfail Hstore.
  set (s0 := Build_state (data s) (disk s) (Some (artist, n)) (log s)).
  destruct (try_entry_unfold dir url artist n info s0 w h Hcalc)
    as (body & _ & _ & _ & _ & _ & Hrun).
  exists body.
  unfold process_entry. rewrite bool_decide_eq_false_2 by done.
  rewrite prog_bind_run. unfold set_current at 1, modify at 1.
  rewrite prog_bind_run. unfold try_except. fold s0. rewrite Hrun.
  rewrite prog_bind_run, fetch_image_from_api_run. simpl current.
  rewrite Hpost. rewrite prog_bind_run. unfold save_outputs.
  rewrite <- (take_drop_middle images j b Hj), imap_app. cbn [imap].
  rewrite length_take_le by (apply lookup_lt_Some in Hj; lia).
  rewrite Nat.add_0_r.
  rewrite (save_loop_fails dir (stem n) _ _ j b e).
  - rewrite with_log_app, save_events_imap, emit_run, with_log_app.
    rewrite take_app_length' by (rewrite length_take_le; [done|];
      apply lookup_lt_Some in Hj; lia).
    unfold set_current, modify, tagged. simpl. reflexivity.
  - intros i b' Hin. apply elem_of_lookup_imap in Hin
      as (i' & b'' & [= -> ->] & Hi).
    apply lookup_take_Some in Hi as [Hi Hlt]. by apply Hstore.
  - done.
Qed.

Lemma more_marked_refl (d : manifest) : more_marked d d.
Proof. intros k. by left. Qed.

Lemma more_marked_alter (d m : manifest) (artist n : string) :
  more_marked d m -> more_marked d (alter (alter mark_generated n) artist m).
Proof.
  intros Hm k. rewrite record_of_alter.
  destruct (decide _) as [->|]; [|apply Hm].
  right. destruct (Hm (artist, n)) as [-> | ->]; [done|].
  by destruct (record_of d (artist, n)).
Qed.

Lemma process_entry_in_sync (files : gmap string manifest) (d : manifest)
  (dir url artist : string) (item : string * image_info) (s : state) :
  in_sync a files d s ->
  in_sync a files d (process_entry E a dir url artist item s).1.
Proof.
  destruct item as [n info]. intros (Hdisk & Hmore & Hrest).
  destruct (decide (generated info = Some true)) as [Hgen|Hgen].
  { by rewrite process_entry_skip. }
  destruct (process_entry_pending E a dir url artist n info s Hgen)
    as (evs & s1 & -> & _ & _ & Hends & _). simpl.
  destruct Hends as [(Hdata & Hdisk1 & _)|(Hdata & Hdisk1 & _)].
  - split; [|split].
    + by rewrite Hdisk1, lookup_insert_eq.
    + rewrite Hdata. by apply more_marked_alter.
    + intros p Hp. rewrite Hdisk1, lookup_insert_ne by done. by apply Hrest.
  - unfold in_sync. by rewrite Hdata, Hdisk1.
Qed.

Lemma process_artist_images_in_sync (files : gmap string manifest)
  (d : manifest) (artist : string) (imgs : gmap string image_info)
  (out url : string) (s : state) :
  in_sync a files d s ->
  in_sync a files d (process_artist_images E artist imgs out url a s).1.
Proof.
  intros Hs. rewrite process_artist_images_run.
  destruct (mkdir E _) as [[]|e]; [|done].
  apply for_each_inv; [|done].
  intros item s' _. apply process_entry_in_sync.
Qed.

(** What a run leaves, when it found its manifest. *)
Lemma run_in_sync (files : gmap string manifest) (d : manifest) :
  files !! json_path a = Some d ->
  mkdir E (output_dir a) = Ret tt ->
  in_sync a files d (run E a files).1.
Proof.
  intros Hd Hmk. rewrite run_unfold. cbv zeta. rewrite Hmk, Hd.
  apply for_each_inv.
  - intros [artist imgs] s' _. apply process_artist_images_in_sync.
  - split; [done|]. split; [apply more_marked_refl | done].
Qed.

(** X12.  Whatever the creation of directories, the endpoint, the
    decoding and the saving of images do, and with every rewrite of the
    manifest file written whole (as [dump_manifest] has it), a run over a
    manifest file leaves that file holding the manifest it found with the
    [generated] flag of some entries set and nothing else changed, and
    touches no other manifest file. *)
Theorem run_only_marks_entries (files : gmap string manifest)
  (d : manifest) :
  files !! json_path a = Some d ->
  exists m,
    disk (run E a files).1 !! json_path a = Some m
    /\ more_marked d m
    /\ forall p, p <> json_path a -> disk (run E a files).1 !! p = files !! p.
Proof.
  intros Hd. destruct (mkdir E (output_dir a)) as [[]|e] eqn:Hmk.
  - destruct (run_in_sync files d Hd Hmk) as (Hdisk & Hmore & Hrest). eauto.
  - rewrite run_unfold. cbv zeta. rewrite Hmk. simpl.
    exists d. split; [done|]. split; [apply more_marked_refl | done].
Qed.

(** ** Every entry is settled *)

Lemma settled_alter (k : entry) (artist n : string) (s s1 : state) :
  data s1 = alter (alter mark_generated n) artist (data s) ->
  (forall x, x ∈ log s -> x ∈ log s1) ->
  settled k s -> settled k s1.
Proof.
  intros Hdata Hlog Hk Hsome. rewrite Hdata in *.
  destruct Hk as [Hm|[e He]].
  - rewrite record_of_alter in Hsome. destruct (decide _); [|done].
    by apply fmap_is_Some in Hsome.
  - left. by apply marked_alter.
  - right. exists e. by apply Hlog.
Qed.

Lemma process_entry_settled_mono (k : entry) (dir url artist : string)
  (item : string * image_info) (s : state) :
  settled k s -> settled k (process_entry E a dir url artist item s).1.
Proof.
  destruct item as [n info]. intros Hk.
  destruct (decide (generated info = Some true)) as [Hgen|Hgen].
  { by rewrite process_entry_skip. }
  pose proof (process_entry_log_grows E a dir url artist (n, info) s) as Hgrow.
  destruct (process_entry_pending E a dir url artist n info s Hgen)
    as (evs & s1 & Hrun & _ & _ & Hends & _).
  rewrite Hrun in *. simpl in *.
  destruct Hends as [(Hdata & _)|(Hdata & _)].
  - by apply (settled_alter k artist n s).
  - intros Hsome. rewrite Hdata in *.
    destruct (Hk Hsome) as [Hm|[e He]]; [by left|].
    right. exists e. by apply Hgrow.
Qed.

Lemma process_entry_settles (dir url artist n : string) (info : image_info)
  (s : state) :
  generated info <> Some true ->
  settled (artist, n) (process_entry E a dir url artist (n, info) s).1.
Proof.
  intros Hgen.
  destruct (process_entry_pending E a dir url artist n info s Hgen)
    as (evs & s1 & -> & _ & Hlog & Hends & _). simpl.
  destruct Hends as [(Hdata & _)|(_ & _ & [e Hlast] & _)]; intros Hsome.
  - left. rewrite Hdata in *. rewrite record_of_alter, decide_True in Hsome
      by done.
    apply fmap_is_Some in Hsome as [i Hi].
    exists (mark_generated i). split; [|done].
    by rewrite record_of_alter, decide_True, Hi.
  - right. exists e. rewrite Hlog. apply elem_of_app. right.
    apply list_elem_of_fmap_2. by apply last_Some_elem_of.
Qed.

Lemma process_artist_images_settled_mono (k : entry) (artist : string)
  (imgs : gmap string image_info) (out url : string) (s : state) :
  settled k s ->
  settled k (process_artist_images E artist imgs out url a s).1.
Proof.
  intros Hk. rewrite process_artist_images_run.
  assert (settled k (outside s (Mkdir (path_join out artist)))) as Hstart.
  { intros Hsome. destruct (Hk Hsome) as [Hm|[e He]]; [by left|].
    right. exists e. simpl. apply elem_of_app. by left. }
  destruct (mkdir E _) as [[]|e]; [|done].
  apply for_each_inv; [|done].
  intros item s' _. apply process_entry_settled_mono.
Qed.

Lemma process_artist_images_settles (artist : string)
  (imgs : gmap string image_info) (out url : string) (s : state)
  (n : string) (i : image_info) :
  mkdir E (path_join out artist) = Ret tt ->
  imgs !! n = Some i -> generated i <> Some true ->
  settled (artist, n) (process_artist_images E artist imgs out url a s).1.
Proof.
  intros Hmk Hn Hgen. rewrite process_artist_images_run. cbv zeta.
  rewrite Hmk.
  apply (for_each_visits
           (fun (item : string * image_info) s' =>
              generated item.2 <> Some true -> settled (artist, item.1) s')
           (map_to_list imgs) _) with (x := (n, i));
    [| | | by apply elem_of_map_to_list | done].
  - intros item s' _. apply process_entry_returns.
  - intros [n' i'] s' _ Hgen'. by apply process_entry_settles.
  - intros item item' s' _ Hs' Hgen'.
    apply process_entry_settled_mono. by apply Hs'.
Qed.

Lemma run_settles (files : gmap string manifest) (d : manifest) :
  (forall p, mkdir E p = Ret tt) ->
  files !! json_path a = Some d ->
  exists s1,
    run E a files = (s1, Ret tt)
    /\ in_sync a files d s1
    /\ forall k i, record_of d k = Some i ->
         marked (data s1) k
         \/ exists e, (Some k, PrintItemError k.2 k.1 e) ∈ log s1.
Proof.
  intros Hmk Hd.
  pose proof (run_in_sync files d Hd (Hmk _)) as Hsync.
  revert Hsync. rewrite run_unfold. cbv zeta. rewrite Hmk, Hd.
  set (url := "http://" +:+ host a +:+ ":" +:+ pretty (port a)
              +:+ "/sdapi/v1/txt2img").
  set (body := fun '(artist_name, images_info) =>
                 process_artist_images E artist_name images_info
                   (output_dir a) url a).
  set (start := Build_state d files None _).
  set (loop := for_each (map_to_list d) body start).
  intros Hsync.
  assert (forall (x : string * gmap string image_info) s,
            (body x s).2 = Ret tt) as Htot.
  { intros [artist imgs] s. subst body. cbv beta iota.
    by destruct (pending_entries_handled E a artist imgs (output_dir a) url s
                   (Hmk _)) as (s1 & -> & _). }
  exists loop.1. split; [|split; [done|]].
  { rewrite (surjective_pairing loop). f_equal.
    apply for_each_total. intros x s _. apply Htot. }
  destruct Hsync as (_ & Hmore & _).
  intros [artist n] i Hi.
  assert (is_Some (record_of (data loop.1) (artist, n))) as Hsome.
  { destruct (Hmore (artist, n)) as [-> | ->]; rewrite Hi; simpl; eauto. }
  destruct (decide (generated i = Some true)) as [Hgen|Hgen].
  { left. destruct (Hmore (artist, n)) as [Hk|Hk]; rewrite Hi in Hk.
    - by exists i.
    - by exists (mark_generated i). }
  unfold record_of in Hi. simpl in Hi.
  destruct (d !! artist) as [imgs|] eqn:Hartist; [|done]. simpl in Hi.
  apply (for_each_visits
           (fun (x : string * gmap string image_info) s' =>
              forall n i, x.2 !! n = Some i -> generated i <> Some true ->
                          settled (x.1, n) s')
           (map_to_list d) body) with (x := (artist, imgs)) (s := start)
    in Hi; [by apply Hi | | | | | done].
  - intros x s _. apply Htot.
  - intros [artist' imgs'] s _ n' i' Hn' Hgen'. subst body. cbv beta iota.
    by apply process_artist_images_settles with i'.
  - intros [artist' imgs'] [artist'' imgs''] s _ Hs n' i' Hn' Hgen'.
    subst body. cbv beta iota.
    apply process_artist_images_settled_mono. by apply (Hs n' i').
  - by apply elem_of_map_to_list.
Qed.

(** X13.  When the directories can be made and the manifest file exists,
    a run returns normally, whatever the endpoint and the saving do, and
    every entry of the manifest ends marked in the manifest file or with
    its error printed. *)
Theorem run_settles_every_entry (files : gmap string manifest)
  (d : manifest) :
  (forall p, mkdir E p = Ret tt) ->
  files !! json_path a = Some d ->
  exists s1 m,
    run E a files = (s1, Ret tt)
    /\ disk s1 !! json_path a = Some m
    /\ forall k i, record_of d k = Some i ->
         marked m k
         \/ exists e, (Some k, PrintItemError k.2 k.1 e) ∈ log s1.
Proof.
  intros Hmk Hd.
  destruct (run_settles files d Hmk Hd) as (s1 & Hrun & (Hdisk & _) & Hall).
  by exists s1, (data s1).
Qed.

(** ** A second run *)

Lemma run_only_pending (files : gmap string manifest) (m : manifest) :
  files !! json_path a = Some m -> only_pending m (run E a files).1.
Proof.
  intros Hm. rewrite run_unfold. cbv zeta.
  assert (forall k' ev', (Some k', ev')
                         ∉ log (outside (boot files) (Mkdir (output_dir a))))
    as Hfresh.
  { intros k' ev' He. apply list_elem_of_singleton in He. discriminate. }
  destruct (mkdir E _) as [[]|e0];
    [|intros k ev He; by destruct (Hfresh k ev)].
  rewrite Hm. apply for_each_inv.
  - intros [artist imgs] s' Hin Hs'.
    apply elem_of_map_to_list in Hin.
    destruct (process_artist_images_inv E a artist imgs (output_dir a)
                ("http://" +:+ host a +:+ ":" +:+ pretty (port a)
                 +:+ "/sdapi/v1/txt2img") s') as (Hlog1 & _).
    intros k' ev' He.
    destruct (Hlog1 _ _ He) as [Hold | (i' & <- & Hi' & Hpend)];
      [by apply (Hs' _ ev')|].
    exists i'. split; [|done]. destruct k' as [k1 k2].
    by rewrite (record_of_lookup _ _ _ _ Hin).
  - intros k ev He. by destruct (Hfresh k ev).
Qed.

End DriverTraces.

Section Resume.
Import Sampler.

(** X14.  After a run in which no entry failed, every entry is marked in
    the manifest file: a second run over the files the first one left logs
    no event for any entry (no request, no save, no rewrite), whatever its
    environment. *)
Theorem complete_run_not_repeated (E1 E2 : env) (a : args)
  (files : gmap string manifest) (d : manifest) :
  (forall p, mkdir E1 p = Ret tt) ->
  files !! json_path a = Some d ->
  (forall k n artist e,
     (Some k, PrintItemError n artist e) ∉ log (run E1 a files).1) ->
  forall k ev,
    (Some k, ev) ∉ log (run E2 a (disk (run E1 a files).1)).1.
Proof.
  intros Hmk Hd Hclean k ev Hev.
  destruct (run_settles E1 a files d Hmk Hd)
    as (s1 & Hrun & (Hdisk & Hmore & _) & Hall).
  rewrite Hrun in *. simpl in *.
  destruct (run_only_pending E2 a (disk s1) (data s1) Hdisk k ev Hev)
    as (i & Hi & Hpend).
  destruct (record_of d k) as [i0|] eqn:Hk.
  - destruct (Hall k i0 Hk) as [(i' & Hi' & Hgen)|[e He]].
    + congruence.
    + by destruct (Hclean k k.2 k.1 e).
  - destruct (Hmore k) as [Hsame|Hsame]; rewrite Hk in Hsame;
      simpl in Hsame; congruence.
Qed.

End Resume.

(** ** Token sequences *)

Section Sequences.
Import Trainer.

Lemma item_lookup {A} (l : list A) (i : nat) (x : A) :
  l !! i = Some x -> item l (Z.of_nat i) = Ret x.
Proof.
  intros Hi. unfold item. cbv zeta.
  assert ((Z.of_nat i <? 0) = false) as Hpos by (apply Z.ltb_ge; lia).
  rewrite Hpos. cbv iota. by rewrite Hpos, Nat2Z.id, Hi.
Qed.

Lemma item_from_end {A} (l : list A) (k : nat) (x : A) :
  (0 < k <= length l)%nat -> l !! (length l - k)%nat = Some x ->
  item l (- Z.of_nat k) = Ret x.
Proof.
  intros Hk Hx. unfold item. cbv zeta.
  assert ((- Z.of_nat k <? 0) = true) as -> by (apply Z.ltb_lt; lia).
  assert ((- Z.of_nat k + Z.of_nat (length l) <? 0) = false) as ->
    by (apply Z.ltb_ge; lia).
  assert (Z.to_nat (- Z.of_nat k + Z.of_nat (length l))
          = (length l - k)%nat) as -> by lia.
  by rewrite Hx.
Qed.

Lemma setitem_insert {A} (l : list A) (i : nat) (v : A) :
  (i < length l)%nat -> setitem l (Z.of_nat i) v = Ret (<[i := v]> l).
Proof.
  intros Hi. unfold setitem. cbv zeta.
  assert ((Z.of_nat i <? 0) = false) as Hpos by (apply Z.ltb_ge; lia).
  rewrite Hpos. cbv iota. rewrite Hpos.
  assert ((Z.of_nat (length l) <=? Z.of_nat i) = false) as ->
    by (apply Z.leb_gt; lia).
  by rewrite Nat2Z.id.
Qed.

Lemma setitem_from_end {A} (l : list A) (k : nat) (v : A) :
  (0 < k <= length l)%nat ->
  setitem l (- Z.of_nat k) v = Ret (<[(length l - k)%nat := v]> l).
Proof.
  intros Hk. unfold setitem. cbv zeta.
  assert ((- Z.of_nat k <? 0) = true) as -> by (apply Z.ltb_lt; lia).
  assert ((- Z.of_nat k + Z.of_nat (length l) <? 0) = false) as ->
    by (apply Z.ltb_ge; lia).
  assert ((Z.of_nat (length l) <=? - Z.of_nat k + Z.of_nat (length l))
          = false) as -> by (apply Z.leb_gt; lia).
  by assert (Z.to_nat (- Z.of_nat k + Z.of_nat (length l))
             = (length l - k)%nat) as -> by lia.
Qed.

Lemma slice_inside {A} (l : list A) (start stop : Z) :
  0 <= start <= stop -> stop <= Z.of_nat (length l) ->
  slice l start stop
  = take (Z.to_nat (stop - start)) (drop (Z.to_nat start) l).
Proof.
  intros Hs He. unfold slice. cbv zeta beta.
  assert ((start <? 0) = false) as -> by lia.
  assert ((stop <? 0) = false) as -> by lia.
  by rewrite !Z.min_r, !Z.max_r by lia.
Qed.

Lemma collect_ret {A B} (xs : list A) (body : A -> outcome B) (g : A -> B) :
  (forall x, x ∈ xs -> body x = Ret (g x)) ->
  collect xs body = Ret (g <$> xs).
Proof.
  induction xs as [|x xs IH]; intros Hall; [done|].
  simpl. rewrite Hall by left. simpl. rewrite IH; [done|].
  intros y Hy. apply Hall. by right.
Qed.

Lemma stack_ret (ts : list (list Z)) (n : nat) :
  ts <> [] -> Forall (fun t => length t = n) ts -> stack ts = Ret ts.
Proof.
  intros Hne Hall. destruct ts as [|t rest]; [done|]. unfold stack.
  apply Forall_cons in Hall as [Ht Hrest].
  assert (forallb (fun u => (length u =? length t)%nat) rest = true) as ->;
    [|done].
  apply forallb_forall. intros u Hu. apply Nat.eqb_eq. rewrite Ht.
  rewrite Forall_forall in Hrest. apply Hrest. by apply list_elem_of_In.
Qed.

Lemma range_up (start stop step : Z) :
  0 < step ->
  range start stop step
  = Ret ((fun k => start + k * step)
           <$> seqZ 0 ((stop - start + step - 1) / step)).
Proof.
  intros Hstep. unfold range.
  assert ((step =? 0) = false) as -> by lia.
  by assert ((0 <? step) = true) as -> by lia.
Qed.

End Sequences.

Section InputIds.
Import Trainer.

Lemma ids_chunk_run (tok : tokenizer) (l body : list Z) (i bos lst : Z) :
  l !! 0%nat = Some bos -> last l = Some lst -> (2 <= length l)%nat ->
  slice l i (i + model_max_length tok - 2) = body -> body <> [] ->
  ids_chunk tok (squeeze0 l) i = Ret (chunk_of tok bos body lst).
Proof.
  intros Hbos Hlast Hlen Hbody Hne.
  assert (squeeze0 l = OneDim l) as ->.
  { destruct l as [|? [|? ?]]; simpl in *; [lia | lia | done]. }
  assert (item l 0 = Ret bos) as Hfirst by exact (item_lookup l 0 bos Hbos).
  assert (item l (-1) = Ret lst) as Hend.
  { apply (item_from_end l 1); [lia|]. rewrite last_lookup in Hlast.
    by replace (length l - 1)%nat with (pred (length l)) by lia. }
  unfold ids_chunk. rewrite Hfirst, Hbody, Hend. simpl mbind.
  destruct body as [|x rest]; [done|]. clear Hne.
  set (y := default x (last rest)).
  assert (item (bos :: (x :: rest) ++ [lst]) (-2) = Ret y) as ->.
  { apply (item_from_end _ 2).
    - simpl. rewrite length_app. simpl. lia.
    - assert ((length (bos :: (x :: rest) ++ [lst]) - 2)%nat
              = S (length rest)) as ->
        by (simpl; rewrite length_app; simpl; lia).
      change ((bos :: (x :: rest) ++ [lst]) !! S (length rest))
        with (((x :: rest) ++ [lst]) !! length rest).
      rewrite lookup_app_l by (simpl; lia).
      change (length rest) with (pred (length (x :: rest))).
      rewrite <- last_lookup, last_cons. subst y.
      by destruct (last rest). }
  simpl mbind. unfold chunk_of. fold y. unfold eos_or_pad.
  assert (setitem (bos :: (x :: rest) ++ [lst]) (-1) (eos_token_id tok)
          = Ret (bos :: x :: rest ++ [eos_token_id tok])) as Hset.
  { rewrite (setitem_from_end _ 1) by (simpl; lia). f_equal.
    assert ((length (bos :: (x :: rest) ++ [lst]) - 1)%nat
            = S (S (length rest))) as ->
      by (simpl; rewrite length_app; simpl; lia).
    simpl. rewrite insert_app_r_alt by done.
    by rewrite Nat.sub_diag. }
  assert (forall z, item (bos :: x :: rest ++ [z]) 1 = Ret x) as Hsecond.
  { intros z. by apply (item_lookup _ 1). }
  assert (forall z,
    setitem (bos :: x :: rest ++ [z]) 1 (eos_token_id tok)
    = Ret (bos :: eos_token_id tok :: rest ++ [z])) as Hfix.
  { intros z. by rewrite (setitem_insert _ 1) by (simpl; lia). }
  destruct ((y =? eos_token_id tok) || (y =? pad_token_id tok)); simpl negb;
    cbv iota.
  - rewrite outcome_bind_ret, Hsecond, outcome_bind_ret.
    destruct (x =? pad_token_id tok); [apply Hfix | done].
  - change (bos :: (x :: rest) ++ [lst]) with (bos :: x :: rest ++ [lst])
      in Hset.
    rewrite Hset, outcome_bind_ret, Hsecond, outcome_bind_ret.
    destruct (x =? pad_token_id tok); [apply Hfix | done].
Qed.

Lemma chunk_of_length (tok : tokenizer) (bos lst : Z) (body : list Z) :
  length (chunk_of tok bos body lst) = S (S (length body)).
Proof.
  destruct body as [|x rest]; [done|]. simpl. rewrite length_app. simpl. lia.
Qed.

Lemma chunk_of_lookup (tok : tokenizer) (bos lst : Z) (body : list Z) :
  body <> [] ->
  chunk_of tok bos body lst !! 0%nat = Some bos
  /\ chunk_of tok bos body lst !! 1%nat
     = (fun x => if x =? pad_token_id tok then eos_token_id tok else x)
         <$> body !! 0%nat
  /\ (forall j, (0 < j < length body)%nat ->
        chunk_of tok bos body lst !! S j = body !! j)
  /\ exists y, last body = Some y
       /\ chunk_of tok bos body lst !! S (length body)
          = Some (if eos_or_pad tok y then lst else eos_token_id tok).
Proof.
  intros Hne. destruct body as [|x rest]; [done|]. simpl.
  split; [done|]. split; [done|]. split.
  - intros [|j] Hj; [lia|]. simpl. apply lookup_app_l. simpl in Hj. lia.
  - exists (default x (last rest)). split.
    + rewrite last_cons. by destruct (last rest).
    + rewrite lookup_app_r by done. by rewrite Nat.sub_diag.
Qed.

(** The slice of chunk [k]. *)
Lemma chunk_bounds (tok : tokenizer) (max_length k : Z) :
  2 < model_max_length tok -> model_max_length tok < max_length ->
  0 <= k < chunk_count tok max_length ->
  1 <= 1 + k * (model_max_length tok - 2)
  /\ 1 + k * (model_max_length tok - 2) + (model_max_length tok - 2)
     <= max_length - 1.
Proof.
  intros HM Hmax [Hk0 Hk]. unfold chunk_count in Hk.
  pose proof (Z.mul_div_le (max_length - 2) (model_max_length tok - 2)
                ltac:(lia)).
  nia.
Qed.

Lemma process_input_ids_closed (tok : tokenizer) (input : list Z)
  (max_length bos lst : Z) :
  2 < model_max_length tok -> model_max_length tok < max_length ->
  Z.of_nat (length input) = max_length ->
  input !! 0%nat = Some bos -> last input = Some lst ->
  process_input_ids input tok max_length
  = Ret (Chunks
           ((fun k =>
               chunk_of tok bos
                 (take (Z.to_nat (model_max_length tok - 2))
                    (drop (Z.to_nat (1 + k * (model_max_length tok - 2)))
                       input))
                 lst)
              <$> seqZ 0 (chunk_count tok max_length))).
Proof.
  intros HM Hmax Hlen Hbos Hlast. unfold process_input_ids.
  assert ((max_length >? model_max_length tok) = true) as -> by lia.
  rewrite range_up by lia. rewrite outcome_bind_ret.
  replace (max_length - model_max_length tok + 2 - 1
           + (model_max_length tok - 2) - 1) with (max_length - 2) by lia.
  fold (chunk_count tok max_length).
  assert (0 < chunk_count tok max_length) as Hcount.
  { unfold chunk_count. apply Z.div_str_pos. lia. }
  rewrite (collect_ret _ _
    (fun i => chunk_of tok bos
                (take (Z.to_nat (model_max_length tok - 2))
                   (drop (Z.to_nat i) input)) lst)).
  2:{ intros i Hi. apply list_elem_of_fmap in Hi as (k & -> & Hk).
      apply elem_of_seqZ in Hk.
      destruct (chunk_bounds tok max_length k HM Hmax ltac:(lia))
        as [Hlo Hhi].
      apply ids_chunk_run; [done | done | lia | |].
      - replace (1 + k * (model_max_length tok - 2) + model_max_length tok - 2)
          with (1 + k * (model_max_length tok - 2)
                + (model_max_length tok - 2)) by lia.
        rewrite slice_inside by lia. do 2 f_equal. lia.
      - intros Hnil. apply (f_equal length) in Hnil.
        rewrite length_take, length_drop in Hnil. simpl in Hnil. lia. }
  rewrite outcome_bind_ret, <- list_fmap_compose.
  rewrite (stack_ret _ (Z.to_nat (model_max_length tok))); [done| |].
  - rewrite seqZ_cons by done. done.
  - apply Forall_fmap, Forall_forall. intros k Hk.
    apply elem_of_seqZ in Hk. simpl.
    destruct (chunk_bounds tok max_length k HM Hmax ltac:(lia)) as [Hlo Hhi].
    rewrite chunk_of_length, length_take, length_drop. lia.
Qed.

Lemma first_and_last {A} (input : list A) :
  (2 <= length input)%nat ->
  exists bos lst, input !! 0%nat = Some bos /\ last input = Some lst.
Proof.
  intros Hlen. destruct input as [|bos rest]; [simpl in Hlen; lia|].
  exists bos. destruct (last (bos :: rest)) as [lst|] eqn:Hl; [eauto|].
  by apply last_None in Hl.
Qed.

(** X15.  For a tokenizer of sequences longer than two tokens and a row
    of [max_length] tokens, longer than the tokenizer takes,
    [process_input_ids] returns [(max_length - 2) // (model_max_length - 2)]
    chunks of [model_max_length] tokens.  Chunk [k] starts with the first
    token of the row; its positions [1 .. m], with [m = model_max_length -
    2], hold the tokens [k * m + 1 .. k * m + m] of the row, a padding token
    at position 1 being replaced by the end token; its last position holds
    the last token of the row when the token before it ends a sequence, and
    the end token otherwise.  The last token of the row is never part of
    the body of a chunk. *)
Theorem process_input_ids_chunks (tok : tokenizer) (input : list Z)
  (max_length : Z) :
  let m := Z.to_nat (model_max_length tok - 2) in
  2 < model_max_length tok -> model_max_length tok < max_length ->
  Z.of_nat (length input) = max_length ->
  exists chunks lst,
    process_input_ids input tok max_length = Ret (Chunks chunks)
    /\ last input = Some lst
    /\ Z.of_nat (length chunks) = (max_length - 2) / (model_max_length tok - 2)
    /\ forall k c, chunks !! k = Some c ->
         Z.of_nat (length c) = model_max_length tok
         /\ (k * m + m < length input - 1)%nat
         /\ c !! 0%nat = input !! 0%nat
         /\ c !! 1%nat
            = (fun x => if x =? pad_token_id tok then eos_token_id tok else x)
                <$> input !! (k * m + 1)%nat
         /\ (forall j, (1 < j <= m)%nat -> c !! j = input !! (k * m + j)%nat)
         /\ exists y, input !! (k * m + m)%nat = Some y
              /\ c !! (m + 1)%nat
                 = Some (if eos_or_pad tok y then lst else eos_token_id tok).
Proof.
  intros m HM Hmax Hlen.
  destruct (first_and_last input ltac:(lia)) as (bos & lst & Hbos & Hlast).
  eexists _, lst. split; [|split; [done|split]].
  - by apply process_input_ids_closed.
  - rewrite length_fmap, length_seqZ. unfold chunk_count.
    pose proof (Z.div_pos (max_length - 2) (model_max_length tok - 2)
                  ltac:(lia) ltac:(lia)). lia.
  - intros k c Hc. apply list_lookup_fmap_Some in Hc as (k' & -> & Hk').
    apply lookup_seqZ in Hk' as [-> Hk]. rewrite Z.add_0_l.
    destruct (chunk_bounds tok max_length (Z.of_nat k) HM Hmax ltac:(lia))
      as [Hlo Hhi].
    assert (Z.to_nat (1 + Z.of_nat k * (model_max_length tok - 2))
            = (1 + k * m)%nat) as -> by (subst m; nia).
    set (body := take _ _).
    assert (length body = m) as Hbody.
    { subst body. rewrite length_take, length_drop. subst m. nia. }
    assert (forall p, (p < m)%nat -> body !! p = input !! (k * m + S p)%nat)
      as Hat.
    { intros p Hp. subst body. rewrite lookup_take_lt by (subst m; lia).
      rewrite lookup_drop. f_equal. lia. }
    assert (body <> []) as Hne.
    { intros Hnil. rewrite Hnil in Hbody. simpl in Hbody. subst m. lia. }
    destruct (chunk_of_lookup tok bos lst body Hne)
      as (H0 & H1 & Hmid & y & Hy & Hend).
    split; [rewrite chunk_of_length, Hbody; subst m; lia|].
    split; [subst m; nia|].
    split; [by rewrite H0, Hbos|].
    split; [rewrite H1, (Hat 0%nat) by (subst m; lia); do 2 f_equal; lia|].
    split.
    + intros [|j] Hj; [lia|]. rewrite Hmid by lia.
      rewrite Hat by lia. f_equal.
    + exists y. split.
      * rewrite last_lookup, Hbody in Hy.
        rewrite Hat in Hy by (subst m; lia). rewrite <- Hy. f_equal.
        subst m. lia.
      * by rewrite Nat.add_1_r, <- Hbody.
Qed.

(** X16.  The tokens of the row between the body of the last chunk and
    the last token do not reach the result: two rows of [max_length] tokens
    that agree up to position [chunk_count * (model_max_length - 2)] and on
    their last token are turned into the same chunks. *)
Theorem process_input_ids_ignores_tail (tok : tokenizer)
  (input input' : list Z) (max_length : Z) :
  2 < model_max_length tok -> model_max_length tok < max_length ->
  Z.of_nat (length input) = max_length ->
  Z.of_nat (length input') = max_length ->
  (forall p : nat,
     Z.of_nat p
     <= chunk_count tok max_length * (model_max_length tok - 2) ->
     input !! p = input' !! p) ->
  last input = last input' ->
  process_input_ids input tok max_length
  = process_input_ids input' tok max_length.
Proof.
  intros HM Hmax Hlen Hlen' Hsame Hlast.
  destruct (first_and_last input ltac:(lia)) as (bos & lst & Hbos & Hl).
  assert (0 < chunk_count tok max_length) as Hcount.
  { unfold chunk_count. apply Z.div_str_pos. lia. }
  rewrite (process_input_ids_closed tok input max_length bos lst) by done.
  rewrite (process_input_ids_closed tok input' max_length bos lst);
    [|done|done|done| |congruence].
  2:{ rewrite <- Hsame; [done|]. simpl. nia. }
  do 2 f_equal. apply list_fmap_ext. intros i k Hk.
  apply lookup_seqZ in Hk as [-> Hk]. rewrite Z.add_0_l. f_equal.
  apply list_eq. intros p.
  destruct (decide (p < Z.to_nat (model_max_length tok - 2))%nat) as [Hp|Hp].
  - rewrite !lookup_take_lt, !lookup_drop by done. apply Hsame. nia.
  - by rewrite !lookup_take_ge by lia.
Qed.

(** X17.  The edges of [process_input_ids]: a [max_length] the tokenizer
    takes gives the row back unchanged; beyond it, a tokenizer of sequences
    of two tokens raises [ValueError] (a [range] of step zero), one of
    shorter sequences raises [RuntimeError] (no chunk to stack), and a row
    of fewer than two tokens raises [IndexError]. *)
Theorem process_input_ids_edges (tok : tokenizer) (input : list Z)
  (max_length : Z) :
  (max_length <= model_max_length tok ->
   process_input_ids input tok max_length = Ret (Row input))
  /\ (model_max_length tok < max_length -> model_max_length tok = 2 ->
      exists msg,
        process_input_ids input tok max_length = Raise (ValueError msg))
  /\ (model_max_length tok < max_length -> model_max_length tok < 2 ->
      exists msg,
        process_input_ids input tok max_length = Raise (RuntimeError msg))
  /\ (model_max_length tok < max_length -> 2 < model_max_length tok ->
      (length input <= 1)%nat ->
      process_input_ids input tok max_length = Raise IndexError).
Proof.
  unfold process_input_ids. repeat split.
  - intros Hle. by assert ((max_length >? model_max_length tok) = false) as ->
      by lia.
  - intros Hlt HM. rewrite HM in *.
    assert ((max_length >? 2) = true) as -> by lia. by eexists.
  - intros Hlt HM.
    assert ((max_length >? model_max_length tok) = true) as -> by lia.
    unfold range.
    assert ((model_max_length tok - 2 =? 0) = false) as -> by lia.
    assert ((0 <? model_max_length tok - 2) = false) as -> by lia.
    rewrite seqZ_nil; [by eexists|].
    apply Z.lt_succ_r, Z.div_lt_upper_bound; lia.
  - intros Hlt HM Hlen.
    assert ((max_length >? model_max_length tok) = true) as -> by lia.
    rewrite range_up by lia. rewrite outcome_bind_ret.
    rewrite seqZ_cons.
    2:{ apply Z.div_str_pos. lia. }
    destruct input as [|x [|x' rest]]; [done | done | simpl in Hlen; lia].
Qed.

End InputIds.

(** ** Captions *)

Section Captions.
Import Trainer.

Lemma append_empty_r (s : string) : s +:+ "" = s.
Proof.
  induction s as [|c s IH]; [done|].
  change (String c s +:+ "") with (String c (s +:+ "")). by rewrite IH.
Qed.

Lemma split_char_app (c : ascii) (x s part : string) (parts : list string) :
  has_char c x = false -> split_char c s = part :: parts ->
  split_char c (x +:+ s) = (x +:+ part) :: parts.
Proof.
  intros Hx Hs. induction x as [|d x IH]; [done|].
  simpl in Hx. apply orb_false_iff in Hx as [Hd Hx].
  change (String d x +:+ s) with (String d (x +:+ s)).
  change (String d x +:+ part) with (String d (x +:+ part)).
  simpl. by rewrite Hd, (IH Hx).
Qed.

Lemma split_char_free (c : ascii) (x : string) :
  has_char c x = false -> split_char c x = [x].
Proof.
  intros Hx. rewrite <- (append_empty_r x) at 1.
  rewrite (split_char_app c x "" "" []) by done. by rewrite append_empty_r.
Qed.

(** Joining and splitting again gives the list back. *)
Lemma split_join (c : ascii) (l : list string) :
  l <> [] -> Forall (fun x => has_char c x = false) l ->
  split_char c (String.concat (String c "") l) = l.
Proof.
  intros Hne Hall. induction l as [|x l IH]; [done|].
  apply Forall_cons in Hall as [Hx Hall].
  destruct l as [|y l]; [by apply split_char_free|].
  change (String.concat (String c "") (x :: y :: l))
    with (x +:+ String c (String.concat (String c "") (y :: l))).
  rewrite (split_char_app c x _ "" (y :: l)); [by rewrite append_empty_r|done|].
  simpl. rewrite Ascii.eqb_refl. f_equal. by apply IH.
Qed.

(** The parts of a split do not contain the separator, and there is at
    least one. *)
Lemma split_char_parts (c : ascii) (s : string) :
  split_char c s <> []
  /\ Forall (fun x => has_char c x = false) (split_char c s).
Proof.
  induction s as [|d s [Hne Hall]]; [by repeat constructor|]. simpl.
  destruct (Ascii.eqb d c) eqn:Hd.
  - split; [done|]. by constructor.
  - destruct (split_char c s) as [|part parts]; [done|]. split; [done|].
    apply Forall_cons in Hall as [Hp Hall]. constructor; [|done].
    simpl. by rewrite Hd, Hp.
Qed.

(** X18.  For a caption with exactly one ["|||"], whatever the two
    shuffles are (they permute their lists), the caption that is tokenized
    splits on commas into the tags of the first part, in some order,
    followed by the tags of the second part, in some order: no tag is lost,
    added or merged, and no tag crosses the separator. *)
Theorem shuffled_caption_keeps_tags (sh : shuffles)
  (caption part0 part1 : string) :
  (forall l, shuffle_first sh l ≡ₚ l) ->
  (forall l, shuffle_second sh l ≡ₚ l) ->
  split_bars caption = [part0; part1] ->
  exists first_words second_words,
    split_char "," (shuffle_caption sh caption) = first_words ++ second_words
    /\ first_words ≡ₚ split_char "," (strip part0)
    /\ second_words ≡ₚ split_char "," (strip part1).
Proof.
  intros Hfirst Hsecond Hparts.
  exists (shuffle_first sh (split_char "," (strip part0))),
         (shuffle_second sh (split_char "," (strip part1))).
  split; [|by split]. unfold shuffle_caption. rewrite Hparts.
  destruct (split_char_parts "," (strip part0)) as [Hne0 Hfree0].
  destruct (split_char_parts "," (strip part1)) as [Hne1 Hfree1].
  apply split_join.
  - intros Hnil. apply app_eq_nil in Hnil as [Hnil _].
    pose proof (Hfirst (split_char "," (strip part0))) as Hperm.
    rewrite Hnil in Hperm. by apply Permutation_nil in Hperm.
  - apply Forall_app. split.
    + by rewrite Hfirst.
    + by rewrite Hsecond.
Qed.

End Captions.

(** ** Hidden states of long sequences *)

Section LongSequences.
Import Trainer.
Context {A : Type}.
Implicit Types (cs : list (list A)).

Lemma slice_beyond (l : list A) (start stop : Z) :
  Z.of_nat (length l) <= start -> slice l start stop = [].
Proof.
  intros Hs. unfold slice. cbv zeta beta.
  assert ((start <? 0) = false) as -> by lia.
  rewrite (Z.min_l _ start) by lia.
  rewrite (Z.max_r 0 (Z.of_nat (length l))) by lia.
  rewrite Nat2Z.id, drop_all. by destruct (Z.to_nat _).
Qed.

Lemma drop_mjoin (m k : nat) cs :
  Forall (fun c => length c = m) cs ->
  drop (k * m) (mjoin cs) = mjoin (drop k cs).
Proof.
  revert cs. induction k as [|k IH]; intros cs Hall; [done|].
  destruct cs as [|c cs]; [simpl; by rewrite drop_nil|].
  apply Forall_cons in Hall as [Hc Hall]. simpl.
  rewrite <- (IH cs Hall), <- Hc.
  by rewrite drop_app_add'.
Qed.

Lemma length_mjoin (m : nat) cs :
  Forall (fun c => length c = m) cs -> length (mjoin cs) = (length cs * m)%nat.
Proof.
  induction 1 as [|c cs Hc Hall IH]; [done|].
  simpl. rewrite length_app, IH. lia.
Qed.

Lemma mjoin_nils (ls : list (list A)) :
  Forall (fun l => l = []) ls -> mjoin ls = [].
Proof. induction 1 as [|l ls -> Hall IH]; [done|]. done. Qed.

(** X19.  For the hidden states of chunks of [max_position_embeddings]
    positions each, the last of which starts before [max_length], the
    long-sequence block of [encode_prompt] returns the first state, then
    the states of every chunk without its first and last position, then
    the last state. *)
Theorem long_sequence_states_strip_chunk_ends cs
  (max_length max_position_embeddings : Z) :
  2 < max_position_embeddings -> cs <> [] ->
  Forall (fun c => Z.of_nat (length c) = max_position_embeddings) cs ->
  (Z.of_nat (length cs) - 1) * max_position_embeddings + 1 < max_length ->
  exists first lst,
    head (mjoin cs) = Some first /\ last (mjoin cs) = Some lst
    /\ long_sequence_states (mjoin cs) max_length max_position_embeddings
       = Ret ([first]
              ++ mjoin ((fun c =>
                           take (Z.to_nat (max_position_embeddings - 2))
                             (drop 1 c)) <$> cs)
              ++ [lst]).
Proof.
  intros Hmpe Hne Hall Hcover.
  set (m := Z.to_nat max_position_embeddings).
  assert (Forall (fun c => length c = m) cs) as Hall'.
  { eapply Forall_impl; [exact Hall|]. intros c Hc. simpl in Hc. subst m. lia. }
  pose proof (length_mjoin m cs Hall') as Hlen.
  assert (0 < length cs)%nat as Hn by (destruct cs; [done | simpl; lia]).
  assert (2 <= length (mjoin cs))%nat as Hlen2 by (subst m; nia).
  destruct (first_and_last (mjoin cs) Hlen2) as (first & lst & Hfirst & Hlast).
  exists first, lst. split; [by rewrite head_lookup|]. split; [done|].
  unfold long_sequence_states.
  assert (item (mjoin cs) 0 = Ret first) as ->
    by exact (item_lookup (mjoin cs) 0 first Hfirst).
  rewrite outcome_bind_ret, range_up, outcome_bind_ret by lia.
  assert (item (mjoin cs) (-1) = Ret lst) as ->.
  { apply (item_from_end _ 1); [lia|]. rewrite last_lookup in Hlast.
    by replace (length (mjoin cs) - 1)%nat
      with (pred (length (mjoin cs))) by lia. }
  rewrite outcome_bind_ret. do 3 f_equal.
  set (count := (max_length - 1 + max_position_embeddings - 1)
                / max_position_embeddings).
  assert (Z.of_nat (length cs) <= count) as Hcount.
  { subst count. apply Z.div_le_lower_bound; lia. }
  replace count with (Z.of_nat (length cs) + (count - Z.of_nat (length cs)))
    by lia.
  rewrite seqZ_app, !fmap_app, join_app by lia.
  rewrite <- !list_fmap_compose.
  match goal with |- _ ++ ?t = _ => assert (t = []) as -> end.
  { apply mjoin_nils, Forall_fmap, Forall_forall.
    intros k Hk. apply elem_of_seqZ in Hk. simpl.
    apply slice_beyond. rewrite Hlen. subst m. nia. }
  rewrite app_nil_r.
  f_equal. apply list_eq. intros k.
  rewrite !list_lookup_fmap.
  destruct (cs !! k) as [c|] eqn:Hc.
  - assert (k < length cs)%nat as Hk by by apply lookup_lt_Some in Hc.
    rewrite lookup_seqZ_lt by lia. simpl.
    rewrite slice_inside by (rewrite ?Hlen; subst m; nia).
    replace (Z.to_nat (1 + (0 + Z.of_nat k) * max_position_embeddings))
      with (k * m + 1)%nat by (subst m; nia).
    rewrite <- drop_drop, (drop_mjoin m k cs Hall').
    rewrite (drop_S _ _ _ Hc). simpl.
    assert (length c = m) as Hcm.
    { rewrite Forall_forall in Hall'. apply Hall'.
      by apply list_elem_of_lookup_2 in Hc. }
    destruct c as [|x c]; [simpl in Hcm; subst m; lia|]. simpl.
    rewrite drop_0. f_equal.
    rewrite take_app_le by (simpl in Hcm; subst m; lia).
    f_equal. lia.
  - rewrite lookup_seqZ_ge; [done|]. apply lookup_ge_None in Hc. lia.
Qed.

Lemma every_short (n : nat) (l : list A) (off : nat) :
  (0 < off)%nat -> (off + length l <= n)%nat ->
  mjoin (imap (fun i x => if ((off + i) mod n =? 0)%nat then [x] else []) l)
  = [].
Proof.
  intros Hoff Hlen. apply mjoin_nils, Forall_forall. intros ys Hys.
  apply elem_of_lookup_imap in Hys as (i & x & -> & Hi).
  apply lookup_lt_Some in Hi.
  rewrite Nat.mod_small by lia.
  by assert ((off + i =? 0)%nat = false) as -> by (apply Nat.eqb_neq; lia).
Qed.

Lemma every_mjoin (n : nat) cs :
  (0 < n)%nat -> Forall (fun c => length c = n) cs ->
  every n (mjoin cs) = omap head cs.
Proof.
  intros Hn. induction 1 as [|c cs Hc Hall IH]; [done|].
  unfold every in *. simpl. rewrite imap_app, join_app.
  destruct c as [|x c]; [simpl in Hc; lia|]. simpl.
  rewrite Nat.Div0.mod_0_l. simpl.
  rewrite (imap_ext _ (fun i x => if ((1 + i) mod n =? 0)%nat then [x] else []))
    by done.
  rewrite every_short by (simpl in Hc; lia). simpl. f_equal.
  change (list_omap (list A) A head cs) with (omap head cs).
  rewrite <- IH. f_equal. apply imap_ext. intros i y _. simpl.
  replace (S (length c + i)) with (i + 1 * n)%nat by (simpl in Hc; lia).
  by rewrite Nat.Div0.mod_add.
Qed.

(** X20.  When every example has [max_length // 75] chunks,
    [pooled_prompt_embeds[::n_chunks]] keeps the pooled output of the
    first chunk of each example; a [max_length] below 75 makes the step
    zero and raises [ValueError]. *)
Theorem pooled_per_example_first_chunk (per_example : list (list A))
  (max_length : Z) :
  (75 <= max_length ->
   Forall (fun e => Z.of_nat (length e) = max_length / 75) per_example ->
   pooled_per_example (mjoin per_example) max_length
   = Ret (omap head per_example))
  /\ (0 <= max_length < 75 ->
      exists msg,
        pooled_per_example (mjoin per_example) max_length
        = Raise (ValueError msg)).
Proof.
  unfold pooled_per_example, stride. split.
  - intros Hmax Hall.
    assert (0 < max_length / 75) by (apply Z.div_str_pos; lia).
    assert ((max_length / 75 =? 0) = false) as -> by lia.
    assert ((max_length / 75 <? 0) = false) as -> by lia.
    rewrite every_mjoin; [done | lia |].
    eapply Forall_impl; [exact Hall|]. intros e He. simpl in He. lia.
  - intros Hmax. rewrite Z.div_small by lia. by eexists.
Qed.

End LongSequences.

(** ** The additional statements at concrete inputs *)

Section MoreInstances.
Import Sampler Delect Merge Trainer Examples.

(** X1 at a 4000 x 3000 image under the default bounds. *)
Lemma calculate_adjusted_resolution_multiple_of_8_witness :
  calculate_adjusted_resolution 4000 3000 (1536 * 1536) 2048
  = Ret (1768, 1328)
  /\ (8 | 1768) /\ (8 | 1328).
Proof.
  assert (calculate_adjusted_resolution 4000 3000 (1536 * 1536) 2048
          = Ret (1768, 1328)) as Hrun by (vm_compute; reflexivity).
  split; [exact Hrun|].
  exact (calculate_adjusted_resolution_multiple_of_8 _ _ _ _ _ _ Hrun).
Defined.

(** X2 at an 832 x 1216 image under the default bounds. *)
Lemma calculate_adjusted_resolution_no_scaling_witness :
  0 < 832 /\ 0 < 1216 /\ 832 <= 2048 /\ 1216 <= 2048
  /\ 832 * 1216 <= 1536 * 1536
  /\ calculate_adjusted_resolution 832 1216 (1536 * 1536) 2048
     = Ret (832 / 8 * 8, 1216 / 8 * 8).
Proof.
  repeat (split; [lia|]).
  apply (calculate_adjusted_resolution_no_scaling 832 1216 (1536 * 1536) 2048);
    lia.
Defined.

(** X4 on two shards and an index over them. *)
Lemma merge_safetensors_success_witness :
  exists fs',
    merge_safetensors "index.json" "merged.safetensors" two_shards
    = (fs', Ret tt)
    /\ stdout fs' = ["Merged model saved to merged.safetensors"].
Proof.
  set (fs' := (merge_safetensors "index.json" "merged.safetensors"
                 two_shards).1).
  assert (merge_safetensors "index.json" "merged.safetensors" two_shards
          = (fs', Ret tt)) as Hrun by (vm_compute; reflexivity).
  exists fs'. split; [exact Hrun|].
  destruct (merge_safetensors_success two_shards fs' "index.json"
              "merged.safetensors" Hrun)
    as (config & wm & fa & fb & merged & _ & _ & _ & _ & -> & _).
  reflexivity.
Defined.

(** X6 on a listing of two directories. *)
Lemma only_process_marks_unlinked_witness :
  Unlink "a/process.mark"
    ∈ (delete_process_mark_files (fun _ => Ret tt) walk2 []).1
  /\ (Unlink "a/process.mark" ∈ ([] : list Delect.event)
      \/ exists dirpath dirnames filenames,
           (dirpath, dirnames, filenames) ∈ walk2
           /\ "process.mark" ∈ filenames
           /\ "a/process.mark" = path_join dirpath "process.mark").
Proof.
  assert (Unlink "a/process.mark"
            ∈ (delete_process_mark_files (fun _ => Ret tt) walk2 []).1)
    as Hin by (apply (list_elem_of_lookup_2 _ 0%nat); reflexivity).
  split; [exact Hin|].
  exact (only_process_marks_unlinked (fun _ => Ret tt) walk2 []
           "a/process.mark" Hin).
Defined.

(** X7 at a batch of three examples over the reals. *)
Lemma compute_loss_three_examples_witness :
  exists loss winning losing ratio,
    compute_loss (Scalar0 := real_scalar) args1024 scheduler1000 pred3 target3
    = Ret (loss, winning, losing, ratio)
    /\ length winning = 2%nat /\ length losing = 1%nat
    /\ length ratio = 2%nat.
Proof.
  eexists _, _, _, _. split.
  - exact (compute_loss_three_examples (Scalar0 := real_scalar) args1024
             scheduler1000 [1; 2]%R [3; 5]%R [0; 1]%R [0; 2]%R [1; 1]%R
             [0; 0]%R eq_refl eq_refl eq_refl).
  - repeat split.
Defined.

(** X8 at a batch of one example over the reals. *)
Lemma compute_loss_odd_batch_witness :
  length <$> pred1 = length <$> target1
  /\ Nat.Odd (length pred1)
  /\ exists msg,
       compute_loss (Scalar0 := real_scalar) args1024 scheduler1000 pred1
         target1
       = Raise (ValueError msg).
Proof.
  assert (Nat.Odd (length pred1)) as Hodd by (exists 0%nat; reflexivity).
  split; [reflexivity|]. split; [exact Hodd|].
  exact (proj1 (compute_loss_odd_batch_raises (Scalar0 := real_scalar)
                  args1024 scheduler1000 pred1 target1 eq_refl Hodd
                  ltac:(discriminate)) eq_refl).
Defined.

(** X9 at two 2 x 2 tiles and a 2 x 2 target. *)
Lemma exact_size_pair_witness :
  has_size 2 2 tile_a /\ has_size 2 2 tile_b
  /\ augment_pair (Scalar0 := real_scalar) args1024 draws0 (tile_a, tile_b) 1
       (2, 2)
     = Ret (normalize (Scalar0 := real_scalar) (tile_a ++ tile_b), (0, 0)).
Proof.
  assert (has_size 2 2 tile_a) as Ha by (repeat constructor).
  assert (has_size 2 2 tile_b) as Hb by (repeat constructor).
  split; [exact Ha|]. split; [exact Hb|].
  exact (exact_size_pair_not_cropped (Scalar0 := real_scalar) args1024 draws0
           tile_a tile_b 1 2 2 ltac:(discriminate) ltac:(discriminate)
           ltac:(lia) Ha Hb).
Defined.

(** X10 at the unmarked entry of the example manifest, with an endpoint
    that returns two images. *)
Lemma entry_success_witness :
  generated todo_info <> Some true
  /\ exists body,
       (process_entry env_ok sampler_args "temp/artist" api_url "artist"
          ("010.png", todo_info) (boot files1)).1.(log)
       = tagged ("artist", "010.png")
           [Post api_url body;
            SaveWebp "temp/artist/010_DPO1.webp" "aW1hZ2UgMQ==";
            SaveWebp "temp/artist/010_DPO2.webp" "aW1hZ2UgMg==";
            DumpJson "dataset.json"
              (alter (alter mark_generated "010.png") "artist" ∅)].
Proof.
  assert (generated todo_info <> Some true) as Hgen by discriminate.
  split; [exact Hgen|].
  destruct (entry_success_trace env_ok sampler_args "temp/artist" api_url
              "artist" "010.png" todo_info (boot files1) 1024 768
              ["aW1hZ2UgMQ=="; "aW1hZ2UgMg=="] Hgen)
    as (body & _ & _ & _ & Hrun).
  - vm_compute. reflexivity.
  - reflexivity.
  - reflexivity.
  - exists body. cbv zeta in Hrun. rewrite Hrun. reflexivity.
Defined.

(** X11 at the unmarked entry of the example manifest, when the only
    image received does not decode. *)
Lemma entry_save_failure_witness :
  generated todo_info <> Some true
  /\ exists body,
       process_entry env_bad_image sampler_args "temp/artist" api_url "artist"
         ("010.png", todo_info) (boot files1)
       = ({| data := ∅; disk := files1; current := None;
             log := tagged ("artist", "010.png")
                      [Post api_url body;
                       PrintItemError "010.png" "artist"
                         (ValueError "cannot identify image file")] |},
          Ret tt).
Proof.
  assert (generated todo_info <> Some true) as Hgen by discriminate.
  split; [exact Hgen|].
  destruct (entry_save_failure_trace env_bad_image sampler_args "temp/artist"
              api_url "artist" "010.png" todo_info (boot files1) 1024 768
              ["bm90IGFuIGltYWdl"] 0 "bm90IGFuIGltYWdl"
              (ValueError "cannot identify image file") Hgen)
    as (body & Hrun).
  - vm_compute. reflexivity.
  - reflexivity.
  - reflexivity.
  - reflexivity.
  - intros i b' Hi. lia.
  - exists body. exact Hrun.
Defined.

(** X12 at the example manifest, with the endpoint down. *)
Lemma run_only_marks_witness :
  files1 !! json_path sampler_args = Some manifest1
  /\ exists m,
       disk (run env_down sampler_args files1).1 !! json_path sampler_args
       = Some m
       /\ more_marked manifest1 m.
Proof.
  assert (files1 !! json_path sampler_args = Some manifest1) as Hfile
    by (vm_compute; reflexivity).
  split; [exact Hfile|].
  destruct (run_only_marks_entries env_down sampler_args files1 manifest1
              Hfile) as (m & Hm & Hmore & _).
  exists m. split; [exact Hm | exact Hmore].
Defined.

(** X13 at the example manifest, when the image received does not
    decode. *)
Lemma run_settles_witness :
  (forall p, mkdir env_bad_image p = Ret tt)
  /\ files1 !! json_path sampler_args = Some manifest1
  /\ exists s1, run env_bad_image sampler_args files1 = (s1, Ret tt).
Proof.
  assert (forall p, mkdir env_bad_image p = Ret tt) as Hmk by reflexivity.
  assert (files1 !! json_path sampler_args = Some manifest1) as Hfile
    by (vm_compute; reflexivity).
  split; [exact Hmk|]. split; [exact Hfile|].
  destruct (run_settles_every_entry env_bad_image sampler_args files1
              manifest1 Hmk Hfile) as (s1 & m & Hrun & _).
  exists s1. exact Hrun.
Defined.

(** A log without a printed item error, checked by evaluation. *)
Lemma no_item_error (l : list (option entry * Sampler.event)) :
  forallb (fun x => match x.2 with
                    | PrintItemError _ _ _ => false
                    | _ => true
                    end) l = true ->
  forall k n artist e, (Some k, PrintItemError n artist e) ∉ l.
Proof.
  intros Hall k n artist e Hin. rewrite forallb_forall in Hall.
  apply list_elem_of_In, Hall in Hin. discriminate.
Qed.

(** X14 at the example manifest: a first run that succeeds, a second run
    with a failing decoder. *)
Lemma complete_run_witness :
  (forall p, mkdir env_ok p = Ret tt)
  /\ files1 !! json_path sampler_args = Some manifest1
  /\ forall k ev,
       (Some k, ev)
         ∉ log (run env_bad_image sampler_args
                  (disk (run env_ok sampler_args files1).1)).1.
Proof.
  assert (forall p, mkdir env_ok p = Ret tt) as Hmk by reflexivity.
  assert (files1 !! json_path sampler_args = Some manifest1) as Hfile
    by (vm_compute; reflexivity).
  split; [exact Hmk|]. split; [exact Hfile|].
  apply (complete_run_not_repeated env_ok env_bad_image sampler_args files1
           manifest1 Hmk Hfile).
  apply no_item_error. vm_compute. reflexivity.
Defined.

(** X15 at a row of 13 tokens and sequences of five tokens. *)
Lemma process_input_ids_chunks_witness :
  2 < model_max_length small_tokenizer
  /\ model_max_length small_tokenizer < 13
  /\ Z.of_nat (length row13) = 13
  /\ exists chunks,
       process_input_ids row13 small_tokenizer 13 = Ret (Chunks chunks)
       /\ Z.of_nat (length chunks) = 3.
Proof.
  split; [reflexivity|]. split; [reflexivity|]. split; [reflexivity|].
  destruct (process_input_ids_chunks small_tokenizer row13 13 eq_refl eq_refl
              eq_refl) as (chunks & lst & Hrun & _ & Hlen & _).
  exists chunks. split; [exact Hrun | exact Hlen].
Defined.

(** X16 at two rows of 13 tokens that differ at positions 10 and 11. *)
Lemma process_input_ids_ignores_tail_witness :
  row13 <> row13'
  /\ process_input_ids row13 small_tokenizer 13
     = process_input_ids row13' small_tokenizer 13.
Proof.
  split; [discriminate|].
  apply process_input_ids_ignores_tail; try reflexivity.
  intros p Hp. do 10 (destruct p as [|p]; [reflexivity|]).
  exfalso. change (chunk_count small_tokenizer 13
                   * (model_max_length small_tokenizer - 2)) with 9 in Hp.
  lia.
Defined.

(** X17 at a [max_length] of five tokens, and at a row of one token. *)
Lemma process_input_ids_edges_witness :
  process_input_ids row13 small_tokenizer 5 = Ret (Row row13)
  /\ process_input_ids [1]
       small_tokenizer 13 = Raise IndexError.
Proof.
  destruct (process_input_ids_edges small_tokenizer row13 5)
    as (Hshort & _).
  destruct (process_input_ids_edges small_tokenizer [1] 13)
    as (_ & _ & _ & Hone).
  split.
  - apply Hshort. discriminate.
  - apply Hone; [reflexivity | reflexivity | simpl; lia].
Defined.

(** X18 at a caption of two tags on each side, shuffled by reversal. *)
Lemma shuffled_caption_witness :
  split_bars "a, b ||| c, d" = ["a, b "; " c, d"]
  /\ exists first_words second_words,
       split_char "," (shuffle_caption reversing "a, b ||| c, d")
       = first_words ++ second_words
       /\ first_words ≡ₚ ["a"; " b"]
       /\ second_words ≡ₚ ["c"; " d"].
Proof.
  split; [reflexivity|].
  exact (shuffled_caption_keeps_tags reversing "a, b ||| c, d" "a, b " " c, d"
           (fun l => reverse_Permutation l) (fun l => reverse_Permutation l)
           eq_refl).
Defined.

(** X19 at three chunks of five positions. *)
Lemma long_sequence_states_witness :
  long_sequence_states (mjoin states15) 12 5
  = Ret [0; 1; 2; 3; 6; 7; 8; 11; 12; 13; 14].
Proof.
  destruct (long_sequence_states_strip_chunk_ends states15 12 5)
    as (first & lst & Hfirst & Hlast & Hrun).
  - reflexivity.
  - discriminate.
  - repeat constructor.
  - reflexivity.
  - injection Hfirst as <-. injection Hlast as <-. exact Hrun.
Defined.

(** X20 at two examples of three chunks, and at a [max_length] of 74. *)
Lemma pooled_per_example_witness :
  pooled_per_example (mjoin pooled6) 255 = Ret [1; 4]
  /\ exists msg,
       pooled_per_example (mjoin pooled6) 74 = Raise (ValueError msg).
Proof.
  destruct (pooled_per_example_first_chunk pooled6 255) as [Hfirst _].
  destruct (pooled_per_example_first_chunk pooled6 74) as [_ Hzero].
  split.
  - apply Hfirst; [lia | repeat constructor].
  - apply Hzero. lia.
Defined.

End MoreInstances.
